(** * messages-tui: the session engine, embedded and verified

    A shallow embedding of the Go packages [internal/store],
    [internal/ui] (store.go, input.go, contacts.go, messages.go, app.go,
    styles.go), of the pairing handler of [internal/client] (auth.go)
    and of the defaults of [internal/config], together with the
    properties of the modal editor, the panel controller and the
    session loop.

    Conventions.
    - A Go [string] is a sequence of bytes: Rocq's [string].  [len(s)]
      is [GoStr.len s], [s[i]] is [GoStr.byte_at s i].
    - A Go [int] is modelled by [Z].  Every integer below is a cursor
      offset, an index or a small score bounded by the length of a
      buffer of at most [CharLimit] runes, far away from the 64-bit
      wrap-around, which is therefore not written out.
    - A [rune] is its code point in [Z].
    - Pointers to store records are modelled by the records themselves.
      The only writes through such a pointer are those of
      [store.AddMessage] and [store.MarkConversationRead], to the record
      kept in the store's map, which is where they are modelled.
    - A method with a value receiver returns the updated copy; a method
      with a pointer receiver is a function from the old to the new
      receiver. *)

From Stdlib Require Import ZArith Lia Ascii String List DecimalString.
From stdpp Require Import base tactics option list gmap strings.

Local Open Scope Z_scope.

(* ================================================================== *)
(** ** Go strings *)
(* ================================================================== *)

Module GoStr.

(** [len(s)] *)
Definition len (s : string) : Z := Z.of_nat (String.length s).

(** [s[i]]; [None] stands for the run-time panic of an index out of
    range. *)
Definition byte_at (s : string) (i : Z) : option ascii :=
  if i <? 0 then None else String.get (Z.to_nat i) s.

Fixpoint drop (n : nat) (s : string) : string :=
  match n, s with
  | O, _ => s
  | S n', String _ tl => drop n' tl
  | S _, EmptyString => EmptyString
  end.

Fixpoint take (n : nat) (s : string) : string :=
  match n, s with
  | O, _ => EmptyString
  | S n', String b tl => String b (take n' tl)
  | S _, EmptyString => EmptyString
  end.

(** [s[i:]] and [s[:i]] *)
Definition slice_from (s : string) (i : Z) : string := drop (Z.to_nat i) s.
Definition slice_to (s : string) (i : Z) : string := take (Z.to_nat i) s.

(** [strings.HasPrefix(s, prefix)] *)
Definition HasPrefix (s pre : string) : bool := String.prefix pre s.

(** [strings.Contains(s, substr)] *)
Fixpoint Contains (s sub : string) : bool :=
  String.prefix sub s ||
  match s with
  | EmptyString => false
  | String _ tl => Contains tl sub
  end.

(** [strings.Split(s, sep)] for a one-byte separator. *)
Fixpoint split_go (sep : ascii) (cur : string) (s : string) : list string :=
  match s with
  | EmptyString => [String.rev cur]
  | String b tl =>
      if Ascii.eqb b sep then String.rev cur :: split_go sep EmptyString tl
      else split_go sep (String b cur) tl
  end.
Definition Split (s : string) (sep : ascii) : list string :=
  split_go sep EmptyString s.

Definition byte_of_Z (z : Z) : ascii := ascii_of_N (Z.to_N z).

(** UTF-8 encoding of one rune, as [string(rune)] does it: a code
    point outside the Unicode range or inside the surrogate range is
    encoded as U+FFFD. *)
Definition encode_rune (r : Z) : string :=
  if (r <? 0) || (1114111 <? r) || ((55296 <=? r) && (r <=? 57343)) then
    String (byte_of_Z 239) (String (byte_of_Z 191) (String (byte_of_Z 189) EmptyString))
  else if r <? 128 then
    String (byte_of_Z r) EmptyString
  else if r <? 2048 then
    String (byte_of_Z (Z.lor 192 (Z.shiftr r 6)))
      (String (byte_of_Z (Z.lor 128 (Z.land r 63))) EmptyString)
  else if r <? 65536 then
    String (byte_of_Z (Z.lor 224 (Z.shiftr r 12)))
      (String (byte_of_Z (Z.lor 128 (Z.land (Z.shiftr r 6) 63)))
         (String (byte_of_Z (Z.lor 128 (Z.land r 63))) EmptyString))
  else
    String (byte_of_Z (Z.lor 240 (Z.shiftr r 18)))
      (String (byte_of_Z (Z.lor 128 (Z.land (Z.shiftr r 12) 63)))
         (String (byte_of_Z (Z.lor 128 (Z.land (Z.shiftr r 6) 63)))
            (String (byte_of_Z (Z.lor 128 (Z.land r 63))) EmptyString))).

(** [string(runes)] *)
Fixpoint of_runes (rs : list Z) : string :=
  match rs with
  | [] => EmptyString
  | r :: tl => encode_rune r +:+ of_runes tl
  end.

(** [fmt.Sprintf("%d", n)] *)
Definition itoa (n : Z) : string :=
  match n with
  | Z0 => "0"
  | Zpos p => NilEmpty.string_of_uint (Pos.to_uint p)
  | Zneg p => String "-" (NilEmpty.string_of_uint (Pos.to_uint p))
  end.

(** A rune that [string] encodes in one byte. *)
Definition single_byte (r : Z) : Prop := 0 <= r < 128.

(** [subsequence q t]: every byte of [q] occurs, in order, in [t]. *)
Inductive subsequence : string → string → Prop :=
| subsequence_nil t : subsequence EmptyString t
| subsequence_skip q b t : subsequence q t → subsequence q (String b t)
| subsequence_take b q t : subsequence q t → subsequence (String b q) (String b t).

End GoStr.

(* ================================================================== *)
(** ** The in-place sorting loops of store.go and contacts.go *)
(* ================================================================== *)

Module Loops.

(** The two nested [for] loops used for sorting, on a slice that is
    updated in place: [for i := 0; i < len(xs)-1; i++] around
    [for j := i+1; j < len(xs); j++], swapping [xs[i]] and [xs[j]]
    whenever [before xs[j] xs[i]]. *)
Section ExchangeSort.
Context {A : Type} (before : A → A → bool).

Definition swap_if (xs : list A) (i j : nat) : list A :=
  match xs !! i, xs !! j with
  | Some a, Some b => if before b a then <[i := b]> (<[j := a]> xs) else xs
  | _, _ => xs
  end.

Definition inner_loop (xs : list A) (i : nat) : list A :=
  foldl (fun ys j => swap_if ys i j) xs (seq (S i) (length xs - S i)).

Definition exchange_sort (xs : list A) : list A :=
  foldl inner_loop xs (seq 0 (length xs - 1)).
End ExchangeSort.

(** The vocabulary of the loop invariants, for elements ranked by
    [rank], larger ranks first. *)
Section Invariants.
Context {A : Type} (rank : A → Z).

(** Positions at or after [i] were rearranged among themselves. *)
Definition rearranged_from (i : nat) (l l' : list A) : Prop :=
  length l' = length l ∧
  (∀ a, (a < i)%nat → l' !! a = l !! a) ∧
  (∀ b y, (i ≤ b)%nat → l' !! b = Some y →
          ∃ b', (i ≤ b')%nat ∧ l !! b' = Some y).

(** Position [i] dominates the positions strictly between [i] and [j]. *)
Definition dominates (i j : nat) (l : list A) : Prop :=
  ∀ k x y, (i < k < j)%nat → l !! i = Some x → l !! k = Some y →
           rank y ≤ rank x.

(** Each of the first [i] positions dominates every later position. *)
Definition settled (i : nat) (l : list A) : Prop :=
  ∀ a b x y, (a < i)%nat → (a < b)%nat →
    l !! a = Some x → l !! b = Some y → rank y ≤ rank x.
End Invariants.

End Loops.

(* ================================================================== *)
(** ** Package store (store.go) *)
(* ================================================================== *)

Module store.

(** [time.Time] values are compared by [After] only: an instant is
    its position on the time line. *)
Definition Time := Z.
Definition After (t u : Time) : bool := u <? t.

Record Conversation := {
  ID : string;
  Name : string;
  LatestMessage : string;
  LatestTimestamp : Time;
  Unread : bool;
  IsGroup : bool;
  Participants : list string;
  AvatarURL : string
}.

Record Message := {
  MsgID : string;
  ConversationID : string;
  SenderID : string;
  SenderName : string;
  Content : string;
  Timestamp : Time;
  IsFromMe : bool;
  Status : string;
  Reactions : list string;
  MediaURL : string;
  MediaType : string
}.

(** The cache part of [Store] (the session blob and the lock are not
    modelled). *)
Record Store := {
  conversations : gmap string Conversation;
  messages : gmap string (list Message)
}.

Definition New : Store := {| conversations := ∅; messages := ∅ |}.

(** [SetConversations]: a fresh map, filled in list order. *)
Definition SetConversations (s : Store) (convs : list Conversation) : Store :=
  {| conversations := foldl (fun m c => <[ID c := c]> m) ∅ convs;
     messages := messages s |}.

(** [GetConversations], given the order [iter] in which [range]
    visits the map: Go leaves that order unspecified. *)
Definition GetConversations_from (iter : list Conversation) : list Conversation :=
  Loops.exchange_sort
    (fun cj ci => After (LatestTimestamp cj) (LatestTimestamp ci)) iter.

(** The values a [range] over the map visits, in some order. *)
Definition cached (s : Store) : list Conversation :=
  (map_to_list (conversations s)).*2.

Definition GetConversation (s : Store) (id : string) : option Conversation :=
  conversations s !! id.

Definition UpdateConversation (s : Store) (conv : Conversation) : Store :=
  {| conversations := <[ID conv := conv]> (conversations s);
     messages := messages s |}.

(** [SetMessages] *)
Definition SetMessages (s : Store) (conversationID : string) (msgs : list Message)
  : Store :=
  {| conversations := conversations s;
     messages := <[conversationID := msgs]> (messages s) |}.

(** [GetMessages]; reading a missing key of a Go map gives the nil
    slice. *)
Definition GetMessages (s : Store) (conversationID : string) : list Message :=
  default [] (messages s !! conversationID).

(** The three assignments of [AddMessage] to the conversation of the
    message. *)
Definition touch (msg : Message) (conv : Conversation) : Conversation :=
  {| ID := ID conv; Name := Name conv;
     LatestMessage := Content msg;
     LatestTimestamp := Timestamp msg;
     Unread := if negb (IsFromMe msg) then true else Unread conv;
     IsGroup := IsGroup conv; Participants := Participants conv;
     AvatarURL := AvatarURL conv |}.

(** [AddMessage]: the conversation is updated only if it is cached.
    [append] may write into the spare capacity of the slice that was
    stored, which no slice handed out before can see. *)
Definition AddMessage (s : Store) (msg : Message) : Store :=
  let msgs := GetMessages s (ConversationID msg) in
  {| conversations := alter (touch msg) (ConversationID msg) (conversations s);
     messages := <[ConversationID msg := msgs ++ [msg]]> (messages s) |}.

Definition read (conv : Conversation) : Conversation :=
  {| ID := ID conv; Name := Name conv; LatestMessage := LatestMessage conv;
     LatestTimestamp := LatestTimestamp conv; Unread := false;
     IsGroup := IsGroup conv; Participants := Participants conv;
     AvatarURL := AvatarURL conv |}.

(** [MarkConversationRead] *)
Definition MarkConversationRead (s : Store) (conversationID : string) : Store :=
  {| conversations := alter read conversationID (conversations s);
     messages := messages s |}.

(** Every cached conversation is filed under its own [ID]. *)
Definition keyed (s : Store) : Prop :=
  ∀ id c, conversations s !! id = Some c → ID c = id.

End store.

(* ================================================================== *)
(** ** Keys (bubbletea's [tea.Key] and bubbles' [key.Binding]) *)
(* ================================================================== *)

Module tea.

(** Modelled from the spec: keys come from the bubbletea library, which
    is not under src/.  The spec identifies a key by the name it is
    compared with (escape, the leader key, a navigation key); a key is
    modelled as the library delivers it, by its type, its runes and its
    modifiers, and [String_] gives it the library's name.  The key
    types are those that the program and its default bindings name. *)
Inductive KeyType :=
| KeyRunes | KeyEscape | KeyEnter | KeyTab | KeyShiftTab | KeyBackspace
| KeySpace | KeyCtrlAt | KeyCtrlA | KeyCtrlC | KeyCtrlD | KeyCtrlR
| KeyCtrlU | KeyCtrlW | KeyUp | KeyDown | KeyPgUp | KeyPgDown
| KeyHome | KeyEnd.

#[global] Instance KeyType_eq_dec : EqDecision KeyType.
Proof. solve_decision. Defined.

Record Key := {
  Type_ : KeyType;
  Runes : list Z;
  Alt : bool;
  Paste : bool
}.

(** The library's table of key names. *)
Definition keyNames (t : KeyType) : string :=
  match t with
  | KeyRunes => "runes"
  | KeyEscape => "esc"
  | KeyEnter => "enter"
  | KeyTab => "tab"
  | KeyShiftTab => "shift+tab"
  | KeyBackspace => "backspace"
  | KeySpace => " "
  | KeyCtrlAt => "ctrl+@"
  | KeyCtrlA => "ctrl+a"
  | KeyCtrlC => "ctrl+c"
  | KeyCtrlD => "ctrl+d"
  | KeyCtrlR => "ctrl+r"
  | KeyCtrlU => "ctrl+u"
  | KeyCtrlW => "ctrl+w"
  | KeyUp => "up"
  | KeyDown => "down"
  | KeyPgUp => "pgup"
  | KeyPgDown => "pgdown"
  | KeyHome => "home"
  | KeyEnd => "end"
  end.

(** [Key.String()] *)
Definition String_ (k : Key) : string :=
  (if Alt k then "alt+" else "") +:+
  match Type_ k with
  | KeyRunes =>
      (if Paste k then "[" else "") +:+ GoStr.of_runes (Runes k)
      +:+ (if Paste k then "]" else "")
  | t => keyNames t
  end.

(** A plain key press of the given type, and a typed character. *)
Definition press (t : KeyType) : Key :=
  {| Type_ := t; Runes := []; Alt := false; Paste := false |}.
Definition rune (r : Z) : Key :=
  {| Type_ := KeyRunes; Runes := [r]; Alt := false; Paste := false |}.
(** The key of a printable 7-bit character. *)
Definition letter (c : ascii) : Key := rune (Z.of_N (N_of_ascii c)).

End tea.

Module key.

(** Modelled from the spec: [key.Binding] and [key.Matches] come from
    the bubbles library, which is not under src/.  An enabled binding
    is the list of its key names and matches the keys that carry one of
    these names; a binding without keys never matches. *)
Definition Binding := list string.

(** [key.Matches(msg, b)] *)
Definition Matches (k : tea.Key) (b : Binding) : bool :=
  bool_decide (tea.String_ k ∈ b).

End key.

(* ================================================================== *)
(** ** Messages and commands of the event loop *)
(* ================================================================== *)

Module client.

Inductive EventType :=
| EventTypeUnknown | EventTypeConnected | EventTypeDisconnected
| EventTypeNewMessage | EventTypeMessageUpdated
| EventTypeConversationsUpdated | EventTypeTypingIndicator
| EventTypeReadReceipt | EventTypeError.

(** An [error] is modelled by its message, [nil] by [None]. *)
Record Event := {
  Type_ : EventType;
  Message : option store.Message;
  Error : option string
}.

End client.

(* ================================================================== *)
(** ** The pairing handler (auth.go) *)
(* ================================================================== *)

Module auth.

(** The events of libgm that [handlePairingEvent] tells apart.  What
    the libraries answer while an event is handled is part of the
    event: [ascii] is the QR code that [qrcode.New] and
    [ToSmallString] make of the URL, [None] if [qrcode.New] fails;
    [saved] tells whether [SaveSession] succeeded. *)
Inductive Event :=
| QR (url : string) (ascii : option string)
| PairSuccessful (saved : bool)
| ClientReady
| ListenRecovered
| ListenFatalError
| ListenTemporaryError
| Unknown.

#[global] Instance Event_eq_dec : EqDecision Event.
Proof. solve_decision. Defined.

(** What the handler does to its channels: a value sent on [qrChan],
    an error sent on [errChan] (its message up to the colon), [done]
    closed.  A send that blocks is not modelled. *)
Inductive Effect :=
| SendQR (ascii url : string)
| SendErr (what : string)
| CloseDone.

(** The three flags of [AuthHandler]. *)
Record AuthHandler := {
  pairSuccessful : bool;
  clientReady : bool;
  doneClosed : bool
}.

(** [NewAuthHandler] *)
Definition NewAuthHandler : AuthHandler :=
  {| pairSuccessful := false; clientReady := false; doneClosed := false |}.

(** [checkAndSignalDone] *)
Definition checkAndSignalDone (a : AuthHandler) : AuthHandler * list Effect :=
  if pairSuccessful a && clientReady a && negb (doneClosed a) then
    ({| pairSuccessful := pairSuccessful a; clientReady := clientReady a;
        doneClosed := true |}, [CloseDone])
  else (a, []).

(** [handlePairingEvent] *)
Definition handlePairingEvent (a : AuthHandler) (evt : Event)
  : AuthHandler * list Effect :=
  match evt with
  | QR url None => (a, [SendErr "failed to generate QR code"])
  | QR url (Some ascii) => (a, [SendQR ascii url])
  | PairSuccessful false => (a, [SendErr "failed to save session"])
  | PairSuccessful true =>
      checkAndSignalDone
        {| pairSuccessful := true; clientReady := clientReady a;
           doneClosed := doneClosed a |}
  | ClientReady | ListenRecovered =>
      checkAndSignalDone
        {| pairSuccessful := pairSuccessful a; clientReady := true;
           doneClosed := doneClosed a |}
  | ListenFatalError => (a, [SendErr "fatal error during pairing"])
  | ListenTemporaryError | Unknown => (a, [])
  end.

(** The handler called on one event after the other (the mutex makes
    the updates of the flags take turns), with everything it did to
    its channels. *)
Definition handle_all (a : AuthHandler) (evts : list Event)
  : AuthHandler * list Effect :=
  foldl (fun st evt =>
           let '(a, out) := handlePairingEvent st.1 evt in (a, st.2 ++ out))
        (a, []) evts.

End auth.

(** [tea.Msg]: the messages that reach [App.Update]. *)
Inductive Msg :=
| KeyMsg (k : tea.Key)
| WindowSizeMsg (Width Height : Z)
| ClientEvent (e : client.Event)
| SendMessageMsg (Content : string)
| OpenEditorMsg (InitialContent : string)
| AttachFileMsg
| EditorResultMsg (Content : string) (Err : option string)
| EditorCancelledMsg
| conversationsLoadedMsg (conversations : list store.Conversation)
| messagesLoadedMsg (conversationID : string) (messages : list store.Message)
| messageSentMsg
| qrCodeMsg (url : string)
| connectedMsg
| errorMsg (err : string)
| MessageSentNotifyMsg
| MessageFailedNotifyMsg
| OtherMsg (tag : nat).

(** [tea.Cmd]: what a command does when the runtime executes it off the
    loop.  [nil] is the empty list of commands, [tea.Batch] is the
    concatenation. *)
Inductive Cmd :=
| CmdMsg (m : Msg)
| CmdQuit
| CmdListenForEvents
| CmdListenForExternalMsgs
| CmdLoadConversations
| CmdLoadMessages (conversationID : string)
| CmdSendMessage (convID content : string)
| CmdStartEditor (initialContent : string)
| CmdWidget (tag : nat).

(** The functions of Go's standard library that are used but not
    spelled out: any implementation will do for the theorems. *)
Class GoLib := {
  TrimSpace : string → string;
  ToLower : string → string;
  runes_of_string : string → list Z
}.

(* ================================================================== *)
(** ** The single-line text widget (bubbles' [textinput.Model]) *)
(* ================================================================== *)

Module textinput.

(** Modelled from the spec: the widget type [textinput.Model] comes from
    the bubbles library, which is not under src/.  The spec's data
    model gives the editor buffer a text and a cursor offset with
    0 ≤ offset ≤ length, and its edge policy is that index arithmetic
    clamps to the buffer bounds; the operations below are the ones
    input.go calls, with the behaviour the library documents for them.
    The widget keeps its text as runes and its cursor as a rune
    offset; only the fields that the editor reads or writes are kept. *)
Record Model := {
  value : list Z;
  pos : Z;
  focus : bool;
  CharLimit : Z
}.

(** The two parts of the widget that stay abstract: the sanitizer
    applied to text handed to [SetValue], and the widget's own
    handling of a message (typing, pasting, cursor blinking), which
    returns the new widget and the tags of the widget's own commands
    ([CmdWidget]). *)
Class Widget := {
  Sanitize : list Z → list Z;
  Update : Model → Msg → Model * list nat
}.

Definition New : Model :=
  {| value := []; pos := 0; focus := false; CharLimit := 0 |}.

Definition runes_len (m : Model) : Z := Z.of_nat (length (value m)).

Definition clamp (v low high : Z) : Z :=
  let '(low, high) := if high <? low then (high, low) else (low, high) in
  Z.min high (Z.max low v).

(** [Value()] *)
Definition Value (m : Model) : string := GoStr.of_runes (value m).

(** [Position()] *)
Definition Position (m : Model) : Z := pos m.

(** [SetCursor(pos)]: a position out of bounds is moved to the start
    or to the end. *)
Definition SetCursor (p : Z) (m : Model) : Model :=
  {| value := value m; pos := clamp p 0 (runes_len m);
     focus := focus m; CharLimit := CharLimit m |}.

(** [SetValue(s)]: the sanitized text, cut at the character limit; the
    cursor goes to the end when the widget was empty or when it would
    lie behind the text. *)
Definition SetValue `{GoLib} `{Widget} (s : string) (m : Model) : Model :=
  let runes := Sanitize (runes_of_string s) in
  let empty := bool_decide (value m = []) in
  let v :=
    if (0 <? CharLimit m) && (CharLimit m <? Z.of_nat (length runes))
    then take (Z.to_nat (CharLimit m)) runes else runes in
  let m' := {| value := v; pos := pos m; focus := focus m;
               CharLimit := CharLimit m |} in
  if ((pos m =? 0) && empty) || (runes_len m' <? pos m)
  then SetCursor (runes_len m') m' else m'.

(** [Reset()]: no text, cursor at 0. *)
Definition Reset (m : Model) : Model :=
  SetCursor 0 {| value := []; pos := pos m; focus := focus m;
                 CharLimit := CharLimit m |}.

Definition Focus (m : Model) : Model :=
  {| value := value m; pos := pos m; focus := true; CharLimit := CharLimit m |}.

Definition Blur (m : Model) : Model :=
  {| value := value m; pos := pos m; focus := false; CharLimit := CharLimit m |}.

Definition with_CharLimit (n : Z) (m : Model) : Model :=
  {| value := value m; pos := pos m; focus := focus m; CharLimit := n |}.

End textinput.

(* ================================================================== *)
(** ** The modal editor (input.go) *)
(* ================================================================== *)

Module Input.
Import textinput.

Inductive InputMode := ModeInsert | ModeNormal.
Inductive PendingAction :=
| PendingNone | PendingFindForward | PendingFindBackward
| PendingChange | PendingDelete.

#[global] Instance InputMode_eq_dec : EqDecision InputMode.
Proof. solve_decision. Defined.
#[global] Instance PendingAction_eq_dec : EqDecision PendingAction.
Proof. solve_decision. Defined.

Record InputModel := {
  textInput : textinput.Model;
  draftContent : string;
  width : Z;
  focused : bool;
  sending : bool;
  mode : InputMode;
  pendingAction : PendingAction;
  lastFindChar : ascii;
  lastFindDir : Z
}.

(** Field assignments. *)
Definition set_textInput (f : textinput.Model → textinput.Model) (m : InputModel) :=
  {| textInput := f (textInput m); draftContent := draftContent m;
     width := width m; focused := focused m; sending := sending m;
     mode := mode m; pendingAction := pendingAction m;
     lastFindChar := lastFindChar m; lastFindDir := lastFindDir m |}.
Definition set_draftContent (d : string) (m : InputModel) :=
  {| textInput := textInput m; draftContent := d;
     width := width m; focused := focused m; sending := sending m;
     mode := mode m; pendingAction := pendingAction m;
     lastFindChar := lastFindChar m; lastFindDir := lastFindDir m |}.
Definition set_width (w : Z) (m : InputModel) :=
  {| textInput := textInput m; draftContent := draftContent m;
     width := w; focused := focused m; sending := sending m;
     mode := mode m; pendingAction := pendingAction m;
     lastFindChar := lastFindChar m; lastFindDir := lastFindDir m |}.
Definition set_focused (b : bool) (m : InputModel) :=
  {| textInput := textInput m; draftContent := draftContent m;
     width := width m; focused := b; sending := sending m;
     mode := mode m; pendingAction := pendingAction m;
     lastFindChar := lastFindChar m; lastFindDir := lastFindDir m |}.
Definition set_sending (b : bool) (m : InputModel) :=
  {| textInput := textInput m; draftContent := draftContent m;
     width := width m; focused := focused m; sending := b;
     mode := mode m; pendingAction := pendingAction m;
     lastFindChar := lastFindChar m; lastFindDir := lastFindDir m |}.
Definition set_mode (x : InputMode) (m : InputModel) :=
  {| textInput := textInput m; draftContent := draftContent m;
     width := width m; focused := focused m; sending := sending m;
     mode := x; pendingAction := pendingAction m;
     lastFindChar := lastFindChar m; lastFindDir := lastFindDir m |}.
Definition set_pendingAction (x : PendingAction) (m : InputModel) :=
  {| textInput := textInput m; draftContent := draftContent m;
     width := width m; focused := focused m; sending := sending m;
     mode := mode m; pendingAction := x;
     lastFindChar := lastFindChar m; lastFindDir := lastFindDir m |}.
Definition set_lastFind (c : ascii) (dir : Z) (m : InputModel) :=
  {| textInput := textInput m; draftContent := draftContent m;
     width := width m; focused := focused m; sending := sending m;
     mode := mode m; pendingAction := pendingAction m;
     lastFindChar := c; lastFindDir := dir |}.

(** [NewInputModel] *)
Definition NewInputModel : InputModel :=
  {| textInput := with_CharLimit 5000 textinput.New;
     draftContent := ""; width := 0; focused := false; sending := false;
     mode := ModeInsert; pendingAction := PendingNone;
     lastFindChar := Ascii.zero; lastFindDir := 0 |}.

Definition is_space (b : ascii) : bool := Ascii.eqb b " ".
Definition not_space (b : ascii) : bool := negb (is_space b).

(** [for pos < len(val) && p(val[pos]) { pos++ }]: the loop walks
    over the bytes of [val[pos:]]. *)
Fixpoint scan_fwd (p : ascii → bool) (rest : string) (pos : Z) : Z :=
  match rest with
  | EmptyString => pos
  | String b tl => if p b then scan_fwd p tl (pos + 1) else pos
  end.
Definition skip_fwd (p : ascii → bool) (val : string) (pos : Z) : Z :=
  scan_fwd p (GoStr.slice_from val pos) pos.

(** [for pos > 0 && p(val[pos-1]) { pos-- }].  The read is in range
    because the cursor never exceeds the number of runes, hence of
    bytes; an out-of-range read, a panic in Go, ends the walk. *)
Fixpoint scan_bwd (p : ascii → bool) (val : string) (n : nat) : nat :=
  match n with
  | O => O
  | S i =>
      match String.get i val with
      | Some b => if p b then scan_bwd p val i else n
      | None => n
      end
  end.
Definition skip_bwd (p : ascii → bool) (val : string) (pos : Z) : Z :=
  if pos <=? 0 then pos else Z.of_nat (scan_bwd p val (Z.to_nat pos)).

(** [for i := start; i < len(val); i++ { if val[i] == c { ...; break } }]:
    the index of the first [c] at or after [start]. *)
Fixpoint index_from (c : ascii) (rest : string) (i : Z) : option Z :=
  match rest with
  | EmptyString => None
  | String b tl => if Ascii.eqb b c then Some i else index_from c tl (i + 1)
  end.
Definition find_forward (val : string) (c : ascii) (pos : Z) : option Z :=
  index_from c (GoStr.slice_from val (pos + 1)) (pos + 1).

(** [for i := pos - 1; i >= 0; i-- { if val[i] == c { ...; break } }]:
    the index of the last [c] before [pos]. *)
Fixpoint rindex_below (c : ascii) (val : string) (n : nat) : option Z :=
  match n with
  | O => None
  | S i =>
      match String.get i val with
      | Some b => if Ascii.eqb b c then Some (Z.of_nat i) else rindex_below c val i
      | None => None
      end
  end.
Definition find_backward (val : string) (c : ascii) (pos : Z) : option Z :=
  rindex_below c val (Z.to_nat pos).

(** The body shared by the two find loops: move the cursor to the
    match, if there is one. *)
Definition cursor_to (found : option Z) (m : InputModel) : InputModel :=
  match found with
  | Some i => set_textInput (SetCursor i) m
  | None => m
  end.

Definition moveToNextWord (m : InputModel) : InputModel :=
  let val := Value (textInput m) in
  let pos := Position (textInput m) in
  let pos := skip_fwd not_space val pos in
  let pos := skip_fwd is_space val pos in
  set_textInput (SetCursor pos) m.

Definition moveToPrevWord (m : InputModel) : InputModel :=
  let val := Value (textInput m) in
  let pos := Position (textInput m) in
  let pos := skip_bwd is_space val pos in
  let pos := skip_bwd not_space val pos in
  set_textInput (SetCursor pos) m.

Definition moveToEndOfWord (m : InputModel) : InputModel :=
  let val := Value (textInput m) in
  let pos := Position (textInput m) in
  let pos := if pos <? GoStr.len val then pos + 1 else pos in
  let pos := skip_fwd is_space val pos in
  let pos := skip_fwd not_space val pos in
  let pos :=
    if (0 <? pos) &&
       ((GoStr.len val <=? pos) ||
        match GoStr.byte_at val pos with
        | Some b => is_space b
        | None => false
        end)
    then pos - 1 else pos in
  set_textInput (SetCursor pos) m.

Definition repeatFind (dir : Z) (m : InputModel) : InputModel :=
  let val := Value (textInput m) in
  let pos := Position (textInput m) in
  if 0 <? dir then cursor_to (find_forward val (lastFindChar m) pos) m
  else cursor_to (find_backward val (lastFindChar m) pos) m.

Section Edits.
Context `{GoLib} `{Widget}.

Definition deleteCharAtCursor (m : InputModel) : InputModel :=
  let val := Value (textInput m) in
  let pos := Position (textInput m) in
  if pos <? GoStr.len val then
    let newVal := GoStr.slice_to val pos +:+ GoStr.slice_from val (pos + 1) in
    set_textInput (SetCursor pos) (set_textInput (SetValue newVal) m)
  else m.

Definition deleteToEndOfLine (m : InputModel) : InputModel :=
  let val := Value (textInput m) in
  let pos := Position (textInput m) in
  if pos <? GoStr.len val then
    set_textInput (SetCursor pos)
      (set_textInput (SetValue (GoStr.slice_to val pos)) m)
  else m.

Definition deleteToBeginningOfLine (m : InputModel) : InputModel :=
  let val := Value (textInput m) in
  let pos := Position (textInput m) in
  if 0 <? pos then
    set_textInput (SetCursor 0)
      (set_textInput (SetValue (GoStr.slice_from val pos)) m)
  else m.

Definition deleteToEndOfWord (m : InputModel) : InputModel :=
  let val := Value (textInput m) in
  let pos := Position (textInput m) in
  let endPos := pos in
  let endPos := skip_fwd not_space val endPos in
  let endPos := skip_fwd is_space val endPos in
  if pos <? endPos then
    let newVal := GoStr.slice_to val pos +:+ GoStr.slice_from val endPos in
    set_textInput (SetCursor pos) (set_textInput (SetValue newVal) m)
  else m.
End Edits.

Local Infix "==" := String.eqb (at level 70, no associativity).

Section Handlers.
Context `{GoLib} `{Widget}.

(** The statements under [case tea.KeyEnter] of [handleInsertMode]
    and under [case "enter"] of [handleNormalMode], which are the
    same. *)
Definition sendOnEnter (m : InputModel) : InputModel * list Cmd :=
  let content := TrimSpace (draftContent m) in
  let content :=
    if content == "" then TrimSpace (Value (textInput m)) else content in
  if negb (content == "") then
    let m := set_textInput Reset m in
    let m := set_draftContent "" m in
    let m := set_sending true m in
    (m, [CmdMsg (SendMessageMsg content)])
  else (m, []).

(** [handleInsertMode] *)
Definition handleInsertMode (m : InputModel) (k : tea.Key)
  : InputModel * list Cmd :=
  match tea.Type_ k with
  | tea.KeyEscape =>
      let m := set_mode ModeNormal m in
      (set_textInput Blur m, [])
  | tea.KeyEnter => sendOnEnter m
  | tea.KeyCtrlA => (m, [CmdMsg AttachFileMsg])
  | _ =>
      let '(ti, cmd) := textinput.Update (textInput m) (KeyMsg k) in
      (set_textInput (fun _ => ti) m, map CmdWidget cmd)
  end.

(** [handlePendingAction] *)
Definition handlePendingAction (m : InputModel) (k : tea.Key)
  : InputModel * list Cmd :=
  let char := tea.String_ k in
  if char == "esc" then (set_pendingAction PendingNone m, [])
  else
    let val := Value (textInput m) in
    let pos := Position (textInput m) in
    match pendingAction m with
    | PendingFindForward =>
        match char with
        | String targetChar EmptyString =>
            let m := set_lastFind targetChar 1 m in
            let m := cursor_to (find_forward val targetChar pos) m in
            (set_pendingAction PendingNone m, [])
        | _ => (set_pendingAction PendingNone m, [])
        end
    | PendingFindBackward =>
        match char with
        | String targetChar EmptyString =>
            let m := set_lastFind targetChar (-1) m in
            let m := cursor_to (find_backward val targetChar pos) m in
            (set_pendingAction PendingNone m, [])
        | _ => (set_pendingAction PendingNone m, [])
        end
    | PendingChange =>
        let m := set_pendingAction PendingNone m in
        if (char == "w") || (char == "e") then
          let m := deleteToEndOfWord m in
          let m := set_mode ModeInsert m in
          (set_textInput Focus m, [])
        else if char == "$" then
          let m := deleteToEndOfLine m in
          let m := set_mode ModeInsert m in
          (set_textInput Focus m, [])
        else if char == "c" then
          let m := set_textInput Reset m in
          let m := set_draftContent "" m in
          let m := set_mode ModeInsert m in
          (set_textInput Focus m, [])
        else if char == "0" then
          let m := deleteToBeginningOfLine m in
          let m := set_mode ModeInsert m in
          (set_textInput Focus m, [])
        else (m, [])
    | PendingDelete =>
        let m := set_pendingAction PendingNone m in
        if (char == "w") || (char == "e") then (deleteToEndOfWord m, [])
        else if char == "$" then (deleteToEndOfLine m, [])
        else if char == "d" then
          let m := set_textInput Reset m in
          (set_draftContent "" m, [])
        else if char == "0" then (deleteToBeginningOfLine m, [])
        else (m, [])
    | PendingNone => (set_pendingAction PendingNone m, [])
    end.

(** [handleNormalMode] *)
Definition handleNormalMode (m : InputModel) (k : tea.Key)
  : InputModel * list Cmd :=
  if negb (bool_decide (pendingAction m = PendingNone)) then
    handlePendingAction m k
  else
    let s := tea.String_ k in
    if s == "i" then
      let m := set_mode ModeInsert m in
      (set_textInput Focus m, [])
    else if s == "a" then
      let m := set_mode ModeInsert m in
      let m := set_textInput Focus m in
      let pos := Position (textInput m) in
      (set_textInput (SetCursor (pos + 1)) m, [])
    else if s == "A" then
      let m := set_mode ModeInsert m in
      let m := set_textInput Focus m in
      (set_textInput (SetCursor (GoStr.len (Value (textInput m)))) m, [])
    else if s == "I" then
      let m := set_mode ModeInsert m in
      let m := set_textInput Focus m in
      (set_textInput (SetCursor 0) m, [])
    else if s == "v" then
      let currentContent := draftContent m in
      let currentContent :=
        if currentContent == "" then Value (textInput m) else currentContent in
      (m, [CmdMsg (OpenEditorMsg currentContent)])
    else if s == "d" then (set_pendingAction PendingDelete m, [])
    else if s == "D" then (deleteToEndOfLine m, [])
    else if s == "c" then (set_pendingAction PendingChange m, [])
    else if s == "C" then
      let m := deleteToEndOfLine m in
      let m := set_mode ModeInsert m in
      (set_textInput Focus m, [])
    else if s == "f" then (set_pendingAction PendingFindForward m, [])
    else if s == "F" then (set_pendingAction PendingFindBackward m, [])
    else if s == ";" then
      if negb (Ascii.eqb (lastFindChar m) Ascii.zero)
      then (repeatFind (lastFindDir m) m, []) else (m, [])
    else if s == "," then
      if negb (Ascii.eqb (lastFindChar m) Ascii.zero)
      then (repeatFind (- lastFindDir m) m, []) else (m, [])
    else if s == "0" then (set_textInput (SetCursor 0) m, [])
    else if s == "$" then
      (set_textInput (SetCursor (GoStr.len (Value (textInput m)))) m, [])
    else if s == "h" then
      let pos := Position (textInput m) in
      if 0 <? pos then (set_textInput (SetCursor (pos - 1)) m, [])
      else (m, [])
    else if s == "l" then
      let pos := Position (textInput m) in
      if pos <? GoStr.len (Value (textInput m))
      then (set_textInput (SetCursor (pos + 1)) m, [])
      else (m, [])
    else if s == "w" then (moveToNextWord m, [])
    else if s == "b" then (moveToPrevWord m, [])
    else if s == "e" then (moveToEndOfWord m, [])
    else if s == "x" then (deleteCharAtCursor m, [])
    else if s == "enter" then sendOnEnter m
    else if s == "esc" then (set_pendingAction PendingNone m, [])
    else (m, []).

(** [InputModel.Update] *)
Definition Update (m : InputModel) (msg : Msg) : InputModel * list Cmd :=
  let widget (m : InputModel) :=
    if focused m && bool_decide (mode m = ModeInsert) then
      let '(ti, cmd) := textinput.Update (textInput m) msg in
      (set_textInput (fun _ => ti) m, map CmdWidget cmd)
    else (m, []) in
  match msg with
  | MessageSentNotifyMsg => (set_sending false m, [])
  | MessageFailedNotifyMsg => (set_sending false m, [])
  | KeyMsg k =>
      if focused m then
        if bool_decide (mode m = ModeNormal) then handleNormalMode m k
        else handleInsertMode m k
      else widget m
  | _ => widget m
  end.

(** [SetValue]: the draft is kept whole, the widget shows a
    one-line preview of it. *)
Definition SetValue (v : string) (m : InputModel) : InputModel :=
  let m := set_draftContent v m in
  if GoStr.Contains v (String "010" EmptyString) then
    let lines := GoStr.Split v "010" in
    let lineCount := Z.of_nat (length lines) in
    let preview := default "" (head lines) in
    let preview :=
      if 30 <? GoStr.len preview
      then GoStr.slice_to preview 30 +:+ "..." else preview in
    set_textInput
      (textinput.SetValue
         (preview +:+ " [+" +:+ GoStr.itoa (lineCount - 1) +:+ " lines]")) m
  else set_textInput (textinput.SetValue v) m.
End Handlers.

(** The editor after a sequence of key presses. *)
Definition type_keys `{GoLib} `{Widget} (m : InputModel) (ks : list tea.Key)
  : InputModel :=
  foldl (fun m k => (Update m (KeyMsg k)).1) m ks.

(** [SetWidth], [SetFocused], [Reset], [Value], [Mode] *)
Definition SetWidth (w : Z) (m : InputModel) : InputModel := set_width w m.

Definition SetFocused (b : bool) (m : InputModel) : InputModel :=
  let m := set_focused b m in
  if b then set_textInput Focus (set_mode ModeInsert m)
  else set_textInput Blur m.

Definition Reset (m : InputModel) : InputModel :=
  set_draftContent "" (set_textInput textinput.Reset m).

Definition Value (m : InputModel) : string := textinput.Value (textInput m).
Definition Mode (m : InputModel) : InputMode := mode m.

(** The Normal-mode motions and the keys that spell them; [f] and [F]
    take the next key, whatever it is, as their argument. *)
Inductive Motion :=
| Move_h | Move_l | Move_w | Move_b | Move_e | Move_0 | Move_dollar
| Find_f (arg : tea.Key) | Find_F (arg : tea.Key)
| Repeat_semicolon | Repeat_comma.

Definition keys_of (mo : Motion) : list tea.Key :=
  match mo with
  | Move_h => [tea.letter "h"]
  | Move_l => [tea.letter "l"]
  | Move_w => [tea.letter "w"]
  | Move_b => [tea.letter "b"]
  | Move_e => [tea.letter "e"]
  | Move_0 => [tea.letter "0"]
  | Move_dollar => [tea.letter "$"]
  | Find_f arg => [tea.letter "f"; arg]
  | Find_F arg => [tea.letter "F"; arg]
  | Repeat_semicolon => [tea.letter ";"]
  | Repeat_comma => [tea.letter ","]
  end.

(** The two motions that take an argument and remember it. *)
Definition is_find (mo : Motion) : bool :=
  match mo with
  | Find_f _ | Find_F _ => true
  | _ => false
  end.

(** The cursor offset lies within the buffer. *)
Definition cursor_ok (m : InputModel) : Prop :=
  0 ≤ Position (textInput m) ≤ runes_len (textInput m).

(** [m'] is [m] with the cursor possibly set elsewhere and the find
    memory possibly overwritten, and nothing else changed. *)
Definition moved (m m' : InputModel) : Prop :=
  ∃ c d, m' = set_lastFind c d m ∨
         ∃ p, m' = set_lastFind c d (set_textInput (SetCursor p) m).

(** [i] is the offset of the first [c] after [pos]; there is none. *)
Definition next_occurrence (val : string) (c : ascii) (pos i : Z) : Prop :=
  pos < i ∧ GoStr.byte_at val i = Some c ∧
  ∀ j, pos < j < i → GoStr.byte_at val j ≠ Some c.
Definition no_occurrence_after (val : string) (c : ascii) (pos : Z) : Prop :=
  ∀ j, pos < j → GoStr.byte_at val j ≠ Some c.

(** [i] is the offset of the last [c] before [pos]; there is none. *)
Definition prev_occurrence (val : string) (c : ascii) (pos i : Z) : Prop :=
  0 ≤ i < pos ∧ GoStr.byte_at val i = Some c ∧
  ∀ j, i < j < pos → GoStr.byte_at val j ≠ Some c.
Definition no_occurrence_before (val : string) (c : ascii) (pos : Z) : Prop :=
  ∀ j, 0 ≤ j < pos → GoStr.byte_at val j ≠ Some c.

(** What [Enter] submits, and the editor it leaves behind. *)
Definition submission `{GoLib} (m : InputModel) : string :=
  if String.eqb (TrimSpace (draftContent m)) ""
  then TrimSpace (Value m) else TrimSpace (draftContent m).
Definition submitted (m : InputModel) : InputModel :=
  set_sending true (set_draftContent "" (set_textInput textinput.Reset m)).

End Input.

(* ================================================================== *)
(** ** The conversation list (contacts.go) *)
(* ================================================================== *)

Module Contacts.

Local Infix "==" := String.eqb (at level 70, no associativity).

Record ContactsModel := {
  conversations : list store.Conversation;
  selected : Z;
  offset : Z;
  width : Z;
  height : Z;
  focused : bool;
  searchMode : bool;
  searchQuery : string;
  lastKeyWasG : bool
}.

(** [DefaultContactsKeyMap] *)
Definition keyMap_Up : key.Binding := ["up"; "k"].
Definition keyMap_Down : key.Binding := ["down"; "j"].
Definition keyMap_Top : key.Binding := ["g"].
Definition keyMap_Bottom : key.Binding := ["G"].
Definition keyMap_Select : key.Binding := ["enter"].
Definition keyMap_Search : key.Binding := ["/"].

Definition NewContactsModel : ContactsModel :=
  {| conversations := []; selected := 0; offset := 0; width := 0;
     height := 0; focused := false; searchMode := false;
     searchQuery := ""; lastKeyWasG := false |}.

Definition set_selection (sel off : Z) (m : ContactsModel) :=
  {| conversations := conversations m; selected := sel; offset := off;
     width := width m; height := height m; focused := focused m;
     searchMode := searchMode m; searchQuery := searchQuery m;
     lastKeyWasG := lastKeyWasG m |}.
Definition set_search (on : bool) (q : string) (m : ContactsModel) :=
  {| conversations := conversations m; selected := selected m;
     offset := offset m; width := width m; height := height m;
     focused := focused m; searchMode := on; searchQuery := q;
     lastKeyWasG := lastKeyWasG m |}.
Definition set_lastKeyWasG (b : bool) (m : ContactsModel) :=
  {| conversations := conversations m; selected := selected m;
     offset := offset m; width := width m; height := height m;
     focused := focused m; searchMode := searchMode m;
     searchQuery := searchQuery m; lastKeyWasG := b |}.
Definition set_conversations (cs : list store.Conversation) (m : ContactsModel) :=
  {| conversations := cs; selected := selected m;
     offset := offset m; width := width m; height := height m;
     focused := focused m; searchMode := searchMode m;
     searchQuery := searchQuery m; lastKeyWasG := lastKeyWasG m |}.

(** [SetSize], [SetFocused] *)
Definition SetSize (w h : Z) (m : ContactsModel) :=
  {| conversations := conversations m; selected := selected m;
     offset := offset m; width := w; height := h;
     focused := focused m; searchMode := searchMode m;
     searchQuery := searchQuery m; lastKeyWasG := lastKeyWasG m |}.
Definition SetFocused (b : bool) (m : ContactsModel) :=
  {| conversations := conversations m; selected := selected m;
     offset := offset m; width := width m; height := height m;
     focused := b; searchMode := searchMode m;
     searchQuery := searchQuery m; lastKeyWasG := lastKeyWasG m |}.

(** [visibleItemCount]; Go's [/] truncates. *)
Definition visibleItemCount (m : ContactsModel) : Z := Z.quot (height m - 3) 2.

(** [SetConversations] *)
Definition SetConversations (convs : list store.Conversation) (m : ContactsModel) :=
  let m := set_conversations convs m in
  let n := Z.of_nat (length convs) in
  if n <=? selected m then set_selection (Z.max 0 (n - 1)) (offset m) m else m.

(** [deleteWordBackward] *)
Definition deleteWordBackward (s : string) : string :=
  if s == "" then ""
  else
    let end_ := GoStr.len s in
    let end_ := Input.skip_bwd Input.is_space s end_ in
    let start := end_ in
    let start := Input.skip_bwd Input.not_space s start in
    GoStr.slice_to s start.

(** [handleSearchInput] *)
Definition handleSearchInput (m : ContactsModel) (k : tea.Key) : ContactsModel :=
  match tea.Type_ k with
  | tea.KeyEscape => set_selection 0 0 (set_search false "" m)
  | tea.KeyEnter => set_search false (searchQuery m) m
  | tea.KeyBackspace =>
      if 0 <? GoStr.len (searchQuery m) then
        let q := GoStr.slice_to (searchQuery m) (GoStr.len (searchQuery m) - 1) in
        set_selection 0 0 (set_search (searchMode m) q m)
      else m
  | tea.KeyCtrlU => set_selection 0 0 (set_search (searchMode m) "" m)
  | tea.KeyCtrlW =>
      set_selection 0 0
        (set_search (searchMode m) (deleteWordBackward (searchQuery m)) m)
  | tea.KeyRunes =>
      set_selection 0 0
        (set_search (searchMode m)
           (searchQuery m +:+ GoStr.of_runes (tea.Runes k)) m)
  | _ => m
  end.

(** The state of the matching loop of [fuzzyMatch]. *)
Record fuzzy := {
  score : Z;
  lastMatchIdx : Z;
  consecutive : Z
}.

Definition is_boundary (b : ascii) : bool :=
  Ascii.eqb b " " || Ascii.eqb b "-" || Ascii.eqb b "_".

(** One matching byte [target[i] == query[queryIdx]]. *)
Definition on_match (target : string) (i : Z) (st : fuzzy) : fuzzy :=
  let sc := score st + 10 in
  let '(run, sc) :=
    if lastMatchIdx st =? i - 1
    then (consecutive st + 1, sc + (consecutive st + 1) * 5)
    else (0, sc) in
  let sc :=
    if (i =? 0) ||
       match GoStr.byte_at target (i - 1) with
       | Some b => is_boundary b
       | None => false
       end
    then sc + 20 else sc in
  {| score := sc; lastMatchIdx := i; consecutive := run |}.

(** [for i := 0; i < len(target) && queryIdx < len(query); i++]: the
    loop walks over the bytes [rest] of [target[i:]]; [query] is
    [query[queryIdx:]].  It returns the final state and what is left
    of the query. *)
Fixpoint match_loop (target rest : string) (i : Z) (query : string) (st : fuzzy)
  : fuzzy * string :=
  match rest, query with
  | String t rest', String q query' =>
      if Ascii.eqb t q
      then match_loop target rest' (i + 1) query' (on_match target i st)
      else match_loop target rest' (i + 1) query st
  | _, _ => (st, query)
  end.

(** [fuzzyMatch] *)
Definition fuzzyMatch (query target : string) : Z :=
  if query == "" then 1
  else if target == "" then 0
  else if GoStr.Contains target query then
    if GoStr.HasPrefix target query then 1000 + GoStr.len query
    else 500 + GoStr.len query
  else
    let '(st, unmatched) :=
      match_loop target target 0 query
        {| score := 0; lastMatchIdx := -1; consecutive := 0 |} in
    if negb (unmatched == "") then 0 else score st.

Section Filter.
Context `{GoLib}.

(** The scoring loop of [getFilteredConversations]. *)
Definition scored (query : string) (convs : list store.Conversation)
  : list (store.Conversation * Z) :=
  omap (fun conv =>
          let name := ToLower (store.Name conv) in
          let sc := fuzzyMatch query name in
          if 0 <? sc then Some (conv, sc) else None) convs.

(** [getFilteredConversations] *)
Definition getFilteredConversations (m : ContactsModel) : list store.Conversation :=
  if searchQuery m == "" then conversations m
  else
    let query := ToLower (searchQuery m) in
    let results := scored query (conversations m) in
    let results := Loops.exchange_sort (fun rj ri => ri.2 <? rj.2) results in
    results.*1.

(** [SelectedConversation] *)
Definition SelectedConversation (m : ContactsModel) : option store.Conversation :=
  let convs := getFilteredConversations m in
  if (0 <=? selected m) && (selected m <? Z.of_nat (length convs))
  then convs !! Z.to_nat (selected m) else None.
End Filter.

(** The selection lies in the list (or is 0 when the list is empty) and
    inside the window of [visibleItemCount] rows that starts at
    [offset]. *)
Definition selection_ok (m : ContactsModel) : Prop :=
  0 ≤ offset m ≤ selected m ∧ selected m < offset m + visibleItemCount m ∧
  (selected m < Z.of_nat (length (conversations m)) ∨ selected m = 0).

(** [ContactsModel.Update] *)
Definition Update (m : ContactsModel) (msg : Msg) : ContactsModel :=
  if negb (focused m) then m
  else
    match msg with
    | KeyMsg k =>
        if searchMode m then handleSearchInput m k
        else if tea.String_ k == "g" then
          if lastKeyWasG m then set_lastKeyWasG false (set_selection 0 0 m)
          else set_lastKeyWasG true m
        else
          let m := set_lastKeyWasG false m in
          if key.Matches k keyMap_Up then
            if 0 <? selected m then
              let sel := selected m - 1 in
              set_selection sel (if sel <? offset m then sel else offset m) m
            else m
          else if key.Matches k keyMap_Down then
            if selected m <? Z.of_nat (length (conversations m)) - 1 then
              let sel := selected m + 1 in
              let visibleItems := visibleItemCount m in
              set_selection sel
                (if offset m + visibleItems <=? sel
                 then sel - visibleItems + 1 else offset m) m
            else m
          else if key.Matches k keyMap_Bottom then
            if 0 <? Z.of_nat (length (conversations m)) then
              let sel := Z.of_nat (length (conversations m)) - 1 in
              let visibleItems := visibleItemCount m in
              set_selection sel
                (if visibleItems <=? sel
                 then sel - visibleItems + 1 else offset m) m
            else m
          else if key.Matches k keyMap_Search then set_search true "" m
          else m
    | _ => m
    end.

End Contacts.

(* ================================================================== *)
(** ** The message list (messages.go) *)
(* ================================================================== *)

Module Messages.

Local Infix "==" := String.eqb (at level 70, no associativity).

Record MessagesModel := {
  messages : list store.Message;
  conversationID : string;
  selected : Z;
  offset : Z;
  width : Z;
  height : Z;
  focused : bool;
  lastKeyWasG : bool
}.

(** [DefaultMessagesKeyMap] *)
Definition keyMap_Up : key.Binding := ["up"; "k"].
Definition keyMap_Down : key.Binding := ["down"; "j"].
Definition keyMap_PageUp : key.Binding := ["pgup"; "ctrl+u"].
Definition keyMap_PageDown : key.Binding := ["pgdown"; "ctrl+d"].
Definition keyMap_Top : key.Binding := ["home"].
Definition keyMap_Bottom : key.Binding := ["end"; "G"].

Definition NewMessagesModel : MessagesModel :=
  {| messages := []; conversationID := ""; selected := 0; offset := 0;
     width := 0; height := 0; focused := false; lastKeyWasG := false |}.

Definition set_selection (sel off : Z) (m : MessagesModel) :=
  {| messages := messages m; conversationID := conversationID m;
     selected := sel; offset := off; width := width m; height := height m;
     focused := focused m; lastKeyWasG := lastKeyWasG m |}.
Definition set_lastKeyWasG (b : bool) (m : MessagesModel) :=
  {| messages := messages m; conversationID := conversationID m;
     selected := selected m; offset := offset m; width := width m;
     height := height m; focused := focused m; lastKeyWasG := b |}.
Definition set_messages (id : string) (ms : list store.Message) (m : MessagesModel) :=
  {| messages := ms; conversationID := id;
     selected := selected m; offset := offset m; width := width m;
     height := height m; focused := focused m; lastKeyWasG := lastKeyWasG m |}.

Definition SetSize (w h : Z) (m : MessagesModel) :=
  {| messages := messages m; conversationID := conversationID m;
     selected := selected m; offset := offset m; width := w;
     height := h; focused := focused m; lastKeyWasG := lastKeyWasG m |}.
Definition SetFocused (b : bool) (m : MessagesModel) :=
  {| messages := messages m; conversationID := conversationID m;
     selected := selected m; offset := offset m; width := width m;
     height := height m; focused := b; lastKeyWasG := lastKeyWasG m |}.

Definition visibleItemCount (m : MessagesModel) : Z := Z.quot (height m - 3) 3.

Definition count (m : MessagesModel) : Z := Z.of_nat (length (messages m)).

(** [SetMessages] *)
Definition SetMessages (id : string) (msgs : list store.Message) (m : MessagesModel) :=
  let m := set_messages id msgs m in
  if 0 <? count m
  then set_selection (count m - 1) (Z.max 0 (count m - visibleItemCount m)) m
  else set_selection 0 0 m.

(** [AddMessage] *)
Definition AddMessage (msg : store.Message) (m : MessagesModel) :=
  if negb (store.ConversationID msg == conversationID m) then m
  else
    let m := set_messages (conversationID m) (messages m ++ [msg]) m in
    set_selection (count m - 1) (Z.max 0 (count m - visibleItemCount m)) m.

(** [MessagesModel.Update] *)
Definition Update (m : MessagesModel) (msg : Msg) : MessagesModel :=
  if negb (focused m) then m
  else
    match msg with
    | KeyMsg k =>
        if tea.String_ k == "g" then
          if lastKeyWasG m then set_lastKeyWasG false (set_selection 0 0 m)
          else set_lastKeyWasG true m
        else
          let m := set_lastKeyWasG false m in
          if key.Matches k keyMap_Up then
            if 0 <? selected m then
              let sel := selected m - 1 in
              set_selection sel (if sel <? offset m then sel else offset m) m
            else m
          else if key.Matches k keyMap_Down then
            if selected m <? count m - 1 then
              let sel := selected m + 1 in
              let visibleItems := visibleItemCount m in
              set_selection sel
                (if offset m + visibleItems <=? sel
                 then sel - visibleItems + 1 else offset m) m
            else m
          else if key.Matches k keyMap_PageUp then
            let pageSize := visibleItemCount m in
            set_selection (Z.max 0 (selected m - pageSize))
              (Z.max 0 (offset m - pageSize)) m
          else if key.Matches k keyMap_PageDown then
            let pageSize := visibleItemCount m in
            let maxSelect := count m - 1 in
            set_selection (Z.min maxSelect (selected m + pageSize))
              (Z.min (Z.max 0 (count m - pageSize)) (offset m + pageSize)) m
          else if key.Matches k keyMap_Top then set_selection 0 0 m
          else if key.Matches k keyMap_Bottom then
            if 0 <? count m
            then set_selection (count m - 1)
                   (Z.max 0 (count m - visibleItemCount m)) m
            else m
          else m
    | _ => m
    end.

(** [SelectedMessage] *)
Definition SelectedMessage (m : MessagesModel) : option store.Message :=
  if (0 <=? selected m) && (selected m <? count m)
  then messages m !! Z.to_nat (selected m) else None.

(** [Clear] *)
Definition Clear (m : MessagesModel) : MessagesModel :=
  set_selection 0 0 (set_messages "" [] m).

(** The selection lies in the list (or is 0 when the list is empty) and
    inside the window of [visibleItemCount] rows that starts at
    [offset]. *)
Definition selection_ok (m : MessagesModel) : Prop :=
  0 ≤ offset m ≤ selected m ∧ selected m < offset m + visibleItemCount m ∧
  (selected m < count m ∨ selected m = 0).

End Messages.

(* ================================================================== *)
(** ** Text helpers (styles.go) *)
(* ================================================================== *)

Module styles.

(** [Truncate]; [None] is the panic of a slice bound out of range. *)
Definition Truncate (s : string) (width : Z) : option string :=
  if GoStr.len s <=? width then Some s
  else if width <=? 3 then
    if width <? 0 then None else Some (GoStr.slice_to s width)
  else Some (GoStr.slice_to s (width - 3) +:+ "...").

End styles.

(* ================================================================== *)
(** ** Key bindings of the configuration (config.go) *)
(* ================================================================== *)

Module config.

Record NavigationKeybinds := {
  Conversations : string;
  Messages : string;
  Input : string
}.

Record GlobalKeybinds := {
  Quit : string;
  NextPanel : string;
  PrevPanel : string;
  Help : string;
  Refresh : string
}.

Record KeybindConfig := {
  LeaderKey : string;
  Navigation : NavigationKeybinds;
  Global : GlobalKeybinds
}.

Record Config := {
  Editor : string;
  EditorArgs : list string;
  Keybinds : KeybindConfig
}.

(** [DefaultKeybinds] *)
Definition DefaultKeybinds : KeybindConfig :=
  {| LeaderKey := "ctrl+space";
     Navigation := {| Conversations := "c"; Messages := "m"; Input := "i" |};
     Global := {| Quit := "q"; NextPanel := "tab"; PrevPanel := "shift+tab";
                  Help := "?"; Refresh := "ctrl+r" |} |}.

(** [DefaultConfig], for the editor found in the environment. *)
Definition DefaultConfig (editor : string) : Config :=
  {| Editor := editor; EditorArgs := []; Keybinds := DefaultKeybinds |}.

(** [if v == "" { v = d }] *)
Definition or_default (v d : string) : string :=
  if String.eqb v "" then d else v.

(** [Load], from the end of [yaml.Unmarshal] on: the statements that
    give every setting the file left empty its default.  [editor] is
    the editor of [DefaultConfig()], [cfg] what was read. *)
Definition fillDefaults (editor : string) (cfg : Config) : Config :=
  let defaults := DefaultKeybinds in
  let kb := Keybinds cfg in
  {| Editor := or_default (Editor cfg) editor;
     EditorArgs := EditorArgs cfg;
     Keybinds :=
       {| LeaderKey := or_default (LeaderKey kb) (LeaderKey defaults);
          Navigation :=
            {| Conversations := or_default (Conversations (Navigation kb))
                                  (Conversations (Navigation defaults));
               Messages := or_default (Messages (Navigation kb))
                             (Messages (Navigation defaults));
               Input := or_default (Input (Navigation kb))
                          (Input (Navigation defaults)) |};
          Global :=
            {| Quit := or_default (Quit (Global kb)) (Quit (Global defaults));
               NextPanel := or_default (NextPanel (Global kb))
                              (NextPanel (Global defaults));
               PrevPanel := or_default (PrevPanel (Global kb))
                              (PrevPanel (Global defaults));
               Help := or_default (Help (Global kb)) (Help (Global defaults));
               Refresh := or_default (Refresh (Global kb))
                            (Refresh (Global defaults)) |} |} |}.

(** The nine key settings. *)
Definition bindings (cfg : Config) : list string :=
  let kb := Keybinds cfg in
  [LeaderKey kb; Conversations (Navigation kb); Messages (Navigation kb);
   Input (Navigation kb); Quit (Global kb); NextPanel (Global kb);
   PrevPanel (Global kb); Help (Global kb); Refresh (Global kb)].

End config.

(* ================================================================== *)
(** ** The session loop and the panel controller (app.go) *)
(* ================================================================== *)

Module App.

Local Infix "==" := String.eqb (at level 70, no associativity).

Inductive AppState := StateLoading | StateQRPairing | StateConnected | StateError.

#[global] Instance AppState_eq_dec : EqDecision AppState.
Proof. solve_decision. Defined.

(** [FocusedPanel] is an [int]; [cycleFocus] computes on it. *)
Definition FocusedPanel := Z.
Definition PanelContacts : FocusedPanel := 0.
Definition PanelMessages : FocusedPanel := 1.
Definition PanelInput : FocusedPanel := 2.

Record AppKeyMap := {
  Quit : key.Binding;
  Tab : key.Binding;
  ShiftTab : key.Binding;
  Help : key.Binding;
  Refresh : key.Binding
}.

(** [KeyMapFromConfig] *)
Definition KeyMapFromConfig (cfg : config.Config) : AppKeyMap :=
  let kb := config.Keybinds cfg in
  {| Quit := [config.Quit (config.Global kb); "ctrl+c"];
     Tab := [config.NextPanel (config.Global kb)];
     ShiftTab := [config.PrevPanel (config.Global kb)];
     Help := [config.Help (config.Global kb)];
     Refresh := [config.Refresh (config.Global kb)] |}.

(** The fields of [App] that [Update] reads or writes; [cancelled]
    records that the cancel function of the context was called. *)
Record App := {
  cfg : config.Config;
  keyMap : AppKeyMap;
  state : AppState;
  focusedPanel : FocusedPanel;
  err : option string;
  statusMsg : string;
  leaderKeyPressed : bool;
  width : Z;
  height : Z;
  contacts : Contacts.ContactsModel;
  messages : Messages.MessagesModel;
  input : Input.InputModel;
  activeConversationID : string;
  qrURL : string;
  cancelled : bool
}.

(** [NewApp] *)
Definition NewApp (c : config.Config) : App :=
  {| cfg := c; keyMap := KeyMapFromConfig c; state := StateLoading;
     focusedPanel := PanelContacts; err := None; statusMsg := "";
     leaderKeyPressed := false; width := 0; height := 0;
     contacts := Contacts.NewContactsModel;
     messages := Messages.NewMessagesModel;
     input := Input.NewInputModel;
     activeConversationID := ""; qrURL := ""; cancelled := false |}.

(** Field assignments. *)
Definition set_state (s : AppState) (a : App) :=
  {| cfg := cfg a; keyMap := keyMap a; state := s;
     focusedPanel := focusedPanel a; err := err a; statusMsg := statusMsg a;
     leaderKeyPressed := leaderKeyPressed a; width := width a;
     height := height a; contacts := contacts a; messages := messages a;
     input := input a; activeConversationID := activeConversationID a;
     qrURL := qrURL a; cancelled := cancelled a |}.
Definition set_focusedPanel (p : FocusedPanel) (a : App) :=
  {| cfg := cfg a; keyMap := keyMap a; state := state a;
     focusedPanel := p; err := err a; statusMsg := statusMsg a;
     leaderKeyPressed := leaderKeyPressed a; width := width a;
     height := height a; contacts := contacts a; messages := messages a;
     input := input a; activeConversationID := activeConversationID a;
     qrURL := qrURL a; cancelled := cancelled a |}.
Definition set_err (e : option string) (a : App) :=
  {| cfg := cfg a; keyMap := keyMap a; state := state a;
     focusedPanel := focusedPanel a; err := e; statusMsg := statusMsg a;
     leaderKeyPressed := leaderKeyPressed a; width := width a;
     height := height a; contacts := contacts a; messages := messages a;
     input := input a; activeConversationID := activeConversationID a;
     qrURL := qrURL a; cancelled := cancelled a |}.
Definition set_statusMsg (s : string) (a : App) :=
  {| cfg := cfg a; keyMap := keyMap a; state := state a;
     focusedPanel := focusedPanel a; err := err a; statusMsg := s;
     leaderKeyPressed := leaderKeyPressed a; width := width a;
     height := height a; contacts := contacts a; messages := messages a;
     input := input a; activeConversationID := activeConversationID a;
     qrURL := qrURL a; cancelled := cancelled a |}.
Definition set_leaderKeyPressed (b : bool) (a : App) :=
  {| cfg := cfg a; keyMap := keyMap a; state := state a;
     focusedPanel := focusedPanel a; err := err a; statusMsg := statusMsg a;
     leaderKeyPressed := b; width := width a;
     height := height a; contacts := contacts a; messages := messages a;
     input := input a; activeConversationID := activeConversationID a;
     qrURL := qrURL a; cancelled := cancelled a |}.
Definition set_size (w h : Z) (a : App) :=
  {| cfg := cfg a; keyMap := keyMap a; state := state a;
     focusedPanel := focusedPanel a; err := err a; statusMsg := statusMsg a;
     leaderKeyPressed := leaderKeyPressed a; width := w;
     height := h; contacts := contacts a; messages := messages a;
     input := input a; activeConversationID := activeConversationID a;
     qrURL := qrURL a; cancelled := cancelled a |}.
Definition set_contacts (f : Contacts.ContactsModel → Contacts.ContactsModel) (a : App) :=
  {| cfg := cfg a; keyMap := keyMap a; state := state a;
     focusedPanel := focusedPanel a; err := err a; statusMsg := statusMsg a;
     leaderKeyPressed := leaderKeyPressed a; width := width a;
     height := height a; contacts := f (contacts a); messages := messages a;
     input := input a; activeConversationID := activeConversationID a;
     qrURL := qrURL a; cancelled := cancelled a |}.
Definition set_messages (f : Messages.MessagesModel → Messages.MessagesModel) (a : App) :=
  {| cfg := cfg a; keyMap := keyMap a; state := state a;
     focusedPanel := focusedPanel a; err := err a; statusMsg := statusMsg a;
     leaderKeyPressed := leaderKeyPressed a; width := width a;
     height := height a; contacts := contacts a; messages := f (messages a);
     input := input a; activeConversationID := activeConversationID a;
     qrURL := qrURL a; cancelled := cancelled a |}.
Definition set_input (f : Input.InputModel → Input.InputModel) (a : App) :=
  {| cfg := cfg a; keyMap := keyMap a; state := state a;
     focusedPanel := focusedPanel a; err := err a; statusMsg := statusMsg a;
     leaderKeyPressed := leaderKeyPressed a; width := width a;
     height := height a; contacts := contacts a; messages := messages a;
     input := f (input a); activeConversationID := activeConversationID a;
     qrURL := qrURL a; cancelled := cancelled a |}.
Definition set_activeConversationID (id : string) (a : App) :=
  {| cfg := cfg a; keyMap := keyMap a; state := state a;
     focusedPanel := focusedPanel a; err := err a; statusMsg := statusMsg a;
     leaderKeyPressed := leaderKeyPressed a; width := width a;
     height := height a; contacts := contacts a; messages := messages a;
     input := input a; activeConversationID := id;
     qrURL := qrURL a; cancelled := cancelled a |}.
Definition set_qrURL (u : string) (a : App) :=
  {| cfg := cfg a; keyMap := keyMap a; state := state a;
     focusedPanel := focusedPanel a; err := err a; statusMsg := statusMsg a;
     leaderKeyPressed := leaderKeyPressed a; width := width a;
     height := height a; contacts := contacts a; messages := messages a;
     input := input a; activeConversationID := activeConversationID a;
     qrURL := u; cancelled := cancelled a |}.
(** [a.cancel()] *)
Definition cancel (a : App) :=
  {| cfg := cfg a; keyMap := keyMap a; state := state a;
     focusedPanel := focusedPanel a; err := err a; statusMsg := statusMsg a;
     leaderKeyPressed := leaderKeyPressed a; width := width a;
     height := height a; contacts := contacts a; messages := messages a;
     input := input a; activeConversationID := activeConversationID a;
     qrURL := qrURL a; cancelled := true |}.

(** [updateSizes] *)
Definition updateSizes (a : App) : App :=
  let contentHeight := height a - 2 in
  let contactsWidth := Z.quot (width a) 4 in
  let contactsWidth := if contactsWidth <? 20 then 20 else contactsWidth in
  let messagesWidth := width a - contactsWidth - 4 in
  let messagesWidth := if messagesWidth <? 20 then 20 else messagesWidth in
  let '(contactsWidth, messagesWidth) :=
    if width a <? contactsWidth + messagesWidth + 4 then
      let contactsWidth := width a - messagesWidth - 4 in
      if contactsWidth <? 15 then (15, width a - 15 - 4)
      else (contactsWidth, messagesWidth)
    else (contactsWidth, messagesWidth) in
  let inputHeight := 3 in
  let messagesHeight := contentHeight - inputHeight - 2 in
  let a := set_contacts (Contacts.SetSize contactsWidth (contentHeight - 2)) a in
  let a := set_messages (Messages.SetSize messagesWidth messagesHeight) a in
  set_input (Input.SetWidth messagesWidth) a.

(** The [switch a.focusedPanel] that ends [cycleFocus]. *)
Definition focus_current (a : App) : App :=
  if focusedPanel a =? PanelContacts then set_contacts (Contacts.SetFocused true) a
  else if focusedPanel a =? PanelMessages then set_messages (Messages.SetFocused true) a
  else if focusedPanel a =? PanelInput then set_input (Input.SetFocused true) a
  else a.

Definition unfocus_all (a : App) : App :=
  let a := set_contacts (Contacts.SetFocused false) a in
  let a := set_messages (Messages.SetFocused false) a in
  set_input (Input.SetFocused false) a.

(** [cycleFocus]; Go's [%] is the remainder of the truncated
    division. *)
Definition cycleFocus (direction : Z) (a : App) : App :=
  let a := unfocus_all a in
  let numPanels := 3 in
  let a := set_focusedPanel
             (Z.rem (focusedPanel a + direction + numPanels) numPanels) a in
  focus_current a.

(** [focusPanel] *)
Definition focusPanel (panel : FocusedPanel) (a : App) : App :=
  let a := unfocus_all a in
  let a := set_focusedPanel panel a in
  if panel =? PanelContacts then
    set_statusMsg "Conversations" (set_contacts (Contacts.SetFocused true) a)
  else if panel =? PanelMessages then
    set_statusMsg "Messages" (set_messages (Messages.SetFocused true) a)
  else if panel =? PanelInput then
    set_statusMsg "Input" (set_input (Input.SetFocused true) a)
  else a.

(** [handleLeaderKey]: the command is [nil] when the key is neither
    [r] nor the quit key. *)
Definition handleLeaderKey (a : App) (k : tea.Key) : App * list Cmd :=
  let kb := config.Keybinds (cfg a) in
  let keyStr := tea.String_ k in
  if keyStr == "r" then (set_statusMsg "Refreshing..." a, [CmdLoadConversations])
  else if keyStr == config.Quit (config.Global kb) then (cancel a, [CmdQuit])
  else (a, []).

(** [matchesLeaderKey] *)
Definition matchesLeaderKey (a : App) (k : tea.Key) : bool :=
  let leaderKey := config.LeaderKey (config.Keybinds (cfg a)) in
  let keyStr := tea.String_ k in
  if keyStr == leaderKey then true
  else if (leaderKey == "ctrl+space") &&
          ((keyStr == "ctrl+ ") || (keyStr == "ctrl+@") ||
           bool_decide (tea.Type_ k = tea.KeyCtrlAt) ||
           ((GoStr.len keyStr =? 1) &&
            bool_decide (GoStr.byte_at keyStr 0 = Some Ascii.zero)))
  then true
  else if (5 <? GoStr.len leaderKey) && (GoStr.slice_to leaderKey 5 == "ctrl+") &&
          negb (tea.Alt k) &&
          (keyStr == "ctrl+" +:+ GoStr.slice_from leaderKey 5)
  then true
  else false.

(** [handleLeaderNavigation]; a Go [switch] takes the first case that
    matches. *)
Definition handleLeaderNavigation (a : App) (k : tea.Key) : App * bool :=
  let kb := config.Keybinds (cfg a) in
  let keyStr := tea.String_ k in
  if keyStr == config.Conversations (config.Navigation kb)
  then (focusPanel PanelContacts a, true)
  else if keyStr == config.Messages (config.Navigation kb)
  then (focusPanel PanelMessages a, true)
  else if keyStr == config.Input (config.Navigation kb)
  then (focusPanel PanelInput a, true)
  else (a, false).

(** [sendMessage] *)
Definition sendMessage `{GoLib} `{textinput.Widget} (content : string) (a : App)
  : App * list Cmd :=
  if activeConversationID a == "" then
    let a := set_statusMsg "Select a conversation first! (Enter in contacts)" a in
    let a := set_input (fun i => (Input.Update i MessageFailedNotifyMsg).1) a in
    (a, [])
  else
    let convID := activeConversationID a in
    (a, [CmdSendMessage convID content]).

(** [handleClientEvent] *)
Definition handleClientEvent (evt : client.Event) (a : App) : App * list Cmd :=
  match client.Type_ evt with
  | client.EventTypeConnected => (a, [CmdMsg connectedMsg])
  | client.EventTypeDisconnected => (set_statusMsg "Disconnected" a, [])
  | client.EventTypeNewMessage =>
      match client.Message evt with
      | Some msg => (set_messages (Messages.AddMessage msg) a, [CmdLoadConversations])
      | None => (a, [])
      end
  | client.EventTypeConversationsUpdated => (a, [CmdLoadConversations])
  | client.EventTypeError =>
      match client.Error evt with
      | Some e => (set_statusMsg ("Error: " +:+ e) a, [])
      | None => (a, [])
      end
  | _ => (a, [])
  end.

Section Loop.
Context `{GoLib} `{textinput.Widget}.

(** [handleConnectedInput] *)
Definition handleConnectedInput (a : App) (k : tea.Key) : App * list Cmd :=
  if (focusedPanel a =? PanelContacts) && (tea.String_ k == "enter") then
    match Contacts.SelectedConversation (contacts a) with
    | Some conv =>
        let a := set_activeConversationID (store.ID conv) a in
        let a := set_statusMsg ("Selected: " +:+ store.Name conv) a in
        (a, [CmdLoadMessages (store.ID conv)])
    | None => (a, [])
    end
  else (a, []).

(** The [switch a.focusedPanel] that ends [Update]: the message is
    handed to the focused component; [cmds] are the commands
    collected so far. *)
Definition updateFocused (a : App) (msg : Msg) (cmds : list Cmd) : App * list Cmd :=
  if focusedPanel a =? PanelContacts then
    let a := set_contacts (fun c => Contacts.Update c msg) a in
    match Contacts.SelectedConversation (contacts a) with
    | Some conv => (a, cmds ++ [CmdLoadMessages (store.ID conv)])
    | None => (a, cmds)
    end
  else if focusedPanel a =? PanelMessages then
    (set_messages (fun m => Messages.Update m msg) a, cmds)
  else if focusedPanel a =? PanelInput then
    let '(i, cmd) := Input.Update (input a) msg in
    (set_input (fun _ => i) a, cmds ++ cmd)
  else (a, cmds).

(** The outcome of the first [switch] of [Update]: either the
    function has returned, or control goes on to the focused
    component with the commands collected so far. *)
Inductive flow :=
| Return (a : App) (cmds : list Cmd)
| Continue (a : App) (cmds : list Cmd).

(** [case tea.KeyMsg], from the test for the leader key on: the
    part that handles a key when no chord is pending. *)
Definition normalKey (a : App) (k : tea.Key) : flow :=
  if matchesLeaderKey a k then
    Return (set_statusMsg "-- LEADER --" (set_leaderKeyPressed true a)) []
  else
    let stateSpecific (a : App) :=
      match state a with
      | StateConnected =>
          let '(a, cmd) := handleConnectedInput a k in Continue a cmd
      | _ => Continue a []
      end in
    if key.Matches k (Quit (keyMap a)) then
      if (focusedPanel a =? PanelInput) && negb (Input.Value (input a) == "")
      then stateSpecific a
      else Return (cancel a) [CmdQuit]
    else if key.Matches k (Tab (keyMap a)) then Return (cycleFocus 1 a) []
    else if key.Matches k (ShiftTab (keyMap a)) then Return (cycleFocus (-1) a) []
    else stateSpecific a.

(** [case tea.KeyMsg] *)
Definition onKey (a : App) (k : tea.Key) : flow :=
  if leaderKeyPressed a then
    if tea.String_ k == "esc" then
      Return (set_statusMsg "" (set_leaderKeyPressed false a)) []
    else
      let a := set_leaderKeyPressed false a in
      match handleLeaderKey a k with
      | (a', (_ :: _) as cmd) => Return a' cmd
      | (a', []) =>
          match handleLeaderNavigation a' k with
          | (a'', true) => Return a'' []
          | (a'', false) => normalKey a'' k
          end
      end
  else normalKey a k.

(** The first [switch] of [Update]. *)
Definition dispatch (a : App) (msg : Msg) : flow :=
  match msg with
  | WindowSizeMsg w h => Continue (updateSizes (set_size w h a)) []
  | KeyMsg k => onKey a k
  | ClientEvent evt =>
      let '(a, cmd) := handleClientEvent evt a in Continue a cmd
  | SendMessageMsg content =>
      let '(a, cmd) := sendMessage content a in Continue a cmd
  | OpenEditorMsg initial => Return a [CmdStartEditor initial]
  | EditorResultMsg content (Some e) =>
      Continue (set_statusMsg ("Editor error: " +:+ e) a) []
  | EditorResultMsg content None =>
      let a := set_input (Input.SetValue content) a in
      let a := set_contacts (Contacts.SetFocused false) a in
      let a := set_messages (Messages.SetFocused false) a in
      let a := set_input (Input.SetFocused true) a in
      let a := set_focusedPanel PanelInput a in
      Continue (set_statusMsg "Press Enter to send" a) []
  | EditorCancelledMsg => Continue (set_statusMsg "Message cancelled" a) []
  | conversationsLoadedMsg convs =>
      let a := set_contacts (Contacts.SetConversations convs) a in
      Continue
        (set_statusMsg
           ("Loaded " +:+ GoStr.itoa (Z.of_nat (length convs)) +:+ " conversations") a)
        []
  | messagesLoadedMsg id msgs =>
      Continue (set_messages (Messages.SetMessages id msgs) a) []
  | messageSentMsg =>
      let a := set_statusMsg "Message sent" a in
      let a := set_input (fun i => (Input.Update i MessageSentNotifyMsg).1) a in
      if negb (activeConversationID a == "")
      then Continue a [CmdLoadMessages (activeConversationID a)]
      else Continue a []
  | qrCodeMsg url =>
      let a := set_state StateQRPairing a in
      Continue (set_qrURL url a) [CmdListenForExternalMsgs]
  | connectedMsg =>
      let a := set_state StateConnected a in
      let a := set_statusMsg "Connected" a in
      let a := set_contacts (Contacts.SetFocused true) a in
      Continue a [CmdLoadConversations; CmdListenForExternalMsgs]
  | errorMsg e =>
      let a := set_err (Some e) a in
      let a := set_statusMsg ("Error: " +:+ e) a in
      let a := set_input (fun i => (Input.Update i MessageFailedNotifyMsg).1) a in
      let a := if bool_decide (state a ≠ StateConnected)
               then set_state StateError a else a in
      Continue a [CmdListenForExternalMsgs]
  | _ => Continue a []
  end.

(** [App.Update] *)
Definition Update (a : App) (msg : Msg) : App * list Cmd :=
  match dispatch a msg with
  | Return a cmds => (a, cmds)
  | Continue a cmds => updateFocused a msg cmds
  end.

(** The loop applied to a queue of inbound messages (the commands
    are dropped: their results come back as messages). *)
Definition run (a : App) (msgs : list Msg) : App :=
  foldl (fun a msg => (Update a msg).1) a msgs.
End Loop.

(** One of the three panels. *)
Definition is_panel (p : FocusedPanel) : Prop :=
  p = PanelContacts ∨ p = PanelMessages ∨ p = PanelInput.

(** The focus flags of the three panels. *)
Definition focus_flags (a : App) : bool * bool * bool :=
  (Contacts.focused (contacts a), Messages.focused (messages a),
   Input.focused (input a)).

(** The panel named by [focusedPanel], and no other, carries the
    focus flag. *)
Definition focus_consistent (a : App) : Prop :=
  is_panel (focusedPanel a) ∧
  focus_flags a = (focusedPanel a =? PanelContacts,
                   focusedPanel a =? PanelMessages,
                   focusedPanel a =? PanelInput).


(** A key that the chord started by the leader key does not map:
    neither escape, nor a command of [handleLeaderKey], nor a
    navigation key. *)
Definition unmapped (a : App) (k : tea.Key) : Prop :=
  let kb := config.Keybinds (cfg a) in
  let s := tea.String_ k in
  s ≠ "esc" ∧ s ≠ "r" ∧ s ≠ config.Quit (config.Global kb) ∧
  s ≠ config.Conversations (config.Navigation kb) ∧
  s ≠ config.Messages (config.Navigation kb) ∧
  s ≠ config.Input (config.Navigation kb).

(** A key bound to next-panel or to previous-panel. *)
Definition cycles (a : App) (k : tea.Key) : bool :=
  key.Matches k (Tab (keyMap a)) || key.Matches k (ShiftTab (keyMap a)).

End App.

(* ================================================================== *)
(** ** A reference instance for ASCII text *)
(* ================================================================== *)

(** The abstract library functions, instantiated for 7-bit text: used
    to run the model on concrete key sequences. *)
Module Reference.

Definition is_white (b : ascii) : bool :=
  let n := Z.of_N (N_of_ascii b) in
  ((9 <=? n) && (n <=? 13)) || (n =? 32).

Fixpoint trim_left (s : string) : string :=
  match s with
  | String b tl => if is_white b then trim_left tl else s
  | EmptyString => EmptyString
  end.

Definition trim (s : string) : string :=
  String.rev (trim_left (String.rev (trim_left s))).

Definition lower (b : ascii) : ascii :=
  let n := Z.of_N (N_of_ascii b) in
  if (65 <=? n) && (n <=? 90) then GoStr.byte_of_Z (n + 32) else b.

Fixpoint map_bytes (f : ascii → ascii) (s : string) : string :=
  match s with
  | String b tl => String (f b) (map_bytes f tl)
  | EmptyString => EmptyString
  end.

Fixpoint runes (s : string) : list Z :=
  match s with
  | String b tl => Z.of_N (N_of_ascii b) :: runes tl
  | EmptyString => []
  end.

#[export] Instance golib : GoLib :=
  {| TrimSpace := trim; ToLower := map_bytes lower; runes_of_string := runes |}.

(** Tabs and line breaks become spaces, other control characters are
    dropped. *)
Definition sanitize (rs : list Z) : list Z :=
  omap (fun r =>
          if (r =? 9) || (r =? 10) || (r =? 13) then Some 32
          else if (r <? 32) || (r =? 127) then None
          else Some r) rs.

(** Typing inserts the runes of the key at the cursor of a focused
    widget, up to the character limit. *)
Definition type_runes (m : textinput.Model) (msg : Msg)
  : textinput.Model * list nat :=
  match msg with
  | KeyMsg k =>
      if textinput.focus m &&
         (bool_decide (tea.Type_ k = tea.KeyRunes)
          || bool_decide (tea.Type_ k = tea.KeySpace)) then
        let p := Z.to_nat (textinput.pos m) in
        let v := take p (textinput.value m) ++ tea.Runes k
                 ++ drop p (textinput.value m) in
        let v := if (0 <? textinput.CharLimit m)
                 then take (Z.to_nat (textinput.CharLimit m)) v else v in
        ({| textinput.value := v;
            textinput.pos :=
              Z.min (Z.of_nat (length v))
                (textinput.pos m + Z.of_nat (length (tea.Runes k)));
            textinput.focus := true;
            textinput.CharLimit := textinput.CharLimit m |}, [])
      else (m, [])
  | _ => (m, [])
  end.

#[export] Instance widget : textinput.Widget :=
  {| textinput.Sanitize := sanitize; textinput.Update := type_runes |}.

(** Keys by name. *)
Definition ch (c : ascii) : Msg := KeyMsg (tea.letter c).
Definition esc : Msg := KeyMsg (tea.press tea.KeyEscape).
Definition enter : Msg := KeyMsg (tea.press tea.KeyEnter).
Definition ctrl_space : Msg := KeyMsg (tea.press tea.KeyCtrlAt).

(** The application with the default configuration. *)
Definition app0 : App.App := App.NewApp (config.DefaultConfig "nvim").

(** A focused editor in Insert mode holding [text], the cursor at its
    end. *)
Definition editor (text : string) : Input.InputModel :=
  {| Input.textInput :=
       {| textinput.value := runes text;
          textinput.pos := Z.of_nat (length (runes text));
          textinput.focus := true; textinput.CharLimit := 5000 |};
     Input.draftContent := ""; Input.width := 0; Input.focused := true;
     Input.sending := false; Input.mode := Input.ModeInsert;
     Input.pendingAction := Input.PendingNone;
     Input.lastFindChar := Ascii.zero; Input.lastFindDir := 0 |}.

(** The same editor after [Esc] and [0]: Normal mode, cursor at 0. *)
Definition normal_editor (text : string) : Input.InputModel :=
  Input.type_keys (editor text) [tea.press tea.KeyEscape; tea.letter "0"].

(** A focused editor in Normal mode holding the two runes "éa", of
    which the first takes two bytes, the cursor at 0. *)
Definition wide_editor : Input.InputModel :=
  {| Input.textInput :=
       {| textinput.value := [233; 97]; textinput.pos := 0;
          textinput.focus := false; textinput.CharLimit := 5000 |};
     Input.draftContent := ""; Input.width := 0; Input.focused := true;
     Input.sending := false; Input.mode := Input.ModeNormal;
     Input.pendingAction := Input.PendingNone;
     Input.lastFindChar := Ascii.zero; Input.lastFindDir := 0 |}.

(** A line feed. *)
Definition LF : string := String "010" EmptyString.

(** Two cached conversations, the older one first. *)
Definition conv_old : store.Conversation :=
  {| store.ID := "c1"; store.Name := "Hello World"; store.LatestMessage := "hi";
     store.LatestTimestamp := 10; store.Unread := false; store.IsGroup := false;
     store.Participants := []; store.AvatarURL := "" |}.
Definition conv_new : store.Conversation :=
  {| store.ID := "c2"; store.Name := "Bob"; store.LatestMessage := "yo";
     store.LatestTimestamp := 20; store.Unread := true; store.IsGroup := false;
     store.Participants := []; store.AvatarURL := "" |}.
Definition demo_store : store.Store :=
  store.SetConversations store.New [conv_old; conv_new].

(** The contacts panel searching for "hwd". *)
Definition demo_contacts : Contacts.ContactsModel :=
  Contacts.set_search true "hwd"
    (Contacts.SetConversations [conv_old; conv_new] Contacts.NewContactsModel).

(** The application once connected, and with the leader key pressed. *)
Definition connected : App.App := App.run app0 [connectedMsg].
Definition chord_pending : App.App := App.run connected [ctrl_space].

(** More keys by name. *)
Definition tab : Msg := KeyMsg (tea.press tea.KeyTab).

(** The conversation list showing the two conversations in a panel of
    nine rows, focused; the same list searching for "hwd". *)
Definition demo_list : Contacts.ContactsModel :=
  Contacts.SetFocused true
    (Contacts.SetSize 30 9
       (Contacts.SetConversations [conv_old; conv_new] Contacts.NewContactsModel)).
Definition demo_search : Contacts.ContactsModel :=
  Contacts.set_search true "hwd" demo_list.

(** A message of the conversation c1, and one that arrives later. *)
Definition msg_hi : store.Message :=
  {| store.MsgID := "m1"; store.ConversationID := "c1"; store.SenderID := "u1";
     store.SenderName := "Ann"; store.Content := "hi"; store.Timestamp := 10;
     store.IsFromMe := false; store.Status := "read"; store.Reactions := [];
     store.MediaURL := ""; store.MediaType := "" |}.
Definition msg_late : store.Message :=
  {| store.MsgID := "m2"; store.ConversationID := "c1"; store.SenderID := "u1";
     store.SenderName := "Ann"; store.Content := "see you"; store.Timestamp := 30;
     store.IsFromMe := false; store.Status := "delivered"; store.Reactions := [];
     store.MediaURL := ""; store.MediaType := "" |}.

(** The message list in a panel of twelve rows, focused: empty, and
    showing the first message. *)
Definition empty_messages : Messages.MessagesModel :=
  Messages.SetFocused true (Messages.SetSize 40 12 Messages.NewMessagesModel).
Definition demo_messages : Messages.MessagesModel :=
  Messages.SetMessages "c1" [msg_hi] empty_messages.

(** The application showing the two conversations, with the first of
    them made the active one, and with the text "hi" typed into the
    editor. *)
Definition listed : App.App :=
  App.run connected [conversationsLoadedMsg [conv_old; conv_new]].
Definition chatting : App.App := App.run listed [enter].
Definition drafting : App.App := App.run chatting [tab; tab; ch "h"; ch "i"].

End Reference.

(* ================================================================== *)
(** * Properties *)
(* ================================================================== *)

(** ** The sorting loops *)

Section ExchangeSortFacts.
Context {A : Type} (rank : A → Z).

(** The comparison of both sorts: [xs[j]] goes first when its rank is
    strictly larger. *)
Let before (b a : A) : bool := rank a <? rank b.

Lemma rearranged_refl i (l : list A) : Loops.rearranged_from i l l.
Proof. repeat split; eauto. Qed.

Lemma rearranged_trans i (l1 l2 l3 : list A) :
  Loops.rearranged_from i l1 l2 → Loops.rearranged_from i l2 l3 → Loops.rearranged_from i l1 l3.
Proof.
  intros (Hl1 & Hp1 & Hs1) (Hl2 & Hp2 & Hs2). repeat split.
  - congruence.
  - intros a Ha. rewrite Hp2, Hp1; auto.
  - intros b y Hb Hy. destruct (Hs2 b y Hb Hy) as (b' & Hb' & Hy'). eauto.
Qed.

Lemma swap_if_length l i j : length (Loops.swap_if before l i j) = length l.
Proof.
  unfold Loops.swap_if. repeat case_match; rewrite ?length_insert; done.
Qed.

Lemma swap_if_perm l i j : Loops.swap_if before l i j ≡ₚ l.
Proof.
  unfold Loops.swap_if. repeat case_match; try done.
  by apply Permutation_insert_swap.
Qed.

Lemma swap_if_rearranged l i j :
  (i < j)%nat → Loops.rearranged_from i l (Loops.swap_if before l i j).
Proof.
  intros Hij. unfold Loops.swap_if.
  destruct (l !! i) as [a|] eqn:Hi; [|apply rearranged_refl].
  destruct (l !! j) as [b|] eqn:Hj; [|apply rearranged_refl].
  destruct (before b a); [|apply rearranged_refl].
  pose proof (lookup_lt_Some _ _ _ Hi). pose proof (lookup_lt_Some _ _ _ Hj).
  repeat split.
  - by rewrite !length_insert.
  - intros k Hk. rewrite !list_lookup_insert_ne by lia. done.
  - intros k y Hk Hy.
    destruct (decide (k = i)) as [->|].
    { rewrite list_lookup_insert_eq in Hy by (rewrite length_insert; lia).
      simplify_eq. exists j. split; [lia|done]. }
    rewrite list_lookup_insert_ne in Hy by done.
    destruct (decide (k = j)) as [->|].
    { rewrite list_lookup_insert_eq in Hy by lia.
      simplify_eq. exists i. split; [lia|done]. }
    rewrite list_lookup_insert_ne in Hy by done. eauto.
Qed.

Lemma swap_if_dominates l i j :
  (i < j)%nat → Loops.dominates rank i j l → Loops.dominates rank i (S j) (Loops.swap_if before l i j).
Proof.
  intros Hij Hdom k x y Hk Hx Hy. unfold Loops.swap_if in *.
  destruct (l !! i) as [a|] eqn:Hi; [|congruence].
  destruct (l !! j) as [b|] eqn:Hj.
  2:{ destruct (decide (k = j)) as [->|]; [congruence|].
      eapply (Hdom k); eauto. lia. }
  pose proof (lookup_lt_Some _ _ _ Hi). pose proof (lookup_lt_Some _ _ _ Hj).
  destruct (before b a) eqn:Hba; subst before; simpl in Hba.
  - rewrite list_lookup_insert_eq in Hx by (rewrite length_insert; lia).
    simplify_eq.
    rewrite list_lookup_insert_ne in Hy by lia.
    destruct (decide (k = j)) as [->|].
    + rewrite list_lookup_insert_eq in Hy by lia. simplify_eq. lia.
    + rewrite list_lookup_insert_ne in Hy by done.
      assert (rank y ≤ rank a) by (eapply (Hdom k); eauto; lia). lia.
  - simplify_eq. destruct (decide (k = j)) as [->|].
    + simplify_eq. lia.
    + eapply (Hdom k); eauto. lia.
Qed.

(** The inner loop, cut after [n] rounds. *)
Lemma inner_rounds l i n :
  let l' := foldl (fun ys j => Loops.swap_if before ys i j) l (seq (S i) n) in
  l' ≡ₚ l ∧ Loops.rearranged_from i l l' ∧ Loops.dominates rank i (S i + n) l'.
Proof.
  induction n as [|n IH]; cbv zeta in *.
  - simpl. split; [done|]. split; [apply rearranged_refl|].
    intros k x y Hk. lia.
  - rewrite seq_S, foldl_app. cbn [foldl].
    destruct IH as (Hp & Hr & Hd).
    set (l' := foldl _ l (seq (S i) n)) in *.
    split; [by rewrite swap_if_perm|].
    split.
    + eapply rearranged_trans; [exact Hr|]. apply swap_if_rearranged. lia.
    + assert (S i + S n = S (S i + n))%nat as -> by lia.
      apply swap_if_dominates; [lia|done].
Qed.

Lemma inner_loop_spec l i :
  let l' := Loops.inner_loop before l i in
  l' ≡ₚ l ∧ Loops.rearranged_from i l l' ∧
  ∀ k x y, (i < k)%nat → l' !! i = Some x → l' !! k = Some y → rank y ≤ rank x.
Proof.
  unfold Loops.inner_loop.
  destruct (inner_rounds l i (length l - S i)) as (Hp & Hr & Hd).
  split; [done|]. split; [done|].
  intros k x y Hk Hx Hy. eapply (Hd k); eauto.
  apply lookup_lt_Some in Hy. destruct Hr as (Hlen & _). lia.
Qed.

Lemma inner_loop_settled l i :
  Loops.settled rank i l → Loops.settled rank (S i) (Loops.inner_loop before l i).
Proof.
  intros Hs. destruct (inner_loop_spec l i) as (_ & (Hlen & Hpre & Hsuf) & Hd).
  intros a b x y Ha Hab Hx Hy.
  destruct (decide (a = i)) as [->|]; [eapply (Hd b); eauto|].
  assert (a < i)%nat as Hai by lia.
  rewrite Hpre in Hx by done.
  destruct (decide (b < i)%nat) as [Hbi|Hbi].
  - rewrite Hpre in Hy by done. eapply (Hs a b); eauto.
  - destruct (Hsuf b y) as (b' & Hb' & Hy'); [lia|done|].
    eapply (Hs a b'); eauto. lia.
Qed.

(** The outer loop, cut after [n] rounds. *)
Lemma outer_rounds l n :
  let l' := foldl (Loops.inner_loop before) l (seq 0 n) in
  l' ≡ₚ l ∧ Loops.settled rank n l'.
Proof.
  induction n as [|n IH]; cbv zeta in *.
  - simpl. split; [done|]. intros a b x y Ha. lia.
  - rewrite seq_S, foldl_app. cbn [foldl]. destruct IH as (Hp & Hs).
    split.
    + destruct (inner_loop_spec (foldl (Loops.inner_loop before) l (seq 0 n)) n)
        as (Hp' & _). by rewrite Hp'.
    + by apply inner_loop_settled.
Qed.

Lemma exchange_sort_perm l : Loops.exchange_sort before l ≡ₚ l.
Proof. apply outer_rounds. Qed.

Lemma exchange_sort_sorted l a b x y :
  (a < b)%nat →
  Loops.exchange_sort before l !! a = Some x →
  Loops.exchange_sort before l !! b = Some y →
  rank y ≤ rank x.
Proof.
  intros Hab Hx Hy.
  destruct (outer_rounds l (length l - 1)) as (Hp & Hs).
  eapply (Hs a b); eauto.
  apply lookup_lt_Some in Hy.
  unfold Loops.exchange_sort in Hy. rewrite (Permutation_length Hp) in Hy. lia.
Qed.
End ExchangeSortFacts.

(** ** The conversation cache *)

Section StoreFacts.
Import store.

(** C10: whatever order the map is visited in, [GetConversations]
    returns a list that contains exactly the cached conversations (it
    is a permutation of the values of the map), ordered newest first:
    no element's timestamp is strictly later than that of an element
    that precedes it. *)
Theorem GetConversations_newest_first (s : Store) (iter : list Conversation) :
  iter ≡ₚ cached s →
  let convs := GetConversations_from iter in
  convs ≡ₚ cached s ∧
  (∀ c, c ∈ convs ↔ ∃ id, conversations s !! id = Some c) ∧
  (∀ i j ci cj, (i < j)%nat → convs !! i = Some ci → convs !! j = Some cj →
     After (LatestTimestamp cj) (LatestTimestamp ci) = false).
Proof.
  intros Hiter convs.
  assert (convs ≡ₚ cached s) as Hp.
  { subst convs. unfold GetConversations_from.
    by rewrite (exchange_sort_perm LatestTimestamp). }
  split; [done|]. split.
  - intros c. rewrite Hp. unfold cached. rewrite list_elem_of_fmap. split.
    + intros ([id c'] & -> & Hin). exists id. by apply elem_of_map_to_list.
    + intros (id & Hid). exists (id, c). split; [done|].
      by apply elem_of_map_to_list.
  - intros i j ci cj Hij Hi Hj. unfold After. apply Z.ltb_ge.
    eapply (exchange_sort_sorted LatestTimestamp iter i j); eauto.
Qed.
End StoreFacts.

(** ** The contacts search *)

Section FuzzyFacts.
Import Contacts.

Lemma subsequence_tail b q t : GoStr.subsequence (String b q) t → GoStr.subsequence q t.
Proof.
  induction t as [|c t IH]; intros Hs; inversion Hs; subst.
  - apply GoStr.subsequence_skip. auto.
  - by apply GoStr.subsequence_skip.
Qed.

Lemma subsequence_cons b q t :
  GoStr.subsequence (String b q) (String b t) ↔ GoStr.subsequence q t.
Proof.
  split; [|apply GoStr.subsequence_take].
  intros Hs. inversion Hs; subst; [|done]. by eapply subsequence_tail.
Qed.

Lemma subsequence_cons_ne b c q t :
  b ≠ c → GoStr.subsequence (String c q) (String b t) ↔ GoStr.subsequence (String c q) t.
Proof.
  intros Hne. split; [|apply GoStr.subsequence_skip].
  intros Hs. inversion Hs; subst; done.
Qed.

Lemma prefix_subsequence q t : String.prefix q t = true → GoStr.subsequence q t.
Proof.
  revert t. induction q as [|b q IH]; intros t Hp; [constructor|].
  destruct t as [|c t]; simpl in Hp; [done|].
  destruct (ascii_dec b c) as [->|]; [|done].
  apply GoStr.subsequence_take. auto.
Qed.

Lemma Contains_subsequence t q : GoStr.Contains t q = true → GoStr.subsequence q t.
Proof.
  induction t as [|c t IH]; simpl; intros Hc.
  - rewrite orb_false_r in Hc. by apply prefix_subsequence.
  - apply orb_true_iff in Hc as [Hc|Hc].
    + by apply (prefix_subsequence q (String c t)).
    + apply GoStr.subsequence_skip. auto.
Qed.

(** The matching loop consumes the query exactly when it is a
    GoStr.subsequence of what is left of the target. *)
Lemma match_loop_left target rest i q st :
  (match_loop target rest i q st).2 = EmptyString ↔ GoStr.subsequence q rest.
Proof.
  revert i q st. induction rest as [|t rest IH]; intros i q st; simpl.
  - split; [intros ->; constructor|]. intros Hs. by inversion Hs.
  - destruct q as [|c q]; simpl.
    + split; [constructor|done].
    + destruct (Ascii.eqb_spec t c) as [->|Hne].
      * rewrite IH. symmetry. apply subsequence_cons.
      * rewrite IH. symmetry. by apply subsequence_cons_ne.
Qed.

Lemma on_match_score target i st :
  0 ≤ consecutive st →
  score st + 10 ≤ score (on_match target i st) ∧
  0 ≤ consecutive (on_match target i st).
Proof.
  intros Hc. unfold on_match.
  destruct (lastMatchIdx st =? i - 1); simpl;
    destruct ((i =? 0) || _); simpl; lia.
Qed.

Lemma match_loop_score target rest i q st :
  0 ≤ consecutive st →
  score st ≤ score (match_loop target rest i q st).1 ∧
  (q ≠ EmptyString → (match_loop target rest i q st).2 = EmptyString →
   score st + 10 ≤ score (match_loop target rest i q st).1).
Proof.
  revert i q st. induction rest as [|t rest IH]; intros i q st Hc; simpl.
  - split; [lia|]. intros Hq Hl. destruct q; done.
  - destruct q as [|c q]; simpl; [split; [lia|done]|].
    destruct (Ascii.eqb t c).
    + destruct (on_match_score target i st Hc) as [Hs Hc'].
      destruct (IH (i + 1) q (on_match target i st) Hc') as [Hle _].
      split; [lia|]. intros _ _. lia.
    + apply IH. done.
Qed.

(** The score is positive exactly for GoStr.subsequences. *)
Lemma fuzzyMatch_positive query target :
  0 < fuzzyMatch query target ↔ GoStr.subsequence query target.
Proof.
  unfold fuzzyMatch.
  destruct (String.eqb_spec query "") as [->|Hq]; [split; [constructor|lia]|].
  destruct (String.eqb_spec target "") as [->|Ht].
  { split; [lia|]. intros Hs. inversion Hs; done. }
  destruct (GoStr.Contains target query) eqn:Hc.
  { split; [intros _; by apply Contains_subsequence|].
    intros _. unfold GoStr.len. destruct (GoStr.HasPrefix target query); lia. }
  pose proof (match_loop_left target target 0 query
                {| score := 0; lastMatchIdx := -1; consecutive := 0 |}) as Hl.
  pose proof (match_loop_score target target 0 query
                {| score := 0; lastMatchIdx := -1; consecutive := 0 |}) as Hs.
  destruct (match_loop target target 0 query _) as [st unmatched].
  simpl in *. rewrite <- Hl.
  destruct (String.eqb_spec unmatched "") as [->|Hne]; simpl.
  - split; [done|]. intros _. destruct Hs as [_ Hs]; [lia|]. specialize (Hs Hq eq_refl). lia.
  - split; [lia|done].
Qed.

Context `{GoLib}.

Lemma elem_of_scored query convs conv sc :
  (conv, sc) ∈ scored query convs ↔
  conv ∈ convs ∧ sc = fuzzyMatch query (ToLower (store.Name conv)) ∧ 0 < sc.
Proof.
  unfold scored. rewrite list_elem_of_omap. split.
  - intros (c & Hin & Hsome).
    destruct (0 <? fuzzyMatch query (ToLower (store.Name c))) eqn:Hpos; [|done].
    simplify_eq. apply Z.ltb_lt in Hpos. done.
  - intros (Hin & -> & Hpos). exists conv. split; [done|].
    apply Z.ltb_lt in Hpos. by rewrite Hpos.
Qed.

Lemma filtered_elem m conv :
  searchQuery m ≠ "" →
  conv ∈ getFilteredConversations m ↔
  conv ∈ conversations m ∧
  0 < fuzzyMatch (ToLower (searchQuery m)) (ToLower (store.Name conv)).
Proof.
  intros Hq. unfold getFilteredConversations.
  destruct (String.eqb_spec (searchQuery m) "") as [|_]; [done|].
  rewrite (exchange_sort_perm snd).
  rewrite list_elem_of_fmap. split.
  - intros ([c sc] & -> & Hin). apply elem_of_scored in Hin as (? & -> & ?). done.
  - intros [Hin Hpos]. eexists (conv, _). split; [done|].
    apply elem_of_scored. done.
Qed.

Lemma encode_single_byte r :
  GoStr.single_byte r →
  GoStr.encode_rune r = String (GoStr.byte_of_Z r) EmptyString.
Proof.
  unfold GoStr.single_byte, GoStr.encode_rune. intros Hr.
  replace (r <? 0) with false by lia. replace (1114111 <? r) with false by lia.
  replace (55296 <=? r) with false by lia. replace (r <? 128) with true by lia.
  done.
Qed.

Lemma of_runes_cons r rs :
  GoStr.of_runes (r :: rs) = GoStr.encode_rune r +:+ GoStr.of_runes rs.
Proof. reflexivity. Qed.

Lemma of_runes_single_byte r rs :
  GoStr.single_byte r →
  GoStr.of_runes (r :: rs) = String (GoStr.byte_of_Z r) (GoStr.of_runes rs).
Proof. intros Hr. by rewrite of_runes_cons, (encode_single_byte r Hr). Qed.

Lemma byte_of_Z_inj r r' :
  GoStr.single_byte r → GoStr.single_byte r' →
  GoStr.byte_of_Z r = GoStr.byte_of_Z r' → r = r'.
Proof.
  unfold GoStr.single_byte, GoStr.byte_of_Z. intros Hr Hr' Hb.
  apply (f_equal N_of_ascii) in Hb.
  rewrite !N_ascii_embedding in Hb by lia. lia.
Qed.

Lemma of_runes_nil_inv rs :
  Forall GoStr.single_byte rs → GoStr.of_runes rs = "" → rs = [].
Proof.
  intros Hrs. destruct Hrs as [|r rs Hr _]; [done|].
  by rewrite of_runes_single_byte.
Qed.

(** On texts of one-byte characters, the bytes of the one occur in
    order among the bytes of the other exactly when its characters
    do. *)
Lemma subsequence_sublist rq rn :
  Forall GoStr.single_byte rq → Forall GoStr.single_byte rn →
  GoStr.subsequence (GoStr.of_runes rq) (GoStr.of_runes rn) ↔ rq `sublist_of` rn.
Proof.
  intros Hq Hn. split.
  - revert rq Hq. induction Hn as [|r rn Hr Hn IH]; intros rq Hq Hs.
    + inversion Hs as [t Hnil| |]. symmetry in Hnil.
      apply of_runes_nil_inv in Hnil; [|done]. subst. constructor.
    + destruct Hq as [|r0 rq Hr0 Hq]; [apply sublist_nil_l|].
      rewrite !of_runes_single_byte in Hs by done.
      inversion Hs as [|q b t Hs' Hq' [Hb Ht]|b q t Hs' [Hb Hq'] [Hb' Ht]]; subst.
      * apply sublist_cons. apply IH; [by constructor|].
        by rewrite of_runes_single_byte.
      * symmetry in Hb'. apply byte_of_Z_inj in Hb'; [|done..]. subst.
        apply sublist_skip. by apply IH.
  - intros Hsub. induction Hsub as [|r rq rn Hsub IH|r rq rn Hsub IH].
    + constructor.
    + inversion Hq; inversion Hn; subst.
      rewrite !of_runes_single_byte by done.
      apply GoStr.subsequence_take. by apply IH.
    + inversion Hn; subst.
      rewrite (of_runes_single_byte r rn) by done.
      apply GoStr.subsequence_skip. by apply IH.
Qed.

(** C9, as amended: with a non-empty search query, and a lowercased
    query and a lowercased name that consist of one-byte characters, a
    conversation appears in the filtered list of the contacts search if
    and only if it is in the list and every character of the lowercased
    query occurs, in order, in its lowercased name, which is the same
    as a positive fuzzy score; with an empty query the list is returned
    as it is. *)
Theorem search_filters_by_subsequence m conv (rq rn : list Z) :
  searchQuery m ≠ "" →
  ToLower (searchQuery m) = GoStr.of_runes rq → Forall GoStr.single_byte rq →
  ToLower (store.Name conv) = GoStr.of_runes rn → Forall GoStr.single_byte rn →
  (conv ∈ getFilteredConversations m ↔
   conv ∈ conversations m ∧ rq `sublist_of` rn) ∧
  (rq `sublist_of` rn ↔
   0 < fuzzyMatch (ToLower (searchQuery m)) (ToLower (store.Name conv))) ∧
  getFilteredConversations (set_search (searchMode m) "" m) = conversations m.
Proof.
  intros Hq Hrq Hsq Hrn Hsn.
  rewrite filtered_elem by done. rewrite fuzzyMatch_positive.
  rewrite Hrq, Hrn, subsequence_sublist by done. done.
Qed.
End FuzzyFacts.

(** ** The modal editor *)

Section InputFacts.
Import Input textinput.
Context `{GoLib} `{Widget}.

Lemma clamp_bounds p n : 0 ≤ n → 0 ≤ clamp p 0 n ≤ n.
Proof.
  intros Hn. unfold clamp. destruct (n <? 0) eqn:E; [lia|]. lia.
Qed.

Lemma runes_len_nonneg ti : 0 ≤ runes_len ti.
Proof. unfold runes_len. lia. Qed.

Lemma SetCursor_twice p q ti : SetCursor q (SetCursor p ti) = SetCursor q ti.
Proof. reflexivity. Qed.

Lemma moved_refl m : moved m m.
Proof. exists (lastFindChar m), (lastFindDir m). left. by destruct m. Qed.

Lemma moved_cursor p m : moved m (set_textInput (SetCursor p) m).
Proof. exists (lastFindChar m), (lastFindDir m). right. exists p. by destruct m. Qed.

Lemma moved_cursor_to o m : moved m (cursor_to o m).
Proof. destruct o; [apply moved_cursor|apply moved_refl]. Qed.

Lemma moved_trans m1 m2 m3 : moved m1 m2 → moved m2 m3 → moved m1 m3.
Proof.
  intros (c & d & H12) (c' & d' & H23). exists c', d'.
  destruct H12 as [->|[p ->]]; destruct H23 as [->|[q ->]]; eauto.
Qed.

Lemma moved_find c d m m' : moved m m' → moved m (set_lastFind c d m').
Proof.
  intros (c' & d' & Hm). exists c, d.
  destruct Hm as [->|[p ->]]; eauto.
Qed.

Lemma moved_mode m m' : moved m m' → mode m' = mode m ∧ pendingAction m' = pendingAction m.
Proof. intros (c & d & [->|[p ->]]); done. Qed.

Lemma moved_inv m m' :
  moved m m' → cursor_ok m →
  cursor_ok m' ∧
  value (textInput m') = value (textInput m) ∧
  (value (textInput m) = [] → m' = set_lastFind (lastFindChar m') (lastFindDir m') m).
Proof.
  intros (c & d & [->|[p ->]]) Hok; unfold cursor_ok in *; simpl.
  - done.
  - split; [apply clamp_bounds, runes_len_nonneg|]. split; [done|].
    intros Hv. unfold set_lastFind, set_textInput, SetCursor; simpl.
    unfold runes_len in *. rewrite Hv in *. simpl in *.
    assert (Position (textInput m) = 0) as Hp by lia.
    destruct m as [[v q f cl] ?]; simpl in *. unfold Position in Hp; simpl in Hp.
    subst.
    assert (clamp p 0 (Z.of_nat 0) = 0) as -> by (change (Z.of_nat 0) with 0; pose proof (clamp_bounds p 0); lia).
    reflexivity.
Qed.

Lemma Update_unfocused m k :
  focused m = false → mode m = ModeNormal → Input.Update m (KeyMsg k) = (m, []).
Proof. intros Hf Hm. unfold Input.Update. by rewrite Hf, Hm. Qed.

Lemma Update_focused_normal m k :
  focused m = true → mode m = ModeNormal →
  Input.Update m (KeyMsg k) = handleNormalMode m k.
Proof. intros Hf Hm. unfold Input.Update. by rewrite Hf, Hm. Qed.

Lemma handleNormalMode_pending m k :
  pendingAction m ≠ PendingNone → handleNormalMode m k = handlePendingAction m k.
Proof.
  intros Hp. unfold handleNormalMode. by rewrite bool_decide_eq_false_2.
Qed.

Ltac key_name :=
  repeat match goal with
  | |- context [tea.String_ (tea.letter ?c)] =>
      change (tea.String_ (tea.letter c)) with (String c EmptyString)
  end.

Ltac normal_key Hp :=
  unfold handleNormalMode; rewrite Hp;
  rewrite bool_decide_eq_true_2 by reflexivity;
  key_name;
  cbn [String.eqb Ascii.eqb Bool.eqb negb fst snd].

Lemma pending_roundtrip a o c d m :
  pendingAction m = PendingNone →
  set_pendingAction PendingNone
    (cursor_to o (set_lastFind c d (set_pendingAction a m)))
  = cursor_to o (set_lastFind c d m).
Proof. intros Hp. destruct m, o; simpl in *; subst; reflexivity. Qed.

Lemma pending_cancel a m :
  pendingAction m = PendingNone →
  set_pendingAction PendingNone (set_pendingAction a m) = m.
Proof. intros Hp. destruct m; simpl in *; subst; reflexivity. Qed.

(** The argument key of [f] and [F]. *)
Lemma find_forward_arg m k :
  pendingAction m = PendingNone →
  (handlePendingAction (set_pendingAction PendingFindForward m) k).1 =
  match tea.String_ k with
  | String c EmptyString =>
      if String.eqb (tea.String_ k) "esc" then m
      else cursor_to (find_forward (Value (textInput m)) c (Position (textInput m)))
             (set_lastFind c 1 m)
  | _ => m
  end.
Proof.
  intros Hp. unfold handlePendingAction.
  destruct (String.eqb (tea.String_ k) "esc") eqn:He; cbn [fst pendingAction set_pendingAction].
  - rewrite pending_cancel by done. by repeat case_match.
  - destruct (tea.String_ k) as [|c [|]]; cbn [fst];
      rewrite ?pending_cancel, ?pending_roundtrip by done; done.
Qed.

Lemma find_backward_arg m k :
  pendingAction m = PendingNone →
  (handlePendingAction (set_pendingAction PendingFindBackward m) k).1 =
  match tea.String_ k with
  | String c EmptyString =>
      if String.eqb (tea.String_ k) "esc" then m
      else cursor_to (find_backward (Value (textInput m)) c (Position (textInput m)))
             (set_lastFind c (-1) m)
  | _ => m
  end.
Proof.
  intros Hp. unfold handlePendingAction.
  destruct (String.eqb (tea.String_ k) "esc") eqn:He; cbn [fst pendingAction set_pendingAction].
  - rewrite pending_cancel by done. by repeat case_match.
  - destruct (tea.String_ k) as [|c [|]]; cbn [fst];
      rewrite ?pending_cancel, ?pending_roundtrip by done; done.
Qed.

Lemma moved_find_then_cursor c d o m : moved m (cursor_to o (set_lastFind c d m)).
Proof.
  exists c, d. destruct o as [p|]; [right; exists p|left]; by destruct m.
Qed.

(** One motion moves the cursor and nothing else (the find memory
    apart). *)
Lemma motion_moved m mo :
  mode m = ModeNormal → pendingAction m = PendingNone →
  moved m (type_keys m (keys_of mo)).
Proof.
  intros Hm Hp. unfold type_keys.
  destruct (focused m) eqn:Hf.
  2:{ destruct mo; cbn [keys_of foldl];
      repeat (rewrite (Update_unfocused m) by done; cbn [fst]); apply moved_refl. }
  destruct mo; cbn [keys_of foldl];
    rewrite (Update_focused_normal m) by done; normal_key Hp.
  - case_match; apply moved_cursor || apply moved_refl.
  - case_match; apply moved_cursor || apply moved_refl.
  - apply moved_cursor.
  - apply moved_cursor.
  - apply moved_cursor.
  - apply moved_cursor.
  - apply moved_cursor.
  - rewrite Update_focused_normal by done.
    rewrite handleNormalMode_pending by done.
    rewrite find_forward_arg by done.
    repeat case_match; apply moved_refl || apply moved_find_then_cursor.
  - rewrite Update_focused_normal by done.
    rewrite handleNormalMode_pending by done.
    rewrite find_backward_arg by done.
    repeat case_match; apply moved_refl || apply moved_find_then_cursor.
  - case_match; [|apply moved_refl]. unfold repeatFind.
    case_match; apply moved_cursor_to.
  - case_match; [|apply moved_refl]. unfold repeatFind.
    case_match; apply moved_cursor_to.
Qed.

Lemma motions_moved m mos :
  mode m = ModeNormal → pendingAction m = PendingNone →
  moved m (type_keys m (mos ≫= keys_of)).
Proof.
  revert m. induction mos as [|mo mos IH]; intros m Hm Hp.
  - apply moved_refl.
  - rewrite bind_cons. unfold type_keys. rewrite foldl_app.
    pose proof (motion_moved m mo Hm Hp) as Hstep.
    destruct (moved_mode _ _ Hstep) as [Hm' Hp'].
    eapply moved_trans; [exact Hstep|].
    apply IH; congruence.
Qed.

Lemma append_length s t :
  String.length (s +:+ t) = (String.length s + String.length t)%nat.
Proof. induction s as [|b s IH]; simpl; [done|]. by rewrite IH. Qed.

Lemma encode_rune_length r : (1 ≤ String.length (GoStr.encode_rune r))%nat.
Proof. unfold GoStr.encode_rune. repeat case_match; simpl; lia. Qed.

Lemma of_runes_length rs :
  Z.of_nat (length rs) ≤ GoStr.len (GoStr.of_runes rs).
Proof.
  unfold GoStr.len. induction rs as [|r rs IH]; simpl; [lia|].
  rewrite append_length. pose proof (encode_rune_length r). lia.
Qed.

Lemma SetCursor_empty p ti :
  value ti = [] → Position ti = 0 → SetCursor p ti = ti.
Proof.
  destruct ti as [v q f cl]. unfold Position, SetCursor, runes_len. simpl.
  intros -> ->. f_equal. unfold clamp. simpl. lia.
Qed.

Lemma cursor_empty p m :
  value (textInput m) = [] → cursor_ok m → set_textInput (SetCursor p) m = m.
Proof.
  intros Hv Hok. unfold cursor_ok, runes_len in Hok. rewrite Hv in Hok.
  simpl in Hok. destruct m as [ti d w f s mo pa c dir]. unfold set_textInput.
  simpl in *. rewrite SetCursor_empty by (done || lia). done.
Qed.

Lemma cursor_to_empty o m :
  value (textInput m) = [] → cursor_ok m → cursor_to o m = m.
Proof. intros Hv Hok. destruct o; [by apply cursor_empty|done]. Qed.

(** On an empty buffer a motion other than [f] and [F] changes
    nothing at all. *)
Lemma motion_noop_empty m mo :
  mode m = ModeNormal → pendingAction m = PendingNone → cursor_ok m →
  value (textInput m) = [] → is_find mo = false →
  type_keys m (keys_of mo) = m.
Proof.
  intros Hm Hp Hok Hv Hmo. unfold type_keys.
  destruct (focused m) eqn:Hf.
  2:{ destruct mo; cbn [keys_of foldl];
      repeat (rewrite (Update_unfocused m) by done; cbn [fst]); done. }
  destruct mo; try discriminate Hmo; cbn [keys_of foldl];
    rewrite (Update_focused_normal m) by done; normal_key Hp;
    unfold moveToNextWord, moveToPrevWord, moveToEndOfWord, repeatFind;
    repeat case_match; try done;
    try (by apply cursor_empty); by apply cursor_to_empty.
Qed.

Lemma motions_noop_empty m mos :
  mode m = ModeNormal → pendingAction m = PendingNone → cursor_ok m →
  value (textInput m) = [] → Forall (λ mo, is_find mo = false) mos →
  type_keys m (mos ≫= keys_of) = m.
Proof.
  intros Hm Hp Hok Hv Hmos.
  induction Hmos as [|mo mos Hmo _ IH]; [done|].
  rewrite bind_cons. unfold type_keys in *. rewrite foldl_app.
  pose proof (motion_noop_empty m mo Hm Hp Hok Hv Hmo) as Hstep.
  unfold type_keys in Hstep. by rewrite Hstep.
Qed.

Lemma Value_empty m : Input.Value m = "" → value (textInput m) = [].
Proof.
  unfold Input.Value, Value. destruct (value (textInput m)) as [|r rs]; [done|].
  simpl. pose proof (encode_rune_length r).
  destruct (GoStr.encode_rune r); simpl in *; [lia|done].
Qed.

(** C4, as amended: from an editor in Normal mode with nothing pending
    and the cursor offset within [0, len(buffer)], every sequence of
    the motions h, l, w, b, e, 0, $, f and F with their argument, ; and
    , leaves the cursor offset within [0, len(buffer)] (within the
    number of runes, which is at most the number of bytes) and the
    buffer as it was.  On an empty buffer such a sequence leaves the
    editor as it was except for the find memory, which f and F
    overwrite; a sequence without f and F is a no-op. *)
Theorem motions_keep_cursor_in_bounds m (mos : list Motion) :
  mode m = ModeNormal → pendingAction m = PendingNone → cursor_ok m →
  let m' := type_keys m (mos ≫= keys_of) in
  (0 ≤ Position (textInput m') ≤ runes_len (textInput m') ∧
   runes_len (textInput m') ≤ GoStr.len (Input.Value m')) ∧
  Input.Value m' = Input.Value m ∧
  (Input.Value m = "" →
   m' = set_lastFind (lastFindChar m') (lastFindDir m') m ∧
   (Forall (λ mo, is_find mo = false) mos → m' = m)).
Proof.
  intros Hm Hp Hok m'.
  destruct (moved_inv m m' (motions_moved m mos Hm Hp) Hok) as (Hok' & Hv & Hnoop).
  split; [split; [exact Hok'|apply of_runes_length]|].
  split; [unfold Input.Value, Value; by rewrite Hv|].
  intros He. apply Value_empty in He. split; [by apply Hnoop|].
  intros Hmos. by apply motions_noop_empty.
Qed.

Lemma get_drop n k s : String.get n (GoStr.drop k s) = String.get (k + n) s.
Proof.
  revert s. induction k as [|k IH]; intros s; [done|].
  destruct s as [|b s]; simpl; [by destruct n|]. apply IH.
Qed.

Lemma get_Some_lt n s b : String.get n s = Some b → (n < String.length s)%nat.
Proof.
  revert n. induction s as [|a s IH]; intros n; simpl; [done|].
  destruct n; [lia|]. intros Hg. apply IH in Hg. lia.
Qed.

Lemma get_lt_Some n s : (n < String.length s)%nat → ∃ b, String.get n s = Some b.
Proof.
  revert n. induction s as [|a s IH]; intros n; simpl; [lia|].
  destruct n; [eauto|]. intros Hn. apply IH. lia.
Qed.

Lemma index_from_spec c rest i :
  match index_from c rest i with
  | Some k =>
      i ≤ k ∧ String.get (Z.to_nat (k - i)) rest = Some c ∧
      ∀ j, i ≤ j < k → String.get (Z.to_nat (j - i)) rest ≠ Some c
  | None => ∀ j, i ≤ j → String.get (Z.to_nat (j - i)) rest ≠ Some c
  end.
Proof.
  revert i. induction rest as [|b rest IH]; intros i; simpl; [done|].
  destruct (Ascii.eqb_spec b c) as [->|Hne].
  - split; [lia|]. split; [by rewrite Z.sub_diag|]. intros j Hj. lia.
  - specialize (IH (i + 1)). destruct (index_from c rest (i + 1)) as [k|].
    + destruct IH as (Hk & Hget & Hmin). split; [lia|]. split.
      * replace (Z.to_nat (k - i)) with (S (Z.to_nat (k - (i + 1)))) by lia. done.
      * intros j Hj. destruct (decide (j = i)) as [->|].
        { rewrite Z.sub_diag. simpl. congruence. }
        replace (Z.to_nat (j - i)) with (S (Z.to_nat (j - (i + 1)))) by lia.
        apply Hmin. lia.
    + intros j Hj. destruct (decide (j = i)) as [->|].
      { rewrite Z.sub_diag. simpl. congruence. }
      replace (Z.to_nat (j - i)) with (S (Z.to_nat (j - (i + 1)))) by lia.
      apply IH. lia.
Qed.

Lemma byte_at_get val j : 0 ≤ j → GoStr.byte_at val j = String.get (Z.to_nat j) val.
Proof. intros Hj. unfold GoStr.byte_at. destruct (j <? 0) eqn:E; [lia|done]. Qed.

Lemma find_forward_spec val c pos :
  0 ≤ pos →
  match find_forward val c pos with
  | Some i => next_occurrence val c pos i
  | None => no_occurrence_after val c pos
  end.
Proof.
  intros Hpos. unfold find_forward, GoStr.slice_from.
  pose proof (index_from_spec c (GoStr.drop (Z.to_nat (pos + 1)) val) (pos + 1)) as Hs.
  destruct (index_from c _ (pos + 1)) as [k|].
  - destruct Hs as (Hk & Hget & Hmin). split; [lia|]. split.
    + rewrite byte_at_get by lia. rewrite get_drop in Hget.
      replace (Z.to_nat k) with (Z.to_nat (pos + 1) + Z.to_nat (k - (pos + 1)))%nat by lia.
      done.
    + intros j Hj. rewrite byte_at_get by lia.
      specialize (Hmin j). rewrite get_drop in Hmin.
      replace (Z.to_nat j) with (Z.to_nat (pos + 1) + Z.to_nat (j - (pos + 1)))%nat by lia.
      apply Hmin. lia.
  - intros j Hj. rewrite byte_at_get by lia.
    specialize (Hs j). rewrite get_drop in Hs.
    replace (Z.to_nat j) with (Z.to_nat (pos + 1) + Z.to_nat (j - (pos + 1)))%nat by lia.
    apply Hs. lia.
Qed.

Lemma rindex_below_spec c val n :
  (n ≤ String.length val)%nat →
  match rindex_below c val n with
  | Some i => prev_occurrence val c (Z.of_nat n) i
  | None => no_occurrence_before val c (Z.of_nat n)
  end.
Proof.
  induction n as [|n IH]; intros Hn; simpl rindex_below.
  - intros j Hj. lia.
  - destruct (get_lt_Some n val) as [b Hb]; [lia|]. rewrite Hb.
    destruct (Ascii.eqb_spec b c) as [->|Hne].
    + split; [lia|]. split; [by rewrite byte_at_get, Nat2Z.id by lia|].
      intros j Hj. lia.
    + specialize (IH ltac:(lia)).
      assert (GoStr.byte_at val (Z.of_nat n) ≠ Some c) as Hn'.
      { rewrite byte_at_get, Nat2Z.id by lia. congruence. }
      destruct (rindex_below c val n) as [i|].
      * destruct IH as (Hi & Hget & Hmin). split; [lia|]. split; [done|].
        intros j Hj. destruct (decide (j = Z.of_nat n)) as [->|]; [done|].
        apply Hmin. lia.
      * intros j Hj. destruct (decide (j = Z.of_nat n)) as [->|]; [done|].
        apply IH. lia.
Qed.

Lemma find_backward_spec val c pos :
  0 ≤ pos ≤ GoStr.len val →
  match find_backward val c pos with
  | Some i => prev_occurrence val c pos i
  | None => no_occurrence_before val c pos
  end.
Proof.
  intros Hpos. unfold find_backward.
  pose proof (rindex_below_spec c val (Z.to_nat pos)) as Hs.
  rewrite Z2Nat.id in Hs by lia. apply Hs. unfold GoStr.len in Hpos. lia.
Qed.

Lemma next_occurrence_unique val c pos i i' :
  next_occurrence val c pos i → next_occurrence val c pos i' → i = i'.
Proof.
  intros (Hi & Hg & Hm) (Hi' & Hg' & Hm').
  destruct (Z.lt_trichotomy i i') as [Hlt|[->|Hlt]]; [|done|].
  - exfalso. apply (Hm' i); [lia|done].
  - exfalso. apply (Hm i'); [lia|done].
Qed.

Lemma prev_occurrence_unique val c pos i i' :
  prev_occurrence val c pos i → prev_occurrence val c pos i' → i = i'.
Proof.
  intros (Hi & Hg & Hm) (Hi' & Hg' & Hm').
  destruct (Z.lt_trichotomy i i') as [Hlt|[->|Hlt]]; [|done|].
  - exfalso. apply (Hm i'); [lia|done].
  - exfalso. apply (Hm' i); [lia|done].
Qed.

Lemma single_byte_length rs :
  Forall GoStr.single_byte rs → GoStr.len (GoStr.of_runes rs) = Z.of_nat (length rs).
Proof.
  unfold GoStr.len. induction 1 as [|r rs Hr _ IH]; simpl; [done|].
  rewrite append_length. unfold GoStr.single_byte in Hr.
  unfold GoStr.encode_rune.
  replace (r <? 0) with false by lia. replace (1114111 <? r) with false by lia.
  replace (55296 <=? r) with false by lia. replace (r <? 128) with true by lia.
  simpl. lia.
Qed.

Lemma clamp_id i n : 0 ≤ i ≤ n → clamp i 0 n = i.
Proof. intros Hi. unfold clamp. destruct (n <? 0) eqn:E; lia. Qed.

Lemma byte_at_Some_lt val i b : GoStr.byte_at val i = Some b → 0 ≤ i < GoStr.len val.
Proof.
  unfold GoStr.byte_at, GoStr.len. destruct (i <? 0) eqn:E; [done|].
  intros Hg%get_Some_lt. lia.
Qed.

(** Where the forward search leaves the cursor. *)
Lemma cursor_to_forward m m0 c :
  textInput m0 = textInput m → cursor_ok m →
  Forall GoStr.single_byte (value (textInput m)) →
  let val := Input.Value m in
  let pos := Position (textInput m) in
  let m' := cursor_to (find_forward val c pos) m0 in
  (∀ i, next_occurrence val c pos i → Position (textInput m') = i) ∧
  (no_occurrence_after val c pos → Position (textInput m') = pos) ∧
  Input.Value m' = val.
Proof.
  intros Hti Hok Hsb val pos m'. subst m'.
  pose proof (find_forward_spec val c pos (proj1 Hok)) as Hs.
  destruct (find_forward val c pos) as [k|]; cbn [cursor_to].
  - split; [|split].
    + intros i Hi. rewrite (next_occurrence_unique _ _ _ _ _ Hi Hs).
      unfold Position; simpl. rewrite Hti. apply clamp_id.
      destruct Hs as (? & Hg%byte_at_Some_lt & _).
      subst val. unfold Input.Value, Value in Hg.
      rewrite single_byte_length in Hg by done.
      unfold cursor_ok in Hok. subst pos. unfold runes_len. lia.
    + intros Hno. destruct Hs as (? & Hg & _). by apply Hno in Hg.
    + subst val. unfold Input.Value. simpl. by rewrite Hti.
  - split; [|split].
    + intros i (? & Hg & _). by apply Hs in Hg.
    + subst pos. by rewrite Hti.
    + subst val. unfold Input.Value. by rewrite Hti.
Qed.

(** Where the backward search leaves the cursor. *)
Lemma cursor_to_backward m m0 c :
  textInput m0 = textInput m → cursor_ok m →
  Forall GoStr.single_byte (value (textInput m)) →
  let val := Input.Value m in
  let pos := Position (textInput m) in
  let m' := cursor_to (find_backward val c pos) m0 in
  (∀ i, prev_occurrence val c pos i → Position (textInput m') = i) ∧
  (no_occurrence_before val c pos → Position (textInput m') = pos) ∧
  Input.Value m' = val.
Proof.
  intros Hti Hok Hsb val pos m'. subst m'.
  assert (0 ≤ pos ≤ GoStr.len val) as Hpos.
  { subst val. unfold Input.Value, Value. rewrite single_byte_length by done.
    exact Hok. }
  pose proof (find_backward_spec val c pos Hpos) as Hs.
  destruct (find_backward val c pos) as [k|]; cbn [cursor_to].
  - split; [|split].
    + intros i Hi. rewrite (prev_occurrence_unique _ _ _ _ _ Hi Hs).
      unfold Position; simpl. rewrite Hti. apply clamp_id.
      destruct Hs as (Hk & _). unfold cursor_ok in Hok. subst pos. lia.
    + intros Hno. destruct Hs as (? & Hg & _). by apply Hno in Hg.
    + subst val. unfold Input.Value. simpl. by rewrite Hti.
  - split; [|split].
    + intros i (? & Hg & _). by apply Hs in Hg.
    + subst pos. by rewrite Hti.
    + subst val. unfold Input.Value. by rewrite Hti.
Qed.

Lemma single_key_not_esc c : String.eqb (String c EmptyString) "esc" = false.
Proof. simpl. by destruct (Ascii.eqb c "e"). Qed.

(** C2, as amended: on a buffer of one-byte characters, in Normal
    mode, [f c] moves the cursor to the next occurrence of [c] after
    it and [F c] to the previous occurrence before it; without such
    an occurrence the cursor stays.  Found or not, [c] and the
    direction replace the remembered find, so a [,] that follows
    [f c] looks for [c] backwards from where the cursor then is. *)
Theorem find_moves_and_remembers m k c :
  focused m = true → mode m = ModeNormal → pendingAction m = PendingNone →
  cursor_ok m → Forall GoStr.single_byte (value (textInput m)) →
  tea.String_ k = String c EmptyString →
  let val := Input.Value m in
  let pos := Position (textInput m) in
  let mf := type_keys m [tea.letter "f"; k] in
  let mF := type_keys m [tea.letter "F"; k] in
  let mc := type_keys mf [tea.letter ","] in
  ((∀ i, next_occurrence val c pos i → Position (textInput mf) = i) ∧
   (no_occurrence_after val c pos → Position (textInput mf) = pos) ∧
   Input.Value mf = val ∧ lastFindChar mf = c ∧ lastFindDir mf = 1) ∧
  ((∀ i, prev_occurrence val c pos i → Position (textInput mF) = i) ∧
   (no_occurrence_before val c pos → Position (textInput mF) = pos) ∧
   Input.Value mF = val ∧ lastFindChar mF = c ∧ lastFindDir mF = -1) ∧
  (c ≠ Ascii.zero →
   (∀ i, prev_occurrence val c (Position (textInput mf)) i →
         Position (textInput mc) = i) ∧
   (no_occurrence_before val c (Position (textInput mf)) →
    Position (textInput mc) = Position (textInput mf))).
Proof.
  intros Hf Hm Hp Hok Hsb Hk val pos mf mF mc.
  assert (mf = cursor_to (find_forward val c pos) (set_lastFind c 1 m)) as Hmf.
  { subst mf. unfold type_keys. cbn [foldl].
    rewrite (Update_focused_normal m) by done. normal_key Hp.
    rewrite Update_focused_normal by done.
    rewrite handleNormalMode_pending by done.
    rewrite find_forward_arg by done.
    rewrite Hk, single_key_not_esc. done. }
  assert (mF = cursor_to (find_backward val c pos) (set_lastFind c (-1) m)) as HmF.
  { subst mF. unfold type_keys. cbn [foldl].
    rewrite (Update_focused_normal m) by done. normal_key Hp.
    rewrite Update_focused_normal by done.
    rewrite handleNormalMode_pending by done.
    rewrite find_backward_arg by done.
    rewrite Hk, single_key_not_esc. done. }
  destruct (cursor_to_forward m (set_lastFind c 1 m) c eq_refl Hok Hsb)
    as (Hf1 & Hf2 & Hf3).
  destruct (cursor_to_backward m (set_lastFind c (-1) m) c eq_refl Hok Hsb)
    as (Hb1 & Hb2 & Hb3).
  fold val pos in Hf1, Hf2, Hf3, Hb1, Hb2, Hb3.
  rewrite <- Hmf in Hf1, Hf2, Hf3. rewrite <- HmF in Hb1, Hb2, Hb3.
  assert (lastFindChar mf = c ∧ lastFindDir mf = 1) as [Hc Hd].
  { rewrite Hmf. by destruct (find_forward val c pos). }
  assert (lastFindChar mF = c ∧ lastFindDir mF = -1) as [Hc' Hd'].
  { rewrite HmF. by destruct (find_backward val c pos). }
  split; [done|]. split; [done|].
  intros Hnz.
  assert (moved m mf) as Hmv by (rewrite Hmf; apply moved_find_then_cursor).
  destruct (moved_mode _ _ Hmv) as [Hm' Hp'].
  destruct (moved_inv _ _ Hmv Hok) as (Hok' & Hv' & _).
  assert (focused mf = true) as Hf'.
  { rewrite Hmf. by destruct (find_forward val c pos). }
  assert (mc = cursor_to (find_backward (Input.Value mf) c (Position (textInput mf))) mf)
    as Hmc.
  { subst mc. unfold type_keys. cbn [foldl].
    rewrite (Update_focused_normal mf) by congruence.
    rewrite Hm in Hm'. rewrite Hp in Hp'. normal_key Hp'.
    rewrite Hc, Hd.
    destruct (Ascii.eqb_spec c Ascii.zero) as [|_]; [done|].
    cbn [negb fst]. unfold repeatFind. rewrite Hc. done. }
  destruct (cursor_to_backward mf mf c eq_refl Hok') as (Hc1 & Hc2 & _).
  { by rewrite Hv'. }
  rewrite <- Hmc, Hf3 in Hc1, Hc2. done.
Qed.

(** C5: in Normal mode with nothing pending, whatever the buffer and
    the cursor position, [dd] leaves the buffer empty and [cc] leaves
    the buffer empty and the editor in Insert mode (both clear the
    draft as well). *)
Theorem dd_cc_clear_line m :
  focused m = true → mode m = ModeNormal → pendingAction m = PendingNone →
  let md := type_keys m [tea.letter "d"; tea.letter "d"] in
  let mc := type_keys m [tea.letter "c"; tea.letter "c"] in
  (Input.Value md = "" ∧ draftContent md = "" ∧ mode md = ModeNormal ∧
   pendingAction md = PendingNone) ∧
  (Input.Value mc = "" ∧ draftContent mc = "" ∧ mode mc = ModeInsert ∧
   pendingAction mc = PendingNone).
Proof.
  intros Hf Hm Hp md mc. subst md mc. unfold type_keys. cbn [foldl].
  rewrite !(Update_focused_normal m) by done. normal_key Hp.
  rewrite !Update_focused_normal by done.
  rewrite !handleNormalMode_pending by done.
  unfold handlePendingAction. key_name.
  cbn [String.eqb Ascii.eqb Bool.eqb negb orb fst snd pendingAction set_pendingAction].
  done.
Qed.

Lemma Update_enter m :
  focused m = true → (mode m = ModeNormal → pendingAction m = PendingNone) →
  Input.Update m (KeyMsg (tea.press tea.KeyEnter)) = sendOnEnter m.
Proof.
  intros Hf Hp. unfold Input.Update. rewrite Hf.
  destruct (mode m) eqn:Hm; simpl; [done|].
  specialize (Hp eq_refl). unfold handleNormalMode. rewrite Hp. done.
Qed.

Lemma submitted_cleared m :
  draftContent (submitted m) = "" ∧ Input.Value (submitted m) = "" ∧
  sending (submitted m) = true.
Proof. done. Qed.

(** C3, as amended: for a focused editor that is in Insert mode, or
    in Normal mode with no pending action, Enter submits the draft
    trimmed of surrounding whitespace if that is not empty, otherwise
    the single-line buffer trimmed of surrounding whitespace if that
    is not empty, and otherwise nothing; when something is submitted,
    the draft and the buffer are cleared and the sending indicator is
    set.  A draft handed over whole by [SetValue] that has no
    surrounding whitespace is submitted as it is, not as its
    preview. *)
Theorem enter_submits_trimmed_draft m :
  focused m = true → (mode m = ModeNormal → pendingAction m = PendingNone) →
  Input.Update m (KeyMsg (tea.press tea.KeyEnter)) =
    (if String.eqb (submission m) "" then (m, [])
     else (submitted m, [CmdMsg (SendMessageMsg (submission m))])) ∧
  (draftContent (submitted m) = "" ∧ Input.Value (submitted m) = "" ∧
   sending (submitted m) = true) ∧
  (∀ v, TrimSpace v = v → v ≠ "" →
     Input.Update (Input.SetValue v m) (KeyMsg (tea.press tea.KeyEnter)) =
       (submitted (Input.SetValue v m), [CmdMsg (SendMessageMsg v)])).
Proof.
  intros Hf Hp.
  assert (∀ m0, focused m0 = true →
                (mode m0 = ModeNormal → pendingAction m0 = PendingNone) →
                Input.Update m0 (KeyMsg (tea.press tea.KeyEnter)) =
                (if String.eqb (submission m0) "" then (m0, [])
                 else (submitted m0, [CmdMsg (SendMessageMsg (submission m0))])))
    as Hsend.
  { intros m0 Hf0 Hp0. rewrite Update_enter by done.
    unfold sendOnEnter, submission, submitted, Input.Value.
    by destruct (String.eqb (if String.eqb _ "" then _ else _) ""). }
  split; [by apply Hsend|]. split; [apply submitted_cleared|].
  intros v Htrim Hv.
  assert (draftContent (Input.SetValue v m) = v) as Hd.
  { unfold Input.SetValue. by case_match. }
  assert (submission (Input.SetValue v m) = v) as Hsub.
  { unfold submission. rewrite Hd, Htrim.
    by destruct (String.eqb_spec v ""). }
  rewrite Hsend.
  - rewrite Hsub. by destruct (String.eqb_spec v "").
  - unfold Input.SetValue. by case_match.
  - unfold Input.SetValue. by case_match.
Qed.
End InputFacts.

(** ** The session loop and the panel controller *)

Section AppFacts.
Import App.
Context `{GoLib} `{textinput.Widget}.

Lemma updateFocused_frame a msg cmds :
  let a' := (updateFocused a msg cmds).1 in
  state a' = state a ∧ statusMsg a' = statusMsg a ∧ err a' = err a ∧
  focusedPanel a' = focusedPanel a ∧ leaderKeyPressed a' = leaderKeyPressed a ∧
  cfg a' = cfg a ∧ keyMap a' = keyMap a.
Proof.
  unfold updateFocused. repeat case_match; simpl; done.
Qed.







(** C7: with an empty active-conversation id, [sendMessage] returns
    no command (no network call is started), sets the status line to
    the "select a conversation" message and resets the sending
    indicator; handling the send request in [Update] issues no send
    command either. *)
Theorem send_without_conversation a content :
  activeConversationID a = "" →
  (sendMessage content a).2 = [] ∧
  statusMsg (sendMessage content a).1 =
    "Select a conversation first! (Enter in contacts)" ∧
  Input.sending (input (sendMessage content a).1) = false ∧
  (∀ id c, CmdSendMessage id c ∉ (Update a (SendMessageMsg content)).2).
Proof.
  intros Hid. unfold sendMessage. rewrite Hid. simpl.
  split; [done|]. split; [done|]. split; [done|].
  intros id c. unfold Update. cbn [dispatch]. unfold sendMessage. rewrite Hid. simpl.
  unfold updateFocused. repeat case_match; simpl; try apply not_elem_of_nil.
  - apply not_elem_of_cons. split; [done|apply not_elem_of_nil].
  - simplify_eq. unfold Input.Update in *. simpl in *.
    repeat case_match; simplify_eq; simpl; try apply not_elem_of_nil.
    intros (x & Hx & _)%list_elem_of_fmap. done.
Qed.

Lemma cycleFocus_panel d a :
  focusedPanel (cycleFocus d a) = Z.rem (focusedPanel a + d + 3) 3.
Proof. unfold cycleFocus, focus_current. simpl. repeat case_match; done. Qed.

Lemma focus_flags_after p a :
  is_panel p →
  focus_flags (focus_current (set_focusedPanel p (unfocus_all a))) =
  (p =? PanelContacts, p =? PanelMessages, p =? PanelInput).
Proof. intros [-> | [-> | ->]]; reflexivity. Qed.

Lemma cycleFocus_flags d a :
  is_panel (focusedPanel (cycleFocus d a)) →
  focus_flags (cycleFocus d a) =
  (focusedPanel (cycleFocus d a) =? PanelContacts,
   focusedPanel (cycleFocus d a) =? PanelMessages,
   focusedPanel (cycleFocus d a) =? PanelInput).
Proof.
  rewrite cycleFocus_panel. intros Hp.
  change (cycleFocus d a) with
    (focus_current (set_focusedPanel (Z.rem (focusedPanel a + d + 3) 3) (unfocus_all a))).
  by apply focus_flags_after.
Qed.

(** C8: from each of the three panels, [cycleFocus(+1)] applied
    three times comes back to the panel it started from, and
    [cycleFocus(+1)] followed by [cycleFocus(-1)] does too; in both
    cases exactly that panel carries the focus flag afterwards. *)
Theorem cycleFocus_cyclic a :
  is_panel (focusedPanel a) →
  let a3 := cycleFocus 1 (cycleFocus 1 (cycleFocus 1 a)) in
  let a0 := cycleFocus (-1) (cycleFocus 1 a) in
  (focusedPanel a3 = focusedPanel a ∧
   focus_flags a3 = (focusedPanel a =? PanelContacts,
                     focusedPanel a =? PanelMessages,
                     focusedPanel a =? PanelInput)) ∧
  (focusedPanel a0 = focusedPanel a ∧
   focus_flags a0 = (focusedPanel a =? PanelContacts,
                     focusedPanel a =? PanelMessages,
                     focusedPanel a =? PanelInput)).
Proof.
  intros Hp a3 a0.
  assert (focusedPanel a3 = focusedPanel a) as H3.
  { subst a3. rewrite !cycleFocus_panel. destruct Hp as [-> | [-> | ->]]; reflexivity. }
  assert (focusedPanel a0 = focusedPanel a) as H0'.
  { subst a0. rewrite !cycleFocus_panel. destruct Hp as [-> | [-> | ->]]; reflexivity. }
  split; (split; [done|]).
  - rewrite <- H3. apply cycleFocus_flags. fold a3. by rewrite H3.
  - rewrite <- H0'. apply cycleFocus_flags. fold a0. by rewrite H0'.
Qed.

Lemma handleConnectedInput_frame a k :
  let a' := (handleConnectedInput a k).1 in
  focusedPanel a' = focusedPanel a ∧ leaderKeyPressed a' = leaderKeyPressed a ∧
  cfg a' = cfg a ∧ keyMap a' = keyMap a.
Proof. unfold handleConnectedInput. repeat case_match; simpl; done. Qed.

(** A key that is handled without a pending chord and is not bound
    to panel cycling leaves the focus where it is. *)
Lemma plain_key_keeps_focus a k :
  leaderKeyPressed a = false → cycles a k = false →
  let a' := (Update a (KeyMsg k)).1 in
  focusedPanel a' = focusedPanel a ∧ cfg a' = cfg a ∧ keyMap a' = keyMap a ∧
  (matchesLeaderKey a k = false → leaderKeyPressed a' = false).
Proof.
  intros Hl Hc. unfold cycles in Hc. apply orb_false_iff in Hc as [Ht Hs].
  unfold Update. cbn [dispatch]. unfold onKey. rewrite Hl. unfold normalKey.
  rewrite Ht, Hs.
  destruct (matchesLeaderKey a k); [simpl; done|].
  pose proof (handleConnectedInput_frame a k) as Hci.
  destruct (handleConnectedInput a k) as [a1 c1]. simpl in Hci.
  destruct Hci as (Hc1 & Hc2 & Hc3 & Hc4).
  pose proof (updateFocused_frame a (KeyMsg k) []) as Hu0.
  pose proof (updateFocused_frame a1 (KeyMsg k) c1) as Hu1.
  simpl in Hu0, Hu1.
  destruct Hu0 as (_ & _ & _ & ? & ? & ? & ?).
  destruct Hu1 as (_ & _ & _ & ? & ? & ? & ?).
  repeat case_match; simplify_eq; simpl; repeat split; try done; try congruence.
Qed.

(** After the leader key, a key that the chord table does not map is
    handled as the same key pressed with no chord pending. *)
Lemma unmapped_key_is_plain_key a k :
  leaderKeyPressed a = true → unmapped a k →
  Update a (KeyMsg k) = Update (set_leaderKeyPressed false a) (KeyMsg k).
Proof.
  intros Hl (Hesc & Hr & Hq & Hc & Hm & Hi).
  unfold Update. cbn [dispatch]. unfold onKey. rewrite Hl.
  cbn [leaderKeyPressed set_leaderKeyPressed].
  rewrite (proj2 (String.eqb_neq _ _) Hesc).
  unfold handleLeaderKey. cbn [cfg set_leaderKeyPressed].
  rewrite (proj2 (String.eqb_neq _ _) Hr), (proj2 (String.eqb_neq _ _) Hq).
  unfold handleLeaderNavigation. cbn [cfg set_leaderKeyPressed].
  rewrite (proj2 (String.eqb_neq _ _) Hc), (proj2 (String.eqb_neq _ _) Hm),
    (proj2 (String.eqb_neq _ _) Hi).
  done.
Qed.

(** A key that is handled without a pending chord and is not the
    leader key leaves no chord pending. *)
Lemma plain_key_leaves_no_chord a k :
  leaderKeyPressed a = false → matchesLeaderKey a k = false →
  leaderKeyPressed (Update a (KeyMsg k)).1 = false.
Proof.
  intros Hl Hk. unfold Update. cbn [dispatch]. unfold onKey. rewrite Hl.
  unfold normalKey. rewrite Hk.
  pose proof (handleConnectedInput_frame a k) as (_ & Hci & _).
  destruct (handleConnectedInput a k) as [a1 c1]. cbn [fst] in Hci.
  pose proof (updateFocused_frame a (KeyMsg k) []) as (_ & _ & _ & _ & Hu0 & _).
  pose proof (updateFocused_frame a1 (KeyMsg k) c1) as (_ & _ & _ & _ & Hu1 & _).
  assert (leaderKeyPressed (cycleFocus 1 a) = leaderKeyPressed a ∧
          leaderKeyPressed (cycleFocus (-1) a) = leaderKeyPressed a) as [Hc1 Hc2].
  { unfold cycleFocus, focus_current. split; repeat case_match; done. }
  repeat case_match; simplify_eq; cbn [fst]; try done; congruence.
Qed.

(** The chord is still pending after the key that follows the leader
    key only if that key is not mapped by the chord and is the leader
    key itself. *)
Lemma chord_pending_after a k :
  leaderKeyPressed a = true →
  leaderKeyPressed (Update a (KeyMsg k)).1 = true ↔
  unmapped a k ∧ matchesLeaderKey a k = true.
Proof.
  intros Hl. destruct (matchesLeaderKey a k) eqn:Hk.
  - split.
    + intros Hp. split; [|done]. unfold Update in Hp. cbn [dispatch] in Hp.
      unfold onKey in Hp. rewrite Hl in Hp. unfold unmapped. cbv zeta.
      destruct (String.eqb_spec (tea.String_ k) "esc") as [He|He]; [done|].
      unfold handleLeaderKey in Hp. cbn [cfg set_leaderKeyPressed] in Hp.
      destruct (String.eqb_spec (tea.String_ k) "r") as [Hr|Hr]; [done|].
      destruct (String.eqb_spec (tea.String_ k)
                  (config.Quit (config.Global (config.Keybinds (cfg a)))))
        as [Hq|Hq]; [done|].
      unfold handleLeaderNavigation in Hp. cbn [cfg set_leaderKeyPressed] in Hp.
      destruct (String.eqb_spec (tea.String_ k)
                  (config.Conversations (config.Navigation (config.Keybinds (cfg a)))))
        as [Hc|Hc]; [done|].
      destruct (String.eqb_spec (tea.String_ k)
                  (config.Messages (config.Navigation (config.Keybinds (cfg a)))))
        as [Hm|Hm]; [done|].
      destruct (String.eqb_spec (tea.String_ k)
                  (config.Input (config.Navigation (config.Keybinds (cfg a)))))
        as [Hi|Hi]; [done|].
      done.
    + intros [Hun _]. rewrite (unmapped_key_is_plain_key a k Hl Hun).
      unfold Update. cbn [dispatch]. unfold onKey.
      cbn [leaderKeyPressed set_leaderKeyPressed]. unfold normalKey.
      change (matchesLeaderKey (set_leaderKeyPressed false a) k)
        with (matchesLeaderKey a k). by rewrite Hk.
  - split; [|intros [_ ?]; done]. intros Hp. exfalso.
    assert (leaderKeyPressed (Update a (KeyMsg k)).1 = false) as Hno; [|congruence].
    clear Hp. destruct (decide (unmapped a k)) as [Hun|Hun].
    { rewrite (unmapped_key_is_plain_key a k Hl Hun).
      by apply plain_key_leaves_no_chord. }
    unfold Update. cbn [dispatch]. unfold onKey. rewrite Hl.
    destruct (String.eqb_spec (tea.String_ k) "esc") as [He|He]; [done|].
    unfold handleLeaderKey. cbn [cfg set_leaderKeyPressed].
    destruct (String.eqb_spec (tea.String_ k) "r") as [Hr|Hr]; [done|].
    destruct (String.eqb_spec (tea.String_ k)
                (config.Quit (config.Global (config.Keybinds (cfg a)))))
      as [Hq|Hq]; [done|].
    unfold handleLeaderNavigation. cbn [cfg set_leaderKeyPressed].
    destruct (String.eqb_spec (tea.String_ k)
                (config.Conversations (config.Navigation (config.Keybinds (cfg a)))))
      as [Hc|Hc]; [done|].
    destruct (String.eqb_spec (tea.String_ k)
                (config.Messages (config.Navigation (config.Keybinds (cfg a)))))
      as [Hm|Hm]; [done|].
    destruct (String.eqb_spec (tea.String_ k)
                (config.Input (config.Navigation (config.Keybinds (cfg a)))))
      as [Hi|Hi]; [done|].
    exfalso. apply Hun. unfold unmapped. done.
Qed.

(** C1, as amended: when a chord is pending, the next key ends it,
    unless that key is not mapped by the chord and is the leader key
    itself, which starts it again.  A key that the chord does not map
    is handled exactly as that key pressed with no chord pending.  If
    it is neither the leader key nor a key bound to panel cycling, the
    focus is where it was afterwards, and a following key not bound to
    panel cycling (a navigation key, say) leaves the focus there
    too. *)
Theorem leader_then_unmapped_key a k2 k3 :
  leaderKeyPressed a = true →
  let a2 := (Update a (KeyMsg k2)).1 in
  let a3 := (Update a2 (KeyMsg k3)).1 in
  (leaderKeyPressed a2 = true ↔ unmapped a k2 ∧ matchesLeaderKey a k2 = true) ∧
  (unmapped a k2 →
   Update a (KeyMsg k2) = Update (set_leaderKeyPressed false a) (KeyMsg k2) ∧
   (matchesLeaderKey a k2 = false → cycles a k2 = false →
    leaderKeyPressed a2 = false ∧
    focusedPanel a2 = focusedPanel a ∧
    (cycles a k3 = false → focusedPanel a3 = focusedPanel a))).
Proof.
  intros Hl a2 a3.
  split; [by apply chord_pending_after|].
  intros Hun.
  pose proof (unmapped_key_is_plain_key a k2 Hl Hun) as Hplain.
  split; [done|]. intros Hnl Hc2.
  destruct (plain_key_keeps_focus (set_leaderKeyPressed false a) k2 eq_refl Hc2)
    as (Hf2 & Hcfg & Hkm & Hl2).
  rewrite <- Hplain in Hf2, Hcfg, Hkm, Hl2. fold a2 in Hf2, Hcfg, Hkm, Hl2.
  specialize (Hl2 Hnl). simpl in Hf2, Hkm.
  split; [done|]. split; [done|]. intros Hc3.
  destruct (plain_key_keeps_focus a2 k3 Hl2) as (Hf3 & _).
  { unfold cycles in *. by rewrite Hkm. }
  fold a3 in Hf3. congruence.
Qed.
End AppFacts.

(** ** The lists of conversations and of messages *)

Section ListFacts.
Context `{GoLib}.

(** X1: whatever message the conversation list handles, a selection
    that lies in the list and inside the window of visible rows still
    does so afterwards; the list itself and the number of visible rows
    are not touched. *)
Theorem contacts_update_keeps_selection m msg :
  1 ≤ Contacts.visibleItemCount m → Contacts.selection_ok m →
  Contacts.selection_ok (Contacts.Update m msg) ∧
  Contacts.conversations (Contacts.Update m msg) = Contacts.conversations m ∧
  Contacts.visibleItemCount (Contacts.Update m msg) = Contacts.visibleItemCount m.
Proof.
  intros Hv (Hoff & Hwin & Hlist).
  unfold Contacts.Update, Contacts.handleSearchInput.
  unfold Contacts.selection_ok, Contacts.visibleItemCount in *.
  destruct m as [convs sel off w h f sm q g]; simpl in *.
  set (v := Z.quot (h - 3) 2) in *.
  repeat (case_match; simpl; try (fold v)); try (repeat split; lia).
Qed.

(** X2: the same for the message list, as long as it holds a
    message. *)
Theorem messages_update_keeps_selection m msg :
  1 ≤ Messages.visibleItemCount m → 1 ≤ Messages.count m →
  Messages.selection_ok m →
  Messages.selection_ok (Messages.Update m msg) ∧
  Messages.messages (Messages.Update m msg) = Messages.messages m ∧
  Messages.visibleItemCount (Messages.Update m msg) = Messages.visibleItemCount m.
Proof.
  intros Hv Hc (Hoff & Hwin & Hlist).
  unfold Messages.Update.
  unfold Messages.selection_ok, Messages.visibleItemCount, Messages.count in *.
  destruct m as [msgs cid sel off w h f g]; simpl in *.
  set (v := Z.quot (h - 3) 3) in *.
  set (n := Z.of_nat (length msgs)) in *.
  repeat (case_match; simpl; try (fold v); try (fold n)); try (repeat split; lia).
Qed.

(** X3: on an empty message list, page-down takes the selection to
    -1, so that no message is selected. *)
Theorem page_down_on_empty_list m k :
  Messages.focused m = true → Messages.messages m = [] →
  0 ≤ Messages.selected m → 0 ≤ Messages.visibleItemCount m →
  tea.String_ k ∈ Messages.keyMap_PageDown →
  Messages.selected (Messages.Update m (KeyMsg k)) = -1 ∧
  Messages.SelectedMessage (Messages.Update m (KeyMsg k)) = None.
Proof.
  intros Hf Hm Hs Hv Hk. unfold Messages.Update. rewrite Hf. cbn [negb].
  assert (String.eqb (tea.String_ k) "g" = false ∧
          key.Matches k Messages.keyMap_Up = false ∧
          key.Matches k Messages.keyMap_Down = false ∧
          key.Matches k Messages.keyMap_PageUp = false ∧
          key.Matches k Messages.keyMap_PageDown = true) as (-> & -> & -> & -> & ->).
  { unfold key.Matches.
    apply elem_of_cons in Hk as [->|Hk]; [by vm_compute|].
    apply elem_of_cons in Hk as [->|Hk]; [by vm_compute|].
    by apply elem_of_nil in Hk. }
  unfold Messages.SelectedMessage, Messages.count. cbn -[Z.min Z.sub Z.add Z.of_nat].
  rewrite Hm.
  change (Messages.visibleItemCount (Messages.set_lastKeyWasG false m))
    with (Messages.visibleItemCount m).
  replace (Z.min (Z.of_nat (length (@nil store.Message)) - 1)
             (Messages.selected m + Messages.visibleItemCount m))
    with (-1) by (simpl; lia).
  done.
Qed.

(** X4: [SetMessages] selects the last message of the new list (none
    if it is empty); [AddMessage] appends a message of the conversation
    on display and selects it, and ignores a message of another
    conversation; after both the selection lies in the list and inside
    the window. *)
Theorem selected_after_new_messages m id msgs msg :
  Messages.SelectedMessage (Messages.SetMessages id msgs m) = last msgs ∧
  (if String.eqb (store.ConversationID msg) (Messages.conversationID m)
   then Messages.messages (Messages.AddMessage msg m) = Messages.messages m ++ [msg] ∧
        Messages.SelectedMessage (Messages.AddMessage msg m) = Some msg
   else Messages.AddMessage msg m = m) ∧
  (1 ≤ Messages.visibleItemCount m →
   Messages.selection_ok (Messages.SetMessages id msgs m) ∧
   Messages.selection_ok (Messages.AddMessage msg (Messages.SetMessages id msgs m))).
Proof.
  split; [|split].
  - unfold Messages.SelectedMessage, Messages.SetMessages, Messages.count. simpl.
    destruct (0 <? Z.of_nat (length msgs)) eqn:Hn; simpl.
    + replace (0 <=? Z.of_nat (length msgs) - 1) with true by lia.
      replace (Z.of_nat (length msgs) - 1 <? Z.of_nat (length msgs)) with true by lia.
      simpl. rewrite last_lookup. f_equal. lia.
    + apply Z.ltb_ge in Hn. destruct msgs; [done|simpl in Hn; lia].
  - unfold Messages.AddMessage.
    destruct (String.eqb (store.ConversationID msg) (Messages.conversationID m)); simpl; [|done].
    split; [done|].
    unfold Messages.SelectedMessage, Messages.count. simpl.
    rewrite length_app. simpl.
    rewrite (proj2 (Z.leb_le _ _)), (proj2 (Z.ltb_lt _ _)) by lia.
    simpl.
    replace (Z.to_nat (Z.of_nat (length (Messages.messages m) + 1) - 1))
      with (length (Messages.messages m) + 0)%nat by lia.
    by rewrite lookup_app_r, Nat.add_0_r, Nat.sub_diag by lia.
  - intros Hv.
    unfold Messages.selection_ok, Messages.AddMessage, Messages.SetMessages,
      Messages.count, Messages.visibleItemCount in *. simpl in *.
    set (v := Z.quot (Messages.height m - 3) 3) in *.
    split.
    + destruct (Z.ltb_spec 0 (Z.of_nat (length msgs))); simpl; lia.
    + destruct (Z.ltb_spec 0 (Z.of_nat (length msgs))); simpl;
        destruct (String.eqb (store.ConversationID msg) id); simpl;
        rewrite ?length_app; simpl; try lia.
Qed.

(** X5: replacing the list of conversations keeps the selection
    inside the new list: it stays where it is if that is possible;
    otherwise it goes to the last index of the new list (to 0 if the
    list is empty) and, without a search query, the selected
    conversation is the last one of the list.  So, without a search
    query, a non-empty list always has a selected conversation. *)
Theorem SetConversations_keeps_selection_in_list m convs :
  0 ≤ Contacts.selected m →
  let m' := Contacts.SetConversations convs m in
  Contacts.conversations m' = convs ∧
  0 ≤ Contacts.selected m' ∧
  (Contacts.selected m' < Z.of_nat (length convs) ∨
   (convs = [] ∧ Contacts.selected m' = 0)) ∧
  (Contacts.selected m < Z.of_nat (length convs) →
   Contacts.selected m' = Contacts.selected m) ∧
  (Z.of_nat (length convs) ≤ Contacts.selected m →
   Contacts.selected m' = Z.max 0 (Z.of_nat (length convs) - 1) ∧
   (Contacts.searchQuery m = "" →
    Contacts.SelectedConversation m' = last convs)) ∧
  (convs ≠ [] → Contacts.searchQuery m = "" →
   is_Some (Contacts.SelectedConversation m')).
Proof.
  intros Hs m'. subst m'. unfold Contacts.SetConversations.
  destruct (Z.leb_spec (Z.of_nat (length convs)) (Contacts.selected (Contacts.set_conversations convs m)))
    as [Hle|Hlt]; simpl in *.
  - split; [done|]. split; [lia|]. split; [|split; [lia|split]].
    + destruct convs; [right; done|left; simpl; lia].
    + intros _. split; [done|]. intros Hq.
      unfold Contacts.SelectedConversation, Contacts.getFilteredConversations.
      simpl. rewrite Hq. simpl.
      destruct convs as [|c convs]; [done|].
      rewrite (proj2 (Z.leb_le _ _)), (proj2 (Z.ltb_lt _ _)) by (simpl; lia).
      simpl. rewrite last_lookup. f_equal. simpl. lia.
    + intros Hne Hq. unfold Contacts.SelectedConversation, Contacts.getFilteredConversations.
      simpl. rewrite Hq. simpl.
      destruct convs as [|c convs]; [done|].
      rewrite (proj2 (Z.leb_le _ _)), (proj2 (Z.ltb_lt _ _)) by (simpl; lia).
      simpl. apply lookup_lt_is_Some. simpl. lia.
  - split; [done|]. split; [lia|]. split; [lia|]. split; [done|]. split; [lia|].
    intros Hne Hq. unfold Contacts.SelectedConversation, Contacts.getFilteredConversations.
    simpl. rewrite Hq. simpl.
    rewrite (proj2 (Z.leb_le _ _)), (proj2 (Z.ltb_lt _ _)) by lia.
    simpl. apply lookup_lt_is_Some. lia.
Qed.

Lemma scan_bwd_spec p val n :
  (n ≤ String.length val)%nat →
  (Input.scan_bwd p val n ≤ n)%nat ∧
  (∀ i, (Input.scan_bwd p val n ≤ i < n)%nat →
        ∃ b, String.get i val = Some b ∧ p b = true) ∧
  (Input.scan_bwd p val n = 0%nat ∨
   ∃ b, String.get (Input.scan_bwd p val n - 1) val = Some b ∧ p b = false).
Proof.
  induction n as [|n IH]; intros Hn; simpl.
  - split; [lia|]. split; [intros i Hi; lia|by left].
  - destruct (String.get n val) as [b|] eqn:Hb.
    + destruct (p b) eqn:Hp.
      * destruct IH as (Hle & Hrun & Hstop); [lia|].
        split; [lia|]. split; [|done].
        intros i Hi. destruct (decide (i = n)) as [->|Hne]; [eauto|].
        apply Hrun. lia.
      * split; [lia|]. split; [intros i Hi; lia|].
        right. exists b. simpl. by rewrite Nat.sub_0_r.
    + split; [lia|]. split; [intros i Hi; lia|].
      destruct (get_lt_Some n val) as [b' Hb']; [lia|congruence].
Qed.

Lemma take_length n s :
  (n ≤ String.length s)%nat → String.length (GoStr.take n s) = n.
Proof.
  revert s. induction n as [|n IH]; intros [|b s] Hn; simpl in *; try lia.
  by rewrite IH by lia.
Qed.

Lemma skip_bwd_spec p val pos :
  0 ≤ pos ≤ GoStr.len val →
  0 ≤ Input.skip_bwd p val pos ≤ pos ∧
  (∀ i, Input.skip_bwd p val pos ≤ i < pos →
        ∃ b, GoStr.byte_at val i = Some b ∧ p b = true) ∧
  (Input.skip_bwd p val pos = 0 ∨
   ∃ b, GoStr.byte_at val (Input.skip_bwd p val pos - 1) = Some b ∧ p b = false).
Proof.
  intros Hpos. unfold Input.skip_bwd, GoStr.len in *.
  destruct (Z.leb_spec pos 0) as [H0|H0].
  { split; [lia|]. split; [intros i Hi; lia|left; lia]. }
  destruct (scan_bwd_spec p val (Z.to_nat pos)) as (Hle & Hrun & Hstop); [lia|].
  set (k := Input.scan_bwd p val (Z.to_nat pos)) in *.
  split; [lia|]. split.
  - intros i Hi. destruct (Hrun (Z.to_nat i)) as (b & Hb & Hp); [lia|].
    exists b. by rewrite byte_at_get by lia.
  - destruct Hstop as [->|(b & Hb & Hp)]; [by left|].
    destruct (decide (k = 0%nat)) as [->|Hk]; [by left|]. right. exists b.
    rewrite byte_at_get by lia.
    by replace (Z.to_nat (Z.of_nat k - 1)) with (k - 1)%nat by lia.
Qed.

(** X6: [deleteWordBackward] cuts the text before its last word: what
    it removes is the whole run of spaces at the end of the text (no
    space is left before that run) and, before it, the whole run of
    bytes other than the space; what it keeps is empty or ends in a
    space. *)
Theorem deleteWordBackward_cuts_last_word s :
  let r := Contacts.deleteWordBackward s in
  ∃ e, GoStr.len r ≤ e ≤ GoStr.len s ∧
    r = GoStr.slice_to s (GoStr.len r) ∧
    (∀ i, GoStr.len r ≤ i < e →
          ∃ b, GoStr.byte_at s i = Some b ∧ b ≠ " "%char) ∧
    (∀ i, e ≤ i < GoStr.len s → GoStr.byte_at s i = Some " "%char) ∧
    (e = 0 ∨ ∃ b, GoStr.byte_at s (e - 1) = Some b ∧ b ≠ " "%char) ∧
    (r = "" ∨ GoStr.byte_at s (GoStr.len r - 1) = Some " "%char).
Proof.
  intros r. subst r. unfold Contacts.deleteWordBackward.
  destruct (String.eqb_spec s "") as [->|Hs].
  { exists 0. split; [done|]. split; [done|].
    split; [intros; unfold GoStr.len in *; simpl in *; lia|].
    split; [intros; unfold GoStr.len in *; simpl in *; lia|].
    split; by left. }
  assert (0 ≤ GoStr.len s) as Hlen by (unfold GoStr.len; lia).
  destruct (skip_bwd_spec Input.is_space s (GoStr.len s)) as (He & Hsp & Hend); [lia|].
  set (e := Input.skip_bwd Input.is_space s (GoStr.len s)) in *.
  destruct (skip_bwd_spec Input.not_space s e) as (Hk & Hword & Hstop); [lia|].
  set (k := Input.skip_bwd Input.not_space s e) in *.
  assert (GoStr.len (GoStr.slice_to s k) = k) as Hr.
  { unfold GoStr.len, GoStr.slice_to in *. rewrite take_length by lia. lia. }
  exists e. rewrite Hr.
  split; [lia|]. split; [done|]. split; [|split; [|split]].
  - intros i Hi. destruct (Hword i Hi) as (b & Hb & Hns).
    exists b. split; [done|].
    unfold Input.not_space, Input.is_space in Hns.
    intros ->. done.
  - intros i Hi. destruct (Hsp i Hi) as (b & Hb & Hisp).
    rewrite Hb.
    unfold Input.is_space in Hisp. apply Ascii.eqb_eq in Hisp. by subst.
  - destruct Hend as [He0|(b & Hb & Hns)]; [by left|].
    right. exists b. split; [done|].
    unfold Input.is_space in Hns. by apply Ascii.eqb_neq in Hns.
  - destruct Hstop as [Hk0|(b & Hb & Hns)].
    + left. unfold GoStr.slice_to. by rewrite Hk0.
    + right. rewrite Hb.
      unfold Input.not_space, Input.is_space in Hns.
      apply negb_false_iff, Ascii.eqb_eq in Hns. by subst.
Qed.

(** X7: in search mode no key moves the selection except to the top
    of the list, which is where it is whenever the query has changed;
    a key that carries runes, a navigation key included, is typed into
    the query. *)
Theorem search_input_resets_selection m k :
  Contacts.focused m = true → Contacts.searchMode m = true →
  let m' := Contacts.Update m (KeyMsg k) in
  Contacts.conversations m' = Contacts.conversations m ∧
  (Contacts.searchQuery m' ≠ Contacts.searchQuery m →
   Contacts.selected m' = 0 ∧ Contacts.offset m' = 0) ∧
  ((Contacts.selected m' = Contacts.selected m ∧ Contacts.offset m' = Contacts.offset m) ∨
   (Contacts.selected m' = 0 ∧ Contacts.offset m' = 0)) ∧
  (tea.Type_ k = tea.KeyRunes →
   Contacts.searchQuery m' = Contacts.searchQuery m +:+ GoStr.of_runes (tea.Runes k) ∧
   Contacts.searchMode m' = true).
Proof.
  intros Hf Hs m'. subst m'. unfold Contacts.Update. rewrite Hf, Hs. simpl.
  unfold Contacts.handleSearchInput.
  destruct (tea.Type_ k); simpl; repeat case_match; simpl;
    (split; [done|]); (split; [try done; tauto|]); (split; [tauto|]); try done.
Qed.

(** X8: with a query, the filtered list holds each matching
    conversation as often as the list does, best score first. *)
Theorem search_results_best_first m :
  Contacts.searchQuery m ≠ "" →
  let score c :=
    Contacts.fuzzyMatch (ToLower (Contacts.searchQuery m)) (ToLower (store.Name c)) in
  Contacts.getFilteredConversations m ≡ₚ
    filter (λ c, 0 < score c) (Contacts.conversations m) ∧
  ∀ i j ci cj, (i < j)%nat →
    Contacts.getFilteredConversations m !! i = Some ci →
    Contacts.getFilteredConversations m !! j = Some cj →
    score cj ≤ score ci.
Proof.
  intros Hq score. unfold Contacts.getFilteredConversations.
  destruct (String.eqb_spec (Contacts.searchQuery m) "") as [|_]; [done|].
  set (q := ToLower (Contacts.searchQuery m)) in *.
  assert (∀ convs, (Contacts.scored q convs).*1 = filter (λ c, 0 < score c) convs
                   ∧ Forall (λ r, r.2 = score r.1) (Contacts.scored q convs)) as Hsc.
  { induction convs as [|c convs [IH1 IH2]]; [done|].
    unfold Contacts.scored in *. simpl. fold (score c).
    destruct (Z.ltb_spec 0 (score c)) as [Hp|Hp].
    - rewrite filter_cons_True by done. simpl. split; [by f_equal|].
      constructor; done.
    - rewrite filter_cons_False by lia. done. }
  destruct (Hsc (Contacts.conversations m)) as [Hfst Hsnd].
  split.
  - rewrite (exchange_sort_perm snd). by rewrite Hfst.
  - intros i j ci cj Hij Hi Hj.
    apply list_lookup_fmap_Some in Hi as ([ci' si] & -> & Hi).
    apply list_lookup_fmap_Some in Hj as ([cj' sj] & -> & Hj).
    pose proof (exchange_sort_sorted snd _ i j _ _ Hij Hi Hj) as Hle.
    assert (∀ r, r ∈ Loops.exchange_sort (λ rj ri : store.Conversation * Z, ri.2 <? rj.2)
                     (Contacts.scored q (Contacts.conversations m)) → r.2 = score r.1) as Hall.
    { intros r Hr. rewrite (exchange_sort_perm snd) in Hr.
      by apply (proj1 (Forall_forall _ _) Hsnd). }
    apply list_elem_of_lookup_2 in Hi, Hj.
    apply Hall in Hi, Hj. simpl in *. lia.
Qed.

(** X9: the conversation that is selected is one of the list, and one
    that matches the query if there is one; there is a selected
    conversation exactly when the selection lies in the filtered
    list. *)
Theorem SelectedConversation_is_listed m :
  (∀ c, Contacts.SelectedConversation m = Some c →
     c ∈ Contacts.conversations m ∧
     (Contacts.searchQuery m ≠ "" →
      GoStr.subsequence (ToLower (Contacts.searchQuery m)) (ToLower (store.Name c)))) ∧
  (is_Some (Contacts.SelectedConversation m) ↔
   0 ≤ Contacts.selected m < Z.of_nat (length (Contacts.getFilteredConversations m))).
Proof.
  unfold Contacts.SelectedConversation. split.
  - intros c Hc.
    destruct ((0 <=? Contacts.selected m) && _) eqn:Hr; [|done].
    apply list_elem_of_lookup_2 in Hc.
    destruct (decide (Contacts.searchQuery m = "")) as [Hq|Hq].
    + split; [|done]. unfold Contacts.getFilteredConversations in Hc.
      by rewrite Hq in Hc.
    + apply filtered_elem in Hc as [Hin Hpos]; [|done].
      split; [done|]. intros _. by apply fuzzyMatch_positive.
  - destruct (Z.leb_spec 0 (Contacts.selected m));
      destruct (Z.ltb_spec (Contacts.selected m)
                  (Z.of_nat (length (Contacts.getFilteredConversations m)))); simpl.
    + split; [lia|]. intros _. apply lookup_lt_is_Some. lia.
    + split; [intros [? ?]; done|lia].
    + split; [intros [? ?]; done|lia].
    + split; [intros [? ?]; done|lia].
Qed.
End ListFacts.

(** ** The cache, continued *)

Section CacheFacts.
Import store.

Lemma SetConversations_fold convs (m0 : gmap string Conversation) id :
  foldl (fun m c => <[ID c := c]> m) m0 convs !! id =
  match last (filter (λ c, ID c = id) convs) with
  | Some c => Some c
  | None => m0 !! id
  end.
Proof.
  revert m0. induction convs as [|c convs IH]; intros m0; [done|].
  cbn [foldl]. rewrite IH.
  destruct (decide (ID c = id)) as [Hc|Hc].
  - rewrite filter_cons_True by done. rewrite last_cons.
    destruct (last _); [done|]. by rewrite <- Hc, lookup_insert_eq.
  - rewrite filter_cons_False by done.
    destruct (last _); [done|]. by rewrite lookup_insert_ne.
Qed.

(** X10: after [SetConversations], looking up an ID finds the last
    conversation of the list that carries it, and nothing for an ID
    that does not occur: what was cached before is gone.  The cached
    messages are kept. *)
Theorem GetConversation_after_SetConversations s convs id :
  GetConversation (SetConversations s convs) id =
    last (filter (λ c, ID c = id) convs) ∧
  GetMessages (SetConversations s convs) id = GetMessages s id.
Proof.
  split; [|done]. unfold GetConversation, SetConversations. simpl.
  rewrite SetConversations_fold, lookup_empty. by destruct (last _).
Qed.

(** X11: the operations of the cache keep every conversation filed
    under its own ID. *)
Theorem cache_stays_keyed s :
  keyed s →
  (∀ convs, keyed (SetConversations s convs)) ∧
  (∀ conv, keyed (UpdateConversation s conv)) ∧
  (∀ id msgs, keyed (SetMessages s id msgs)) ∧
  (∀ msg, keyed (AddMessage s msg)) ∧
  (∀ id, keyed (MarkConversationRead s id)).
Proof.
  intros Hk. repeat split.
  - intros convs id c Hc.
    unfold SetConversations in Hc. cbn [conversations] in Hc.
    rewrite SetConversations_fold, lookup_empty in Hc.
    destruct (last _) as [c'|] eqn:Hl; [|done]. simplify_eq.
    apply last_Some_elem_of, list_elem_of_filter in Hl as [? _]. done.
  - intros conv id c. unfold UpdateConversation. simpl.
    destruct (decide (ID conv = id)) as [<-|Hne].
    + rewrite lookup_insert_eq. by intros [= <-].
    + rewrite lookup_insert_ne by done. apply Hk.
  - done.
  - intros msg id c. unfold AddMessage. simpl.
    destruct (decide (ConversationID msg = id)) as [<-|Hne].
    + rewrite lookup_alter_eq.
      destruct (conversations s !! ConversationID msg) as [c0|] eqn:Hc0; [|done].
      simpl. intros [= <-]. simpl. by apply Hk.
    + rewrite lookup_alter_ne by done. apply Hk.
  - intros id0 id c. unfold MarkConversationRead. simpl.
    destruct (decide (id0 = id)) as [<-|Hne].
    + rewrite lookup_alter_eq.
      destruct (conversations s !! id0) as [c0|] eqn:Hc0; [|done].
      simpl. intros [= <-]. simpl. by apply Hk.
    + rewrite lookup_alter_ne by done. apply Hk.
Qed.

(** X12: in such a cache no two conversations that
    [GetConversations] returns carry the same ID. *)
Theorem GetConversations_distinct_ids s iter :
  keyed s → iter ≡ₚ cached s →
  NoDup (ID <$> GetConversations_from iter).
Proof.
  intros Hk Hiter. unfold GetConversations_from.
  rewrite (exchange_sort_perm LatestTimestamp), Hiter. unfold cached.
  assert ((ID <$> (map_to_list (conversations s)).*2) =
          (map_to_list (conversations s)).*1) as ->.
  { rewrite <- list_fmap_compose. apply list_fmap_ext.
    intros i [id c] Hic. simpl. apply Hk.
    apply elem_of_map_to_list. by eapply list_elem_of_lookup_2. }
  apply NoDup_fst_map_to_list.
Qed.

(** X13: [AddMessage] files a message at the end of the messages of
    its conversation and nowhere else, so that messages come back in
    the order in which they arrived; it creates no conversation. *)
Theorem AddMessage_keeps_arrival_order s msgs id :
  GetMessages (foldl AddMessage s msgs) id =
    GetMessages s id ++ filter (λ m, ConversationID m = id) msgs ∧
  (is_Some (GetConversation (foldl AddMessage s msgs) id) ↔
   is_Some (GetConversation s id)).
Proof.
  revert s. induction msgs as [|msg msgs IH]; intros s.
  { simpl. by rewrite app_nil_r. }
  cbn [foldl]. destruct (IH (AddMessage s msg)) as [-> ->]. split.
  - unfold GetMessages at 1, AddMessage. simpl.
    destruct (decide (ConversationID msg = id)) as [<-|Hne].
    + rewrite lookup_insert_eq, filter_cons_True by done. simpl.
      by rewrite <- app_assoc.
    + rewrite lookup_insert_ne, filter_cons_False by done. done.
  - unfold GetConversation, AddMessage. simpl.
    destruct (decide (ConversationID msg = id)) as [<-|Hne].
    + rewrite lookup_alter_eq. by rewrite fmap_is_Some.
    + by rewrite lookup_alter_ne.
Qed.

(** X14: a message that is newer than everything cached, for a cached
    conversation, takes that conversation to the head of
    [GetConversations], with the message as its preview. *)
Theorem new_message_moves_conversation_to_top s msg c iter :
  GetConversation s (ConversationID msg) = Some c →
  (∀ id c', GetConversation s id = Some c' →
            LatestTimestamp c' < Timestamp msg) →
  iter ≡ₚ cached (AddMessage s msg) →
  head (GetConversations_from iter) = Some (touch msg c) ∧
  LatestMessage (touch msg c) = Content msg ∧
  (IsFromMe msg = false → Unread (touch msg c) = true).
Proof.
  unfold GetConversation. intros Hc Hnew Hiter.
  split; [|split; [done|intros Hme; simpl; by rewrite Hme]].
  remember (GetConversations_from iter) as l eqn:Hl0.
  assert (∀ a b x y, (a < b)%nat → l !! a = Some x → l !! b = Some y →
                     LatestTimestamp y ≤ LatestTimestamp x) as Hsorted.
  { subst l. intros a b x y Hab Hx Hy.
    by eapply (exchange_sort_sorted LatestTimestamp iter a b). }
  assert (l ≡ₚ cached (AddMessage s msg)) as Hp.
  { subst l. unfold GetConversations_from.
    by rewrite (exchange_sort_perm LatestTimestamp). }
  assert (∀ x, x ∈ l → x = touch msg c ∨ LatestTimestamp x < Timestamp msg) as Hall.
  { intros x Hx. rewrite Hp in Hx. unfold cached in Hx.
    apply list_elem_of_fmap in Hx as ([id x'] & -> & Hx).
    apply elem_of_map_to_list in Hx. unfold AddMessage in Hx. simpl in *.
    destruct (decide (ConversationID msg = id)) as [<-|Hne].
    - rewrite lookup_alter_eq, Hc in Hx. simpl in Hx. left. congruence.
    - rewrite lookup_alter_ne in Hx by done. right. by eapply Hnew. }
  assert (touch msg c ∈ l) as Hin.
  { rewrite Hp. unfold cached. apply list_elem_of_fmap.
    exists (ConversationID msg, touch msg c). split; [done|].
    apply elem_of_map_to_list. unfold AddMessage. simpl.
    by rewrite lookup_alter_eq, Hc. }
  apply list_elem_of_lookup_1 in Hin as [j Hj].
  clear Hl0. destruct l as [|x l']; [done|]. simpl.
  destruct (Hall x) as [->|Hlt]; [left|done|].
  destruct j as [|j]; [simpl in Hj; congruence|].
  pose proof (Hsorted 0%nat (S j) x (touch msg c) ltac:(lia) eq_refl Hj) as Hs.
  simpl in Hs. lia.
Qed.

(** X15: an incoming message marks its cached conversation unread;
    [MarkConversationRead] takes the mark away again, leaves the
    preview, the messages and the other conversations alone, and
    changes nothing when it is repeated. *)
Theorem unread_until_marked_read s msg c :
  GetConversation s (ConversationID msg) = Some c → IsFromMe msg = false →
  let s1 := AddMessage s msg in
  let s2 := MarkConversationRead s1 (ConversationID msg) in
  (Unread <$> GetConversation s1 (ConversationID msg)) = Some true ∧
  GetConversation s2 (ConversationID msg) = Some (read (touch msg c)) ∧
  Unread (read (touch msg c)) = false ∧
  LatestMessage (read (touch msg c)) = Content msg ∧
  (∀ id, GetMessages s2 id = GetMessages s1 id) ∧
  (∀ id, id ≠ ConversationID msg → GetConversation s2 id = GetConversation s id) ∧
  MarkConversationRead s2 (ConversationID msg) = s2.
Proof.
  unfold GetConversation. intros Hc Hme. cbv zeta.
  unfold MarkConversationRead, AddMessage. simpl.
  rewrite !lookup_alter_eq, Hc. simpl. rewrite Hme. simpl.
  repeat split; try done.
  - intros id Hne. by rewrite !lookup_alter_ne.
  - f_equal. apply map_eq. intros id.
    destruct (decide (ConversationID msg = id)) as [<-|Hne].
    + rewrite !lookup_alter_eq. by destruct (conversations s !! _).
    + by rewrite !lookup_alter_ne.
Qed.
End CacheFacts.

(** ** Truncation, merged defaults and pairing *)

Section TruncateFacts.

Lemma take_prefix n s : String.prefix (GoStr.take n s) s = true.
Proof.
  revert s. induction n as [|n IH]; intros [|b s]; simpl; try done.
  destruct (Ascii.ascii_dec b b); [apply IH|done].
Qed.

(** X16: [Truncate] panics exactly for a negative width; otherwise
    the result is never longer than the width, it is the text itself
    when that fits, and else the first bytes of the text, followed by
    three dots when the width exceeds three. *)
Theorem Truncate_fits_width s width :
  (styles.Truncate s width = None ↔ width < 0) ∧
  ∀ r, styles.Truncate s width = Some r →
    GoStr.len r = Z.min (GoStr.len s) width ∧
    (GoStr.len s ≤ width → r = s) ∧
    (width < GoStr.len s → width ≤ 3 →
     r = GoStr.slice_to s width ∧ String.prefix r s = true) ∧
    (width < GoStr.len s → 3 < width →
     r = GoStr.slice_to s (width - 3) +:+ "..." ∧
     String.prefix (GoStr.slice_to s (width - 3)) s = true).
Proof.
  unfold styles.Truncate.
  assert (0 ≤ GoStr.len s) as Hlen by (unfold GoStr.len; lia).
  destruct (Z.leb_spec (GoStr.len s) width) as [Hfit|Hcut].
  { split; [split; [done|lia]|]. intros r [= <-].
    split; [lia|]. split; [done|]. split; intros; lia. }
  destruct (Z.leb_spec width 3) as [Hsmall|Hbig].
  - destruct (Z.ltb_spec width 0) as [Hneg|Hpos].
    { split; [done|]. intros r Hr. done. }
    split; [split; [done|lia]|]. intros r [= <-].
    split; [|split; [lia|split; [|lia]]].
    + unfold GoStr.len, GoStr.slice_to in *. rewrite take_length by lia. lia.
    + intros _ _. split; [done|]. apply take_prefix.
  - split; [split; [done|lia]|]. intros r [= <-].
    split; [|split; [lia|split; [lia|]]].
    + unfold GoStr.len, GoStr.slice_to in *.
      rewrite append_length, take_length by lia. simpl. lia.
    + intros _ _. split; [done|]. apply take_prefix.
Qed.
End TruncateFacts.

Section ConfigFacts.
Import config.

Lemma or_default_nonempty v d : d ≠ "" → or_default v d ≠ "".
Proof. unfold or_default. by destruct (String.eqb_spec v ""). Qed.

Lemma or_default_keeps v d : v ≠ "" → or_default v d = v.
Proof. unfold or_default. by destruct (String.eqb_spec v ""). Qed.

Lemma or_default_idem v d : or_default (or_default v d) d = or_default v d.
Proof.
  unfold or_default. destruct (String.eqb_spec v "") as [->|Hv].
  - by destruct (String.eqb_spec d "").
  - by destruct (String.eqb_spec v "").
Qed.

(** X17: after the defaults are merged in, no key setting is empty; a
    setting that the file gives is kept, one that it leaves empty gets
    its default; merging a second time changes nothing. *)
Theorem fillDefaults_leaves_no_empty_binding editor cfg :
  (∀ v, v ∈ bindings (fillDefaults editor cfg) → v ≠ "") ∧
  (∀ i v, bindings cfg !! i = Some v →
     bindings (fillDefaults editor cfg) !! i =
       Some (if String.eqb v ""
             then default "" (bindings (DefaultConfig editor) !! i) else v)) ∧
  fillDefaults editor (fillDefaults editor cfg) = fillDefaults editor cfg.
Proof.
  split; [|split].
  - intros v Hv. unfold bindings, fillDefaults in Hv. cbn [Keybinds LeaderKey Navigation Global Conversations Messages Input Quit NextPanel PrevPanel Help Refresh] in Hv.
    repeat (apply elem_of_cons in Hv as [->|Hv]; [by apply or_default_nonempty|]).
    by apply elem_of_nil in Hv.
  - intros i v Hi. unfold bindings, fillDefaults in *.
    cbn [Keybinds LeaderKey Navigation Global Conversations Messages Input Quit NextPanel PrevPanel Help Refresh DefaultConfig] in *.
    do 9 (destruct i as [|i]; [cbn in Hi |- *; by simplify_eq|]). done.
  - unfold fillDefaults.
    cbn [Editor EditorArgs Keybinds LeaderKey Navigation Global Conversations Messages Input Quit NextPanel PrevPanel Help Refresh].
    by rewrite !or_default_idem.
Qed.
End ConfigFacts.

Section AuthFacts.
Import auth.

Lemma handle_all_snoc a evts evt :
  handle_all a (evts ++ [evt]) =
  ((handlePairingEvent (handle_all a evts).1 evt).1,
   (handle_all a evts).2 ++ (handlePairingEvent (handle_all a evts).1 evt).2).
Proof.
  unfold handle_all. rewrite foldl_app. simpl.
  by destruct (handlePairingEvent _ evt).
Qed.

Lemma checkAndSignalDone_spec a :
  pairSuccessful (checkAndSignalDone a).1 = pairSuccessful a ∧
  clientReady (checkAndSignalDone a).1 = clientReady a ∧
  doneClosed (checkAndSignalDone a).1 =
    doneClosed a || (pairSuccessful a && clientReady a) ∧
  (checkAndSignalDone a).2 =
    (if pairSuccessful a && clientReady a && negb (doneClosed a)
     then [CloseDone] else []).
Proof. unfold checkAndSignalDone. by destruct a as [[|] [|] [|]]. Qed.

(** What one event does to the flags and to [done]. *)
Lemma handlePairingEvent_spec a evt :
  let a' := (handlePairingEvent a evt).1 in
  let o := (handlePairingEvent a evt).2 in
  pairSuccessful a' =
    pairSuccessful a || bool_decide (evt = PairSuccessful true) ∧
  clientReady a' =
    clientReady a || bool_decide (evt = ClientReady ∨ evt = ListenRecovered) ∧
  (doneClosed a = pairSuccessful a && clientReady a →
   doneClosed a' = pairSuccessful a' && clientReady a' ∧
   (CloseDone ∈ o ↔ doneClosed a = false ∧ doneClosed a' = true) ∧
   (∀ i, o !! i = Some CloseDone → i = 0%nat)).
Proof.
  destruct a as [[|] [|] [|]]; cbv zeta;
    destruct evt as [url [ascii|]|[|]| | | | |]; cbn;
    repeat case_bool_decide; try (exfalso; intuition congruence);
    (split; [done|]); (split; [done|]); intros Hd; try discriminate Hd;
    (split; [done|]);
    (split; [rewrite ?list_elem_of_singleton, ?elem_of_nil; intuition congruence
            |intros [|[|i]]; cbn; done]).
Qed.

(** X18: whatever events arrive, and in whatever order, the pairing
    handler closes [done] at most once: it has done so exactly when a
    pairing whose session was saved and a ready (or recovered) client
    have both been seen. *)
Theorem done_is_closed_once evts :
  let a := (handle_all NewAuthHandler evts).1 in
  let out := (handle_all NewAuthHandler evts).2 in
  (pairSuccessful a = true ↔ PairSuccessful true ∈ evts) ∧
  (clientReady a = true ↔ ClientReady ∈ evts ∨ ListenRecovered ∈ evts) ∧
  doneClosed a = pairSuccessful a && clientReady a ∧
  (CloseDone ∈ out ↔ doneClosed a = true) ∧
  (∀ i j, out !! i = Some CloseDone → out !! j = Some CloseDone → i = j).
Proof.
  cbv zeta. induction evts as [|evt evts IH] using rev_ind.
  { simpl. repeat split; try done; try (intros H; by apply elem_of_nil in H).
    intros [H|H]; by apply elem_of_nil in H. }
  rewrite handle_all_snoc. cbn [fst snd].
  destruct (handle_all NewAuthHandler evts) as [a out]. cbn [fst snd] in *.
  destruct IH as (Hp & Hr & Hd & Hin & Hone).
  pose proof (handlePairingEvent_spec a evt) as (Hp' & Hr' & Ho).
  specialize (Ho Hd). destruct Ho as (Hd' & Hclose & Hfirst).
  set (a' := (handlePairingEvent a evt).1) in *.
  set (o := (handlePairingEvent a evt).2) in *.
  split; [|split; [|split; [|split]]].
  - rewrite Hp', orb_true_iff, Hp, bool_decide_eq_true, elem_of_app,
      list_elem_of_singleton.
    split; (intros [?|?]; [by left|by right]).
  - rewrite Hr', orb_true_iff, Hr, bool_decide_eq_true, !elem_of_app,
      !list_elem_of_singleton.
    assert (∀ x : Event, x = evt ↔ evt = x) as Hsym by (split; congruence).
    rewrite !Hsym. tauto.
  - done.
  - rewrite elem_of_app, Hin, Hclose.
    assert (doneClosed a = true → doneClosed a' = true) as Hmono.
    { rewrite Hd', Hd, Hp', Hr'. intros (-> & ->)%andb_true_iff. done. }
    destruct (doneClosed a);
      [split; [intros _; by apply Hmono|intros _; by left]|].
    split; [intros [?|[_ ?]]; done|]. intros ?. right. done.
  - intros i j Hi Hj.
    apply lookup_app_Some in Hi as [Hi|[Hli Hi]];
      apply lookup_app_Some in Hj as [Hj|[Hlj Hj]].
    + by apply Hone.
    + exfalso. apply list_elem_of_lookup_2 in Hi, Hj.
      apply Hin in Hi. apply Hclose in Hj as [Hj _]. congruence.
    + exfalso. apply list_elem_of_lookup_2 in Hi, Hj.
      apply Hin in Hj. apply Hclose in Hi as [Hi _]. congruence.
    + apply Hfirst in Hi, Hj. lia.
Qed.
End AuthFacts.

(** ** The editor beyond the motions *)

Section EditorFacts.
Import Input textinput.
Context `{!GoLib} `{!Widget}.

(** The cursor of the widget lies within its text. *)
Let ok (ti : textinput.Model) : Prop := 0 ≤ Position ti ≤ runes_len ti.

Lemma ok_SetCursor p ti : ok (SetCursor p ti).
Proof. apply clamp_bounds, runes_len_nonneg. Qed.

Lemma ok_SetValue s ti : ok ti → ok (textinput.SetValue s ti).
Proof.
  intros Hok. unfold textinput.SetValue. cbv zeta.
  match goal with |- ok (if ?c then _ else _) => destruct c eqn:Hc end;
    [apply ok_SetCursor|].
  apply orb_false_iff in Hc as [_ Hc]. apply Z.ltb_ge in Hc.
  unfold ok, Position in *. simpl in *. lia.
Qed.

Lemma ok_Reset ti : ok (textinput.Reset ti).
Proof. apply ok_SetCursor. Qed.

Lemma cursor_ok_edit f m :
  (∀ ti, ok ti → ok (f ti)) → cursor_ok m → cursor_ok (set_textInput f m).
Proof. intros Hf Hm. by apply Hf. Qed.

Lemma cursor_ok_cursor p m : cursor_ok (set_textInput (SetCursor p) m).
Proof. apply ok_SetCursor. Qed.

Lemma cursor_ok_cursor_to o m : cursor_ok m → cursor_ok (cursor_to o m).
Proof. destruct o; [intros _; apply cursor_ok_cursor|done]. Qed.

Lemma cursor_ok_deletes m :
  cursor_ok m →
  cursor_ok (deleteCharAtCursor m) ∧ cursor_ok (deleteToEndOfLine m) ∧
  cursor_ok (deleteToBeginningOfLine m) ∧ cursor_ok (deleteToEndOfWord m).
Proof.
  intros Hm.
  unfold deleteCharAtCursor, deleteToEndOfLine, deleteToBeginningOfLine,
    deleteToEndOfWord.
  split; [|split; [|split]]; cbv zeta; case_match; try done;
    apply cursor_ok_cursor.
Qed.

(** X19: in Normal mode no message takes the cursor out of the text:
    not the motions, not the deletions and changes, not an operator
    with its argument. *)
Theorem normal_mode_keeps_cursor_in_text m msg :
  mode m = ModeNormal → cursor_ok m →
  cursor_ok (Input.Update m msg).1.
Proof.
  intros Hm Hok.
  destruct (cursor_ok_deletes m Hok) as (Hx & HD & Hd0 & Hw).
  assert (∀ m0, cursor_ok m0 → cursor_ok (set_textInput Focus m0)) as HF by done.
  unfold Input.Update. rewrite Hm.
  rewrite andb_false_r.
  destruct msg as [k| | | | | | | | | | | | | | | |]; try done.
  destruct (focused m); [|done]. simpl.
  unfold handleNormalMode.
  destruct (decide (pendingAction m = PendingNone)) as [Hp|Hp].
  - rewrite bool_decide_eq_true_2 by done. simpl.
    unfold sendOnEnter, repeatFind, moveToNextWord, moveToPrevWord, moveToEndOfWord.
    repeat case_match; cbn [fst]; try done;
      try apply cursor_ok_cursor; try apply cursor_ok_cursor_to; try done.
    all: by apply (cursor_ok_deletes m).
  - rewrite bool_decide_eq_false_2 by done. simpl.
    unfold handlePendingAction.
    destruct (cursor_ok_deletes (set_pendingAction PendingNone m) Hok)
      as (Hx' & HD' & Hd0' & Hw').
    repeat case_match; cbn [fst]; try done;
      try apply cursor_ok_cursor;
      try (apply (cursor_ok_cursor_to _ (set_lastFind _ _ m)); done);
      try done.
Qed.

Lemma deletes_keep_pending m :
  pendingAction (deleteCharAtCursor m) = pendingAction m ∧
  pendingAction (deleteToEndOfLine m) = pendingAction m ∧
  pendingAction (deleteToBeginningOfLine m) = pendingAction m ∧
  pendingAction (deleteToEndOfWord m) = pendingAction m.
Proof.
  unfold deleteCharAtCursor, deleteToEndOfLine, deleteToBeginningOfLine,
    deleteToEndOfWord.
  split; [|split; [|split]]; cbv zeta; case_match; done.
Qed.

(** X20: an operator waits for one key only: whatever the next key
    is, no operator is pending after it and no command is issued.  A
    key that completes neither [d] nor [c] leaves the editor as it
    was. *)
Theorem operator_waits_for_one_key m k :
  focused m = true → mode m = ModeNormal → pendingAction m ≠ PendingNone →
  pendingAction (Input.Update m (KeyMsg k)).1 = PendingNone ∧
  (Input.Update m (KeyMsg k)).2 = [] ∧
  ((pendingAction m = PendingDelete ∨ pendingAction m = PendingChange) →
   tea.String_ k ∉ ["w"; "e"; "$"; "0"; "d"; "c"] →
   (Input.Update m (KeyMsg k)).1 = set_pendingAction PendingNone m).
Proof.
  intros Hf Hm Hp. rewrite Update_focused_normal, handleNormalMode_pending by done.
  unfold handlePendingAction.
  destruct (deletes_keep_pending (set_pendingAction PendingNone m))
    as (Hx & HD & Hd0 & Hw).
  split; [|split].
  - repeat case_match; cbn [fst]; try done;
      try (destruct (find_forward _ _ _); done);
      try (destruct (find_backward _ _ _); done).
  - repeat case_match; done.
  - intros Hop Hk.
    rewrite !not_elem_of_cons in Hk. destruct Hk as (Hw' & He & Hd & Hz & Hdd & Hc & _).
    apply String.eqb_neq in Hw', He, Hd, Hz, Hdd, Hc.
    destruct (String.eqb (tea.String_ k) "esc"); [done|].
    destruct Hop as [-> | ->]; rewrite Hw', He, Hd, Hz, ?Hdd, ?Hc; done.
Qed.

(** X21: leaving Insert mode with Esc and coming back with [i] gives
    the editor back as it was: text, cursor and draft are untouched. *)
Theorem esc_then_i_is_identity m kesc ki :
  focused m = true → mode m = ModeInsert → pendingAction m = PendingNone →
  focus (textInput m) = true →
  tea.Type_ kesc = tea.KeyEscape → tea.String_ ki = "i" →
  let m1 := (Input.Update m (KeyMsg kesc)).1 in
  mode m1 = ModeNormal ∧
  value (textInput m1) = value (textInput m) ∧
  Position (textInput m1) = Position (textInput m) ∧
  (Input.Update m1 (KeyMsg ki)).1 = m.
Proof.
  intros Hf Hm Hp Hfo Hesc Hi. cbv zeta.
  unfold Input.Update at 1 2 3 4. rewrite Hf, Hm. simpl.
  unfold handleInsertMode. rewrite Hesc. simpl.
  repeat split.
  unfold Input.Update. simpl. rewrite Hf. simpl.
  unfold handleNormalMode. simpl. rewrite Hp, Hi. simpl.
  destruct m as [[v p f cl] ? ? ? ? ? ? ? ?]. simpl in *. by subst.
Qed.

(** X22: [$] and [A] put the cursor behind the last rune of the text,
    [0] and [I] before the first, whatever the number of bytes that
    the runes take; [A] and [I] go to Insert mode, and none of the four
    changes the text. *)
Theorem line_ends_are_reached m k :
  focused m = true → mode m = ModeNormal → pendingAction m = PendingNone →
  let m' := (Input.Update m (KeyMsg k)).1 in
  (tea.String_ k = "$" ∨ tea.String_ k = "A" →
   Position (textInput m') = runes_len (textInput m)) ∧
  (tea.String_ k = "0" ∨ tea.String_ k = "I" →
   Position (textInput m') = 0) ∧
  (tea.String_ k ∈ ["$"; "A"; "0"; "I"] →
   value (textInput m') = value (textInput m) ∧
   mode m' = (if bool_decide (tea.String_ k ∈ ["A"; "I"])
              then ModeInsert else ModeNormal)).
Proof.
  intros Hf Hm Hp. cbv zeta.
  rewrite Update_focused_normal by done. unfold handleNormalMode.
  rewrite Hp. rewrite bool_decide_eq_true_2 by done. cbn [negb].
  assert (∀ ti, clamp (GoStr.len (Value ti)) 0 (runes_len ti) = runes_len ti) as Hend.
  { intros ti. unfold clamp. pose proof (runes_len_nonneg ti).
    pose proof (of_runes_length (value ti)). unfold Value, runes_len in *.
    rewrite (proj2 (Z.ltb_ge _ _)) by lia. lia. }
  assert (∀ ti, clamp 0 0 (runes_len ti) = 0) as Hstart.
  { intros ti. unfold clamp. pose proof (runes_len_nonneg ti).
    rewrite (proj2 (Z.ltb_ge _ _)) by lia. lia. }
  split; [|split].
  - intros [-> | ->]; simpl; unfold Position; simpl;
      [apply Hend|apply (Hend (Focus (textInput m)))].
  - intros [-> | ->]; simpl; unfold Position; simpl;
      [apply Hstart|apply (Hstart (Focus (textInput m)))].
  - rewrite !elem_of_cons.
    intros [-> | [-> | [-> | [-> | Hn]]]]; [..|by apply elem_of_nil in Hn];
      cbn; rewrite ?Hm; (split; [done|]);
      by (rewrite bool_decide_eq_true_2 by (rewrite !elem_of_cons; auto))
      || by (rewrite bool_decide_eq_false_2
               by (rewrite !elem_of_cons, elem_of_nil; intuition discriminate)).
Qed.
End EditorFacts.

Section DeletionFacts.
Import Input textinput.
Context `{!GoLib} `{!Widget}.

Lemma append_cons c (s t : string) : String c s +:+ t = String c (s +:+ t).
Proof. reflexivity. Qed.

Lemma append_assoc (s t u : string) : (s +:+ t) +:+ u = s +:+ (t +:+ u).
Proof.
  induction s as [|c s IH]; [done|]. by rewrite !append_cons, IH.
Qed.

Lemma of_runes_app a b :
  GoStr.of_runes (a ++ b) = GoStr.of_runes a +:+ GoStr.of_runes b.
Proof.
  induction a as [|r a IH]; [done|].
  rewrite <- app_comm_cons, !of_runes_cons, IH. by rewrite append_assoc.
Qed.

Lemma take_of_runes n rs :
  Forall GoStr.single_byte rs →
  GoStr.take n (GoStr.of_runes rs) = GoStr.of_runes (take n rs).
Proof.
  intros Hrs. revert n. induction Hrs as [|r rs Hr Hrs IH]; intros [|n]; try done.
  rewrite firstn_cons, !of_runes_single_byte by done. simpl. by rewrite IH.
Qed.

Lemma drop_of_runes n rs :
  Forall GoStr.single_byte rs →
  GoStr.drop n (GoStr.of_runes rs) = GoStr.of_runes (drop n rs).
Proof.
  intros Hrs. revert n. induction Hrs as [|r rs Hr Hrs IH]; intros [|n]; try done.
  rewrite skipn_cons, of_runes_single_byte by done. simpl. by rewrite IH.
Qed.

(** [SetValue] of a text that the library hands back rune by rune and
    that fits the character limit. *)
Lemma SetValue_runes l p ti :
  Sanitize (runes_of_string (GoStr.of_runes l)) = l →
  (CharLimit ti ≤ 0 ∨ Z.of_nat (length l) ≤ CharLimit ti) →
  value ti ≠ [] → 0 ≤ p →
  value (SetCursor p (textinput.SetValue (GoStr.of_runes l) ti)) = l ∧
  Position (SetCursor p (textinput.SetValue (GoStr.of_runes l) ti)) =
    Z.min p (Z.of_nat (length l)).
Proof.
  intros Hlib Hlim Hne Hp. unfold textinput.SetValue. rewrite Hlib. cbv zeta.
  assert ((0 <? CharLimit ti) && (CharLimit ti <? Z.of_nat (length l)) = false) as ->.
  { apply andb_false_iff. destruct Hlim; [left|right]; lia. }
  rewrite bool_decide_eq_false_2 by done. rewrite andb_false_r. simpl.
  assert (∀ q, clamp q 0 (Z.of_nat (length l)) = Z.min (Z.of_nat (length l)) (Z.max 0 q)) as Hc.
  { intros q. unfold clamp. by rewrite (proj2 (Z.ltb_ge _ _)) by lia. }
  case_match; unfold Position, SetCursor, runes_len; simpl; rewrite Hc; split; try done; lia.
Qed.

(** X23: on a text of one-byte runes that the library hands back rune
    by rune and that fits the character limit, [deleteCharAtCursor]
    deletes the rune under the cursor, [deleteToEndOfLine] the runes
    from the cursor on and [deleteToBeginningOfLine] those before it;
    the cursor stays where it is, or goes to 0 in the last case. *)
Theorem deletions_cut_the_text m rs (p : nat) :
  value (textInput m) = rs → Position (textInput m) = Z.of_nat p →
  (p ≤ length rs)%nat → Forall GoStr.single_byte rs →
  (CharLimit (textInput m) ≤ 0 ∨ Z.of_nat (length rs) ≤ CharLimit (textInput m)) →
  (∀ l, l ∈ [take p rs ++ drop (S p) rs; take p rs; drop p rs] →
        Sanitize (runes_of_string (GoStr.of_runes l)) = l) →
  let x := textInput (deleteCharAtCursor m) in
  let D := textInput (deleteToEndOfLine m) in
  let d0 := textInput (deleteToBeginningOfLine m) in
  (value x = take p rs ++ drop (S p) rs ∧ Position x = Z.of_nat p) ∧
  (value D = take p rs ∧ Position D = Z.of_nat p) ∧
  (value d0 = drop p rs ∧ Position d0 = 0).
Proof.
  intros Hv Hpos Hp Hrs Hlim Hlib. cbv zeta.
  assert (GoStr.len (Value (textInput m)) = Z.of_nat (length rs)) as Hlen.
  { unfold Value. rewrite Hv. by apply single_byte_length. }
  assert (∀ a l, (length (take a rs ++ l) ≤ length rs)%nat →
            CharLimit (textInput m) ≤ 0 ∨
            Z.of_nat (length (take a rs ++ l)) ≤ CharLimit (textInput m)) as Hfit.
  { intros a l Hl. destruct Hlim; [by left|right; lia]. }
  unfold deleteCharAtCursor, deleteToEndOfLine, deleteToBeginningOfLine.
  rewrite Hlen, Hpos. unfold Value. rewrite Hv.
  split; [|split].
  - destruct (Z.ltb_spec (Z.of_nat p) (Z.of_nat (length rs))) as [Hlt|Hge].
    + unfold GoStr.slice_to, GoStr.slice_from.
      replace (Z.to_nat (Z.of_nat p + 1)) with (S p) by lia. rewrite Nat2Z.id.
      rewrite take_of_runes, drop_of_runes, <- of_runes_app by done.
      cbn [textInput set_textInput].
      destruct (SetValue_runes (take p rs ++ drop (S p) rs) (Z.of_nat p) (textInput m))
        as [-> ->].
      * apply Hlib. rewrite !elem_of_cons. auto.
      * destruct Hlim; [by left|right].
        rewrite length_app, length_take, length_drop. lia.
      * rewrite Hv. intros ->. simpl in *. lia.
      * lia.
      * split; [done|]. rewrite length_app, length_take, length_drop. lia.
    + assert (p = length rs) as -> by lia.
      rewrite Hv, Hpos, firstn_all, drop_ge, app_nil_r by lia. done.
  - destruct (Z.ltb_spec (Z.of_nat p) (Z.of_nat (length rs))) as [Hlt|Hge].
    + unfold GoStr.slice_to. rewrite Nat2Z.id.
      rewrite take_of_runes by done.
      cbn [textInput set_textInput].
      destruct (SetValue_runes (take p rs) (Z.of_nat p) (textInput m)) as [-> ->].
      * apply Hlib. rewrite !elem_of_cons. auto.
      * destruct Hlim; [by left|right]. rewrite length_take. lia.
      * rewrite Hv. intros ->. simpl in *. lia.
      * lia.
      * split; [done|]. rewrite length_take. lia.
    + assert (p = length rs) as -> by lia.
      rewrite Hv, Hpos, firstn_all. done.
  - destruct (Z.ltb_spec 0 (Z.of_nat p)) as [Hlt|Hge].
    + unfold GoStr.slice_from. rewrite Nat2Z.id.
      rewrite drop_of_runes by done.
      cbn [textInput set_textInput].
      destruct (SetValue_runes (drop p rs) 0 (textInput m)) as [-> ->].
      * apply Hlib. rewrite !elem_of_cons. auto.
      * destruct Hlim; [by left|right]. rewrite length_drop. lia.
      * rewrite Hv. intros ->. simpl in *. lia.
      * lia.
      * split; [done|]. lia.
    + assert (p = 0%nat) as -> by lia. rewrite Hv, Hpos. done.
Qed.
End DeletionFacts.

(** ** The panels and the session loop, continued *)

Section PanelFacts.
Import App.
Context `{!GoLib} `{!textinput.Widget}.

Lemma Contacts_Update_focused c msg :
  Contacts.focused (Contacts.Update c msg) = Contacts.focused c.
Proof.
  unfold Contacts.Update, Contacts.handleSearchInput.
  repeat case_match; done.
Qed.

Lemma Messages_Update_focused m msg :
  Messages.focused (Messages.Update m msg) = Messages.focused m.
Proof. unfold Messages.Update. repeat case_match; done. Qed.

Lemma Input_deletes_focused i :
  Input.focused (Input.deleteCharAtCursor i) = Input.focused i ∧
  Input.focused (Input.deleteToEndOfLine i) = Input.focused i ∧
  Input.focused (Input.deleteToBeginningOfLine i) = Input.focused i ∧
  Input.focused (Input.deleteToEndOfWord i) = Input.focused i.
Proof.
  unfold Input.deleteCharAtCursor, Input.deleteToEndOfLine,
    Input.deleteToBeginningOfLine, Input.deleteToEndOfWord.
  split; [|split; [|split]]; cbv zeta; case_match; done.
Qed.

Lemma Input_Update_focused i msg :
  Input.focused (Input.Update i msg).1 = Input.focused i.
Proof.
  destruct (Input_deletes_focused i) as (Hx & HD & Hd0 & Hw).
  destruct (Input_deletes_focused (Input.set_pendingAction Input.PendingNone i))
    as (Hx' & HD' & Hd0' & Hw').
  unfold Input.Update, Input.handleNormalMode, Input.handlePendingAction,
    Input.handleInsertMode, Input.sendOnEnter, Input.repeatFind, Input.cursor_to,
    Input.moveToNextWord, Input.moveToPrevWord, Input.moveToEndOfWord.
  repeat case_match; simplify_eq; cbn [fst]; try done;
    cbn [Input.focused Input.set_textInput Input.set_mode];
    rewrite ?Hx, ?HD, ?Hd0, ?Hw, ?Hx', ?HD', ?Hd0', ?Hw'; done.
Qed.

Lemma updateFocused_flags a msg cmds :
  focus_flags (updateFocused a msg cmds).1 = focus_flags a.
Proof.
  unfold updateFocused, focus_flags.
  pose proof (Contacts_Update_focused (contacts a) msg) as Hc.
  pose proof (Messages_Update_focused (messages a) msg) as Hm.
  pose proof (Input_Update_focused (input a) msg) as Hi.
  destruct (Input.Update (input a) msg) as [i cmd].
  repeat case_match; simpl in *; congruence.
Qed.

Lemma consistent_transfer a a' :
  focusedPanel a' = focusedPanel a → focus_flags a' = focus_flags a →
  focus_consistent a → focus_consistent a'.
Proof. unfold focus_consistent. intros -> ->. done. Qed.

Lemma cycleFocus_consistent d a :
  d = 1 ∨ d = -1 → is_panel (focusedPanel a) → focus_consistent (cycleFocus d a).
Proof.
  intros Hd Hp.
  assert (is_panel (focusedPanel (cycleFocus d a))) as Hp'.
  { rewrite cycleFocus_panel. unfold is_panel, PanelContacts, PanelMessages, PanelInput in *.
    destruct Hd as [-> | ->]; destruct Hp as [-> | [-> | ->]]; simpl; auto. }
  split; [done|]. by apply cycleFocus_flags.
Qed.

Lemma focusPanel_consistent p a : is_panel p → focus_consistent (focusPanel p a).
Proof. intros [-> | [-> | ->]]; split; simpl; unfold is_panel; auto. Qed.

Lemma handleConnectedInput_flags a k :
  focus_flags (handleConnectedInput a k).1 = focus_flags a.
Proof. unfold handleConnectedInput. repeat case_match; done. Qed.

Lemma normalKey_consistent a k :
  focus_consistent a →
  match normalKey a k with Return a' _ | Continue a' _ => focus_consistent a' end.
Proof.
  intros Hc. unfold normalKey.
  pose proof (handleConnectedInput_frame a k) as (Hp & _).
  pose proof (handleConnectedInput_flags a k) as Hfl.
  destruct (handleConnectedInput a k) as [a1 c1]. simpl in Hp, Hfl.
  assert (focus_consistent a1) as Hc1 by (by apply (consistent_transfer a)).
  destruct Hc as [Hpan Hflags].
  repeat case_match; simplify_eq; try done;
    try (apply cycleFocus_consistent; [auto|done]).
Qed.

Lemma onKey_consistent a k :
  focus_consistent a →
  match onKey a k with Return a' _ | Continue a' _ => focus_consistent a' end.
Proof.
  intros Hc. unfold onKey.
  destruct (leaderKeyPressed a); [|by apply normalKey_consistent].
  destruct (String.eqb (tea.String_ k) "esc"); [done|].
  unfold handleLeaderKey.
  destruct (String.eqb (tea.String_ k) "r"); [done|].
  destruct (String.eqb (tea.String_ k) _); [done|].
  unfold handleLeaderNavigation.
  destruct (String.eqb (tea.String_ k) _);
    [apply focusPanel_consistent; unfold is_panel; auto|].
  destruct (String.eqb (tea.String_ k) _);
    [apply focusPanel_consistent; unfold is_panel; auto|].
  destruct (String.eqb (tea.String_ k) _);
    [apply focusPanel_consistent; unfold is_panel; auto|].
  by apply normalKey_consistent.
Qed.

(** X24: once the panel named by [focusedPanel], and no other,
    carries the focus flag, it stays so whatever message is handled;
    the one exception is the connected message that arrives while
    another panel than the conversation list has the focus. *)
Theorem focus_stays_consistent a msg :
  focus_consistent a →
  (msg = connectedMsg → focusedPanel a = PanelContacts) →
  focus_consistent (Update a msg).1.
Proof.
  intros Hc Hconn. unfold Update.
  assert (∀ a1 cmds, focus_consistent a1 →
            focus_consistent (updateFocused a1 msg cmds).1) as Hfoc.
  { intros a1 cmds Hc1. apply (consistent_transfer a1); [|apply updateFocused_flags|done].
    by destruct (updateFocused_frame a1 msg cmds) as (_ & _ & _ & ? & _). }
  assert (match dispatch a msg with
          | Return a' _ | Continue a' _ => focus_consistent a' end) as Hd.
  { destruct msg; cbn [dispatch]; try done.
    - by apply onKey_consistent.
    - apply (consistent_transfer a); try done;
        unfold updateSizes; cbv zeta; repeat case_match; done.
    - unfold handleClientEvent. repeat case_match; simplify_eq; try done.
      apply (consistent_transfer a); try done.
      unfold focus_flags, Messages.AddMessage. cbn. by case_match.
    - unfold sendMessage. by destruct (String.eqb _ _).
    - destruct Err as [e|]; cbn.
      + by apply (consistent_transfer a).
      + split; [unfold is_panel; auto|].
        unfold focus_flags. cbn. done.
    - apply (consistent_transfer a); try done.
      unfold focus_flags, Contacts.SetConversations. cbn. by case_match.
    - apply (consistent_transfer a); try done.
      unfold focus_flags, Messages.SetMessages. cbn. by case_match.
    - destruct (negb _); by apply (consistent_transfer a).
    - destruct Hc as [Hp Hfl]. specialize (Hconn eq_refl).
      split; [done|]. unfold focus_flags in *. simpl in *. rewrite Hconn in *.
      simpl in *. congruence.
    - destruct (bool_decide _); by apply (consistent_transfer a). }
  destruct (dispatch a msg); [done|]. by apply Hfoc.
Qed.

Lemma Input_Update_width i msg :
  Input.width (Input.Update i msg).1 = Input.width i.
Proof.
  assert (∀ j, Input.width (Input.deleteCharAtCursor j) = Input.width j ∧
               Input.width (Input.deleteToEndOfLine j) = Input.width j ∧
               Input.width (Input.deleteToBeginningOfLine j) = Input.width j ∧
               Input.width (Input.deleteToEndOfWord j) = Input.width j) as Hdel.
  { intros j. unfold Input.deleteCharAtCursor, Input.deleteToEndOfLine,
      Input.deleteToBeginningOfLine, Input.deleteToEndOfWord.
    split; [|split; [|split]]; cbv zeta; case_match; done. }
  destruct (Hdel i) as (Hx & HD & Hd0 & Hw).
  destruct (Hdel (Input.set_pendingAction Input.PendingNone i))
    as (Hx' & HD' & Hd0' & Hw').
  unfold Input.Update, Input.handleNormalMode, Input.handlePendingAction,
    Input.handleInsertMode, Input.sendOnEnter, Input.repeatFind, Input.cursor_to,
    Input.moveToNextWord, Input.moveToPrevWord, Input.moveToEndOfWord.
  repeat case_match; simplify_eq; cbn [fst]; try done;
    cbn [Input.width Input.set_textInput Input.set_mode];
    rewrite ?Hx, ?HD, ?Hd0, ?Hw, ?Hx', ?HD', ?Hd0', ?Hw'; done.
Qed.

(** X25: whatever the size of the terminal, the two columns and
    their borders take exactly its width, the editor is as wide as the
    message column, and the conversation column is at least 15 wide;
    the message column is at least 20 wide from a width of 39 on. *)
Theorem panels_fill_the_width a w h :
  let a' := (Update a (WindowSizeMsg w h)).1 in
  Contacts.width (contacts a') + Messages.width (messages a') + 4 = w ∧
  Input.width (input a') = Messages.width (messages a') ∧
  15 ≤ Contacts.width (contacts a') ∧
  (39 ≤ w → 20 ≤ Messages.width (messages a')) ∧
  Contacts.height (contacts a') = h - 4 ∧
  Messages.height (messages a') = h - 7.
Proof.
  cbv zeta. unfold Update. cbn [dispatch]. unfold updateFocused.
  set (a1 := updateSizes (set_size w h a)).
  pose proof (Input_Update_width (input a1) (WindowSizeMsg w h)) as Hiw.
  destruct (Input.Update (input a1) (WindowSizeMsg w h)) as [i cmd].
  cbn [fst] in Hiw.
  assert (Contacts.width (contacts a1) + Messages.width (messages a1) + 4 = w ∧
          Input.width (input a1) = Messages.width (messages a1) ∧
          15 ≤ Contacts.width (contacts a1) ∧
          (39 ≤ w → 20 ≤ Messages.width (messages a1)) ∧
          Contacts.height (contacts a1) = h - 4 ∧
          Messages.height (messages a1) = h - 7) as Hsz.
  { subst a1. unfold updateSizes. cbn [width height set_size].
    pose proof (Z.quot_rem' w 4) as Hq.
    pose proof (Z.rem_bound_abs w 4 ltac:(lia)) as Hr.
    set (q := Z.quot w 4) in *.
    repeat case_match; simplify_eq; cbn; repeat split; try lia. }
  assert (∀ c, Contacts.width (Contacts.Update c (WindowSizeMsg w h)) = Contacts.width c ∧
               Contacts.height (Contacts.Update c (WindowSizeMsg w h)) = Contacts.height c)
    as Hcu by (intros c; unfold Contacts.Update; by case_match).
  assert (∀ m, Messages.width (Messages.Update m (WindowSizeMsg w h)) = Messages.width m ∧
               Messages.height (Messages.Update m (WindowSizeMsg w h)) = Messages.height m)
    as Hmu by (intros m; unfold Messages.Update; by case_match).
  destruct (Hcu (contacts a1)) as [Hcw Hch].
  destruct (Hmu (messages a1)) as [Hmw Hmh].
  repeat case_match; cbn [fst contacts messages input set_contacts set_messages set_input];
    rewrite ?Hcw, ?Hch, ?Hmw, ?Hmh, ?Hiw; exact Hsz.
Qed.

(** X26: the leader key followed by the navigation key of a panel
    gives that panel, and no other, the focus; the chord is over, and
    the editor is in Insert mode when it is the one focused. *)
Theorem leader_chord_focuses_panel a k1 k2 :
  leaderKeyPressed a = false → matchesLeaderKey a k1 = true →
  tea.String_ k2 ≠ "esc" → tea.String_ k2 ≠ "r" →
  tea.String_ k2 ≠ config.Quit (config.Global (config.Keybinds (cfg a))) →
  let nav := config.Navigation (config.Keybinds (cfg a)) in
  let a2 := run a [KeyMsg k1; KeyMsg k2] in
  (tea.String_ k2 = config.Conversations nav →
   focusedPanel a2 = PanelContacts ∧ focus_flags a2 = (true, false, false) ∧
   leaderKeyPressed a2 = false) ∧
  (tea.String_ k2 ≠ config.Conversations nav →
   tea.String_ k2 = config.Messages nav →
   focusedPanel a2 = PanelMessages ∧ focus_flags a2 = (false, true, false) ∧
   leaderKeyPressed a2 = false) ∧
  (tea.String_ k2 ≠ config.Conversations nav →
   tea.String_ k2 ≠ config.Messages nav →
   tea.String_ k2 = config.Input nav →
   focusedPanel a2 = PanelInput ∧ focus_flags a2 = (false, false, true) ∧
   leaderKeyPressed a2 = false ∧ Input.mode (input a2) = Input.ModeInsert).
Proof.
  intros Hl Hk1 Hesc Hr Hq nav a2. subst a2 nav. unfold run. cbn [foldl].
  assert (Update a (KeyMsg k1) =
          (set_statusMsg "-- LEADER --" (set_leaderKeyPressed true a), [])) as ->.
  { unfold Update. cbn [dispatch]. unfold onKey. rewrite Hl. unfold normalKey.
    by rewrite Hk1. }
  cbn [fst]. unfold Update. cbn [dispatch]. unfold onKey.
  cbn [leaderKeyPressed set_statusMsg set_leaderKeyPressed].
  apply String.eqb_neq in Hesc, Hr, Hq. rewrite Hesc.
  unfold handleLeaderKey. cbn [cfg set_statusMsg set_leaderKeyPressed].
  rewrite Hr, Hq. unfold handleLeaderNavigation.
  cbn [cfg set_statusMsg set_leaderKeyPressed].
  split; [|split].
  - intros Hc. apply String.eqb_eq in Hc. by rewrite Hc.
  - intros Hc Hm. apply String.eqb_neq in Hc. apply String.eqb_eq in Hm.
    by rewrite Hc, Hm.
  - intros Hc Hm Hi. apply String.eqb_neq in Hc, Hm. apply String.eqb_eq in Hi.
    by rewrite Hc, Hm, Hi.
Qed.

Lemma Input_Update_no_quit i msg : CmdQuit ∉ (Input.Update i msg).2.
Proof.
  assert (∀ l : list nat, CmdQuit ∉ map CmdWidget l) as Hw.
  { intros l (x & Hx & _)%list_elem_of_fmap. done. }
  assert (∀ m0, CmdQuit ∉ [CmdMsg m0]) as Hone.
  { intros m0 [Hx|Hx%elem_of_nil]%elem_of_cons; done. }
  unfold Input.Update, Input.handleNormalMode, Input.handlePendingAction,
    Input.handleInsertMode, Input.sendOnEnter.
  repeat case_match; simplify_eq; cbn [snd];
    try apply not_elem_of_nil; try apply Hw; try apply Hone.
Qed.

(** X27: the quit key quits, except while the editor has the focus
    and holds text: then the key is handed to the editor, whose new
    state and commands are all that the update yields, nothing is
    cancelled and no quit command is issued. *)
Theorem quit_key_spares_a_draft a k :
  leaderKeyPressed a = false → matchesLeaderKey a k = false →
  key.Matches k (Quit (keyMap a)) = true →
  (focusedPanel a = PanelInput → Input.Value (input a) ≠ "" →
   Update a (KeyMsg k) =
     (set_input (λ _, (Input.Update (input a) (KeyMsg k)).1) a,
      (Input.Update (input a) (KeyMsg k)).2) ∧
   (CmdQuit ∉ (Update a (KeyMsg k)).2) ∧
   cancelled (Update a (KeyMsg k)).1 = cancelled a) ∧
  (focusedPanel a ≠ PanelInput ∨ Input.Value (input a) = "" →
   Update a (KeyMsg k) = (cancel a, [CmdQuit])).
Proof.
  intros Hl Hk Hq. unfold Update. cbn [dispatch]. unfold onKey. rewrite Hl.
  unfold normalKey. rewrite Hk, Hq. split.
  - intros Hp Hv. apply String.eqb_neq in Hv. rewrite Hp, Hv. cbn [Z.eqb andb negb].
    pose proof (Input_Update_no_quit (input a) (KeyMsg k)) as Hno.
    assert (handleConnectedInput a k = (a, [])) as Hci.
    { unfold handleConnectedInput. by rewrite Hp. }
    assert (∀ cmds, updateFocused a (KeyMsg k) cmds =
              (set_input (λ _, (Input.Update (input a) (KeyMsg k)).1) a,
               cmds ++ (Input.Update (input a) (KeyMsg k)).2)) as Hu.
    { intros cmds. unfold updateFocused. rewrite Hp.
      destruct (Input.Update (input a) (KeyMsg k)). reflexivity. }
    rewrite Hci, Z.eqb_refl. cbn [andb].
    destruct (state a); cbv beta iota zeta; rewrite Hu; done.
  - intros [Hp|Hv].
    + destruct (Z.eqb_spec (focusedPanel a) PanelInput); done.
    + rewrite Hv. by rewrite andb_false_r.
Qed.

Lemma SelectedConversation_focus b c :
  Contacts.SelectedConversation (Contacts.SetFocused b c) =
  Contacts.SelectedConversation c.
Proof. reflexivity. Qed.

(** X28: while the conversation list has the focus and a conversation
    is selected, every message that is not a key, the editor's or a new
    list of conversations ends with a request to load the messages of
    the selected conversation; the answer to such a request is one of
    these messages. *)
Theorem contacts_focus_reloads_selection a msg conv :
  focusedPanel a = PanelContacts →
  Contacts.SelectedConversation (contacts a) = Some conv →
  match msg with
  | KeyMsg _ | OpenEditorMsg _ | EditorResultMsg _ None
  | conversationsLoadedMsg _ => False
  | _ => True
  end →
  last (Update a msg).2 = Some (CmdLoadMessages (store.ID conv)) ∧
  ∀ id msgs, last (Update a (messagesLoadedMsg id msgs)).2 =
             Some (CmdLoadMessages (store.ID conv)).
Proof.
  intros Hp Hsel Hmsg.
  assert (∀ msg0 a1 cmds,
            match msg0 with KeyMsg _ => False | _ => True end →
            focusedPanel a1 = PanelContacts →
            Contacts.SelectedConversation (contacts a1) = Some conv →
            last (updateFocused a1 msg0 cmds).2 = Some (CmdLoadMessages (store.ID conv)))
    as Hu.
  { intros msg0 a1 cmds Hm0 Hp1 Hs1. unfold updateFocused. rewrite Hp1.
    change (PanelContacts =? PanelContacts) with true. cbv beta iota zeta.
    assert (Contacts.Update (contacts a1) msg0 = contacts a1) as Hid.
    { unfold Contacts.Update. destruct msg0; cbn in Hm0; try done;
        by destruct (negb _). }
    cbn [contacts set_contacts]. rewrite Hid, Hs1. cbn [snd]. apply last_snoc. }
  assert (∀ msg0,
            match msg0 with
            | KeyMsg _ | OpenEditorMsg _ | EditorResultMsg _ None
            | conversationsLoadedMsg _ => False
            | _ => True
            end →
            last (Update a msg0).2 = Some (CmdLoadMessages (store.ID conv))) as Hall.
  { clear Hmsg. intros msg0 Hm0. unfold Update.
    destruct msg0 as [k|w h|e|c|i| |c [e|]| |cs|id ms| |u| |e| | |t];
      try done; cbn [dispatch];
      try (apply Hu; done).
    - apply Hu; [done|..]; unfold updateSizes; cbv zeta;
        repeat case_match; done.
    - unfold handleClientEvent.
      destruct (client.Type_ _); try (apply Hu; done);
        first [destruct (client.Message _)|destruct (client.Error _)];
        apply Hu; done.
    - unfold sendMessage. destruct (String.eqb _ _); apply Hu; done.
    - destruct (negb _); apply Hu; done.
    - destruct (bool_decide _); apply Hu; done. }
  split; [by apply Hall|]. intros id msgs. by apply Hall.
Qed.

(** X29: Enter on the conversation list makes the selected
    conversation the active one, says so in the status line and asks
    for its messages; the focus stays on the list. *)
Theorem enter_selects_conversation a k conv :
  state a = StateConnected → focusedPanel a = PanelContacts →
  leaderKeyPressed a = false → matchesLeaderKey a k = false →
  key.Matches k (Quit (keyMap a)) = false → cycles a k = false →
  tea.String_ k = "enter" →
  Contacts.SelectedConversation (contacts a) = Some conv →
  let a' := (Update a (KeyMsg k)).1 in
  activeConversationID a' = store.ID conv ∧
  statusMsg a' = "Selected: " +:+ store.Name conv ∧
  head (Update a (KeyMsg k)).2 = Some (CmdLoadMessages (store.ID conv)) ∧
  focusedPanel a' = PanelContacts.
Proof.
  intros Hst Hp Hl Hk Hq Hc Henter Hsel. cbv zeta.
  unfold cycles in Hc. apply orb_false_iff in Hc as [Ht Hs].
  unfold Update. cbn [dispatch]. unfold onKey. rewrite Hl. unfold normalKey.
  rewrite Hk, Hq, Ht, Hs, Hst.
  unfold handleConnectedInput. rewrite Hp, Henter, Hsel.
  change ((PanelContacts =? PanelContacts) && String.eqb "enter" "enter") with true.
  cbv beta iota zeta.
  set (a1 := set_statusMsg _ _).
  pose proof (updateFocused_frame a1 (KeyMsg k) [CmdLoadMessages (store.ID conv)])
    as (_ & Hmsg & _ & Hfp & _).
  assert (activeConversationID (updateFocused a1 (KeyMsg k)
                                  [CmdLoadMessages (store.ID conv)]).1 =
          activeConversationID a1 ∧
          head (updateFocused a1 (KeyMsg k) [CmdLoadMessages (store.ID conv)]).2 =
          Some (CmdLoadMessages (store.ID conv))) as [Hid Hhd].
  { unfold updateFocused. repeat case_match; done. }
  rewrite Hid, Hmsg, Hfp, Hhd. subst a1. done.
Qed.

(** X30: a text that comes back from the external editor is put
    before the user with the editor focused; Enter then asks for
    exactly that text to be sent, and the request is turned into a send
    to the active conversation. *)
Theorem edited_message_is_sent a content k :
  TrimSpace content = content → content ≠ "" →
  tea.Type_ k = tea.KeyEnter →
  leaderKeyPressed a = false → matchesLeaderKey a k = false →
  key.Matches k (Quit (keyMap a)) = false → cycles a k = false →
  let a1 := (Update a (EditorResultMsg content None)).1 in
  let a2 := (Update a1 (KeyMsg k)).1 in
  focusedPanel a1 = PanelInput ∧
  Input.draftContent (input a1) = content ∧
  (Update a1 (KeyMsg k)).2 = [CmdMsg (SendMessageMsg content)] ∧
  Input.sending (input a2) = true ∧
  (activeConversationID a ≠ "" →
   head (Update a2 (SendMessageMsg content)).2 =
     Some (CmdSendMessage (activeConversationID a) content)).
Proof.
  intros Htrim Hne Henter Hl Hk Hq Hc. cbv zeta.
  unfold cycles in Hc. apply orb_false_iff in Hc as [Ht Hs].
  set (i0 := Input.SetFocused true (Input.SetValue content (input a))).
  assert (Input.draftContent i0 = content ∧ Input.focused i0 = true ∧
          Input.mode i0 = Input.ModeInsert) as (Hd0 & Hf0 & Hm0).
  { subst i0. unfold Input.SetValue. by case_match. }
  set (a0 := set_statusMsg "Press Enter to send"
               (set_focusedPanel PanelInput
                  (set_input (Input.SetFocused true)
                     (set_messages (Messages.SetFocused false)
                        (set_contacts (Contacts.SetFocused false)
                           (set_input (Input.SetValue content) a)))))).
  set (i1 := (Input.Update i0 (EditorResultMsg content None)).1).
  assert (Update a (EditorResultMsg content None) =
          (set_input (λ _, i1) a0,
           (Input.Update i0 (EditorResultMsg content None)).2)) as Hup1.
  { unfold Update. cbn [dispatch]. fold a0. unfold updateFocused.
    change (focusedPanel a0) with PanelInput.
    change (input a0) with i0. subst i1.
    destruct (Input.Update i0 (EditorResultMsg content None)). reflexivity. }
  assert (Input.draftContent i1 = content ∧ Input.focused i1 = true ∧
          Input.mode i1 = Input.ModeInsert) as (Hd1 & Hf1 & Hm1).
  { subst i1. unfold Input.Update. rewrite Hf0, Hm0. cbn.
    destruct (textinput.Update _ _). done. }
  rewrite Hup1. cbn [fst].
  set (a1 := set_input (λ _, i1) a0).
  set (i2 := Input.set_sending true
               (Input.set_draftContent "" (Input.set_textInput textinput.Reset i1))).
  assert (Input.Update i1 (KeyMsg k) = (i2, [CmdMsg (SendMessageMsg content)])) as Hin.
  { unfold Input.Update. rewrite Hf1, Hm1. cbn [bool_decide decide_rel].
    rewrite bool_decide_eq_false_2 by done.
    unfold Input.handleInsertMode. rewrite Henter.
    unfold Input.sendOnEnter. rewrite Hd1, Htrim.
    apply String.eqb_neq in Hne. rewrite Hne. cbv beta iota zeta.
    rewrite Hne. done. }
  assert (Update a1 (KeyMsg k) =
          (set_input (λ _, i2) a1, [CmdMsg (SendMessageMsg content)])) as Hup2.
  { unfold Update. cbn [dispatch]. unfold onKey.
    change (leaderKeyPressed a1) with (leaderKeyPressed a). rewrite Hl.
    unfold normalKey.
    change (matchesLeaderKey a1 k) with (matchesLeaderKey a k).
    change (keyMap a1) with (keyMap a). rewrite Hk, Hq, Ht, Hs.
    assert (handleConnectedInput a1 k = (a1, [])) as Hci by reflexivity.
    rewrite Hci.
    assert (updateFocused a1 (KeyMsg k) [] =
            (set_input (λ _, i2) a1, [CmdMsg (SendMessageMsg content)])) as Hu.
    { unfold updateFocused. change (focusedPanel a1) with PanelInput.
      change (input a1) with i1. rewrite Hin. reflexivity. }
    destruct (state a1); cbv beta iota zeta; exact Hu. }
  rewrite Hup2. cbn [fst snd].
  split; [done|]. split; [done|]. split; [done|]. split; [done|].
  intros Hact. unfold Update. cbn [dispatch]. unfold sendMessage.
  change (activeConversationID (set_input (λ _, i2) a1)) with (activeConversationID a).
  apply String.eqb_neq in Hact. rewrite Hact. cbv beta iota zeta.
  unfold updateFocused. change (focusedPanel (set_input (λ _, i2) a1)) with PanelInput.
  change (PanelInput =? PanelContacts) with false.
  change (PanelInput =? PanelMessages) with false.
  change (PanelInput =? PanelInput) with true. cbv beta iota zeta.
  destruct (Input.Update (input (set_input (λ _, i2) a1)) (SendMessageMsg content)).
  reflexivity.
Qed.
End PanelFacts.

(* ================================================================== *)
(** * The theorems at concrete inputs *)
(* ================================================================== *)

Import Reference.

(** The scenario of the specification: [dw] on "hello world". *)
Example dw_on_hello_world :
  let m := Input.type_keys (normal_editor "hello world")
             [tea.letter "d"; tea.letter "w"] in
  Input.Value m = "world" ∧ textinput.Position (Input.textInput m) = 0 ∧
  Input.mode m = Input.ModeNormal.
Proof. repeat split; reflexivity. Qed.

(** A word motion, an end-of-word motion and a find on the same line. *)
Example motions_on_hello_world :
  let at_ ks := textinput.Position
                  (Input.textInput (Input.type_keys (normal_editor "hello world") ks)) in
  at_ [tea.letter "w"] = 6 ∧ at_ [tea.letter "e"] = 4 ∧
  at_ [tea.letter "$"; tea.letter "b"] = 6 ∧
  at_ [tea.letter "f"; tea.letter "o"; tea.letter ";"] = 7 ∧
  at_ [tea.letter "$"; tea.letter "F"; tea.letter "l"] = 9.
Proof. repeat split; reflexivity. Qed.

(** The sorting loops on five ranks. *)
Example exchange_sort_five :
  Loops.exchange_sort (λ b a : Z, a <? b) [3; 1; 5; 2; 4] = [5; 4; 3; 2; 1].
Proof. reflexivity. Qed.

(** Scores of the search: prefix, substring, scattered, no match. *)
Example fuzzyMatch_scores :
  Contacts.fuzzyMatch "he" "hello" = 1002 ∧ Contacts.fuzzyMatch "ell" "hello" = 503 ∧
  Contacts.fuzzyMatch "hlo" "hello" = 55 ∧ Contacts.fuzzyMatch "hx" "hello" = 0.
Proof. repeat split; reflexivity. Qed.

(** The chord as intended: leader, then the navigation key of a panel. *)
Example leader_then_navigation_key :
  App.focusedPanel (App.run chord_pending [ch "i"]) = App.PanelInput ∧
  App.leaderKeyPressed (App.run chord_pending [ch "i"]) = false ∧
  App.focusedPanel (App.run chord_pending [esc; ch "i"]) = App.PanelContacts.
Proof. repeat split; reflexivity. Qed.

Lemma GetConversations_newest_first_witness :
  store.cached demo_store ≡ₚ store.cached demo_store ∧
  (let convs := store.GetConversations_from (store.cached demo_store) in
   convs ≡ₚ store.cached demo_store ∧
   (∀ c, c ∈ convs ↔ ∃ id, store.conversations demo_store !! id = Some c) ∧
   (∀ i j ci cj, (i < j)%nat → convs !! i = Some ci → convs !! j = Some cj →
      store.After (store.LatestTimestamp cj) (store.LatestTimestamp ci) = false)).
Proof.
  split; [reflexivity|].
  apply (GetConversations_newest_first demo_store (store.cached demo_store)).
  reflexivity.
Defined.

Lemma search_filters_by_subsequence_witness :
  let m := demo_contacts in
  let conv := conv_old in
  let rq := [104; 119; 100] in
  let rn := [104; 101; 108; 108; 111; 32; 119; 111; 114; 108; 100] in
  (Contacts.searchQuery m ≠ "" ∧
   ToLower (Contacts.searchQuery m) = GoStr.of_runes rq ∧
   Forall GoStr.single_byte rq ∧
   ToLower (store.Name conv) = GoStr.of_runes rn ∧
   Forall GoStr.single_byte rn) ∧
  ((conv ∈ Contacts.getFilteredConversations m ↔
    conv ∈ Contacts.conversations m ∧ rq `sublist_of` rn) ∧
   (rq `sublist_of` rn ↔
    0 < Contacts.fuzzyMatch (ToLower (Contacts.searchQuery m))
          (ToLower (store.Name conv))) ∧
   Contacts.getFilteredConversations
     (Contacts.set_search (Contacts.searchMode m) "" m)
   = Contacts.conversations m).
Proof.
  intros m conv rq rn.
  assert (Contacts.searchQuery m ≠ "") as Hq by discriminate.
  assert (Forall GoStr.single_byte rq) as Hsq.
  { repeat (constructor; [unfold GoStr.single_byte; lia|]). constructor. }
  assert (Forall GoStr.single_byte rn) as Hsn.
  { repeat (constructor; [unfold GoStr.single_byte; lia|]). constructor. }
  assert (ToLower (Contacts.searchQuery m) = GoStr.of_runes rq) as Hrq
    by (vm_compute; reflexivity).
  assert (ToLower (store.Name conv) = GoStr.of_runes rn) as Hrn
    by (vm_compute; reflexivity).
  split; [repeat split; assumption|].
  apply (search_filters_by_subsequence m conv rq rn Hq Hrq Hsq Hrn Hsn).
Defined.

Lemma motions_keep_cursor_in_bounds_witness :
  let m := normal_editor "hello world" in
  let mos := [Input.Move_w; Input.Find_f (tea.letter "o"); Input.Move_e;
              Input.Repeat_comma; Input.Move_dollar; Input.Move_l; Input.Move_b;
              Input.Find_F (tea.letter "z"); Input.Repeat_semicolon;
              Input.Move_0; Input.Move_h] in
  let m0 := normal_editor "" in
  let mos0 := [Input.Move_w; Input.Move_dollar; Input.Repeat_semicolon;
               Input.Move_l; Input.Move_e; Input.Move_b; Input.Move_h] in
  ((Input.mode m = Input.ModeNormal ∧ Input.pendingAction m = Input.PendingNone ∧
    Input.cursor_ok m) ∧
   (let m' := Input.type_keys m (mos ≫= Input.keys_of) in
    (0 ≤ textinput.Position (Input.textInput m') ≤
       textinput.runes_len (Input.textInput m') ∧
     textinput.runes_len (Input.textInput m') ≤ GoStr.len (Input.Value m')) ∧
    Input.Value m' = Input.Value m)) ∧
  ((Input.mode m0 = Input.ModeNormal ∧ Input.pendingAction m0 = Input.PendingNone ∧
    Input.cursor_ok m0 ∧ Input.Value m0 = "" ∧
    Forall (λ mo, Input.is_find mo = false) mos0) ∧
   (let m1 := Input.type_keys m0 (mos ≫= Input.keys_of) in
    m1 = Input.set_lastFind (Input.lastFindChar m1) (Input.lastFindDir m1) m0) ∧
   Input.type_keys m0 (mos0 ≫= Input.keys_of) = m0).
Proof.
  intros m mos m0 mos0.
  assert (Input.cursor_ok m) as Hok
    by (unfold Input.cursor_ok; split; vm_compute; discriminate).
  assert (Input.cursor_ok m0) as Hok0
    by (unfold Input.cursor_ok; split; vm_compute; discriminate).
  assert (Forall (λ mo, Input.is_find mo = false) mos0) as Hmos0
    by (repeat constructor).
  split.
  - split; [repeat split; try reflexivity; apply Hok|].
    destruct (motions_keep_cursor_in_bounds m mos eq_refl eq_refl Hok)
      as (Hb & Hv & _).
    split; [exact Hb|exact Hv].
  - split; [repeat split; try reflexivity; try apply Hok0; exact Hmos0|].
    split.
    + destruct (motions_keep_cursor_in_bounds m0 mos eq_refl eq_refl Hok0)
        as (_ & _ & He).
      exact (proj1 (He eq_refl)).
    + destruct (motions_keep_cursor_in_bounds m0 mos0 eq_refl eq_refl Hok0)
        as (_ & _ & He).
      exact (proj2 (He eq_refl) Hmos0).
Defined.

Lemma find_moves_and_remembers_witness :
  let m := normal_editor "hello world" in
  let k := tea.letter "o" in
  let c : ascii := "o"%char in
  (Input.focused m = true ∧ Input.mode m = Input.ModeNormal ∧
   Input.pendingAction m = Input.PendingNone ∧ Input.cursor_ok m ∧
   Forall GoStr.single_byte (textinput.value (Input.textInput m)) ∧
   tea.String_ k = String c EmptyString) ∧
  (let val := Input.Value m in
   let pos := textinput.Position (Input.textInput m) in
   let mf := Input.type_keys m [tea.letter "f"; k] in
   let mF := Input.type_keys m [tea.letter "F"; k] in
   let mc := Input.type_keys mf [tea.letter ","] in
   ((∀ i, Input.next_occurrence val c pos i →
          textinput.Position (Input.textInput mf) = i) ∧
    (Input.no_occurrence_after val c pos →
     textinput.Position (Input.textInput mf) = pos) ∧
    Input.Value mf = val ∧ Input.lastFindChar mf = c ∧ Input.lastFindDir mf = 1) ∧
   ((∀ i, Input.prev_occurrence val c pos i →
          textinput.Position (Input.textInput mF) = i) ∧
    (Input.no_occurrence_before val c pos →
     textinput.Position (Input.textInput mF) = pos) ∧
    Input.Value mF = val ∧ Input.lastFindChar mF = c ∧ Input.lastFindDir mF = -1) ∧
   (c ≠ Ascii.zero →
    (∀ i, Input.prev_occurrence val c (textinput.Position (Input.textInput mf)) i →
          textinput.Position (Input.textInput mc) = i) ∧
    (Input.no_occurrence_before val c (textinput.Position (Input.textInput mf)) →
     textinput.Position (Input.textInput mc) =
     textinput.Position (Input.textInput mf)))).
Proof.
  intros m k c.
  assert (Input.cursor_ok m) as Hok
    by (unfold Input.cursor_ok; split; vm_compute; discriminate).
  assert (Forall GoStr.single_byte (textinput.value (Input.textInput m))) as Hsb.
  { change (textinput.value (Input.textInput m))
      with [104; 101; 108; 108; 111; 32; 119; 111; 114; 108; 100].
    repeat (constructor; [unfold GoStr.single_byte; lia|]). constructor. }
  split; [repeat split; try reflexivity; assumption || apply Hok|].
  apply (find_moves_and_remembers m k c);
    [reflexivity|reflexivity|reflexivity|exact Hok|exact Hsb|reflexivity].
Defined.

Lemma dd_cc_clear_line_witness :
  let m := normal_editor "hello world" in
  (Input.focused m = true ∧ Input.mode m = Input.ModeNormal ∧
   Input.pendingAction m = Input.PendingNone) ∧
  (let md := Input.type_keys m [tea.letter "d"; tea.letter "d"] in
   let mc := Input.type_keys m [tea.letter "c"; tea.letter "c"] in
   (Input.Value md = "" ∧ Input.draftContent md = "" ∧
    Input.mode md = Input.ModeNormal ∧ Input.pendingAction md = Input.PendingNone) ∧
   (Input.Value mc = "" ∧ Input.draftContent mc = "" ∧
    Input.mode mc = Input.ModeInsert ∧ Input.pendingAction mc = Input.PendingNone)).
Proof.
  intros m. split; [repeat split; reflexivity|].
  apply (dd_cc_clear_line m); reflexivity.
Defined.

Lemma enter_submits_trimmed_draft_witness :
  let m := normal_editor "  hello world " in
  (Input.focused m = true ∧
   (Input.mode m = Input.ModeNormal → Input.pendingAction m = Input.PendingNone)) ∧
  (Input.Update m (KeyMsg (tea.press tea.KeyEnter)) =
     (if String.eqb (Input.submission m) "" then (m, [])
      else (Input.submitted m, [CmdMsg (SendMessageMsg (Input.submission m))])) ∧
   (Input.draftContent (Input.submitted m) = "" ∧
    Input.Value (Input.submitted m) = "" ∧
    Input.sending (Input.submitted m) = true) ∧
   (∀ v, TrimSpace v = v → v ≠ "" →
      Input.Update (Input.SetValue v m) (KeyMsg (tea.press tea.KeyEnter)) =
        (Input.submitted (Input.SetValue v m), [CmdMsg (SendMessageMsg v)]))).
Proof.
  intros m. split; [split; [reflexivity|intros _; reflexivity]|].
  apply (enter_submits_trimmed_draft m); [reflexivity|intros _; reflexivity].
Defined.

Lemma send_without_conversation_witness :
  App.activeConversationID connected = "" ∧
  ((App.sendMessage "hi" connected).2 = [] ∧
   App.statusMsg (App.sendMessage "hi" connected).1 =
     "Select a conversation first! (Enter in contacts)" ∧
   Input.sending (App.input (App.sendMessage "hi" connected).1) = false ∧
   (∀ id c, CmdSendMessage id c ∉ (App.Update connected (SendMessageMsg "hi")).2)).
Proof.
  split; [reflexivity|].
  apply (send_without_conversation connected "hi"). reflexivity.
Defined.

Lemma cycleFocus_cyclic_witness :
  App.is_panel (App.focusedPanel connected) ∧
  (let a3 := App.cycleFocus 1 (App.cycleFocus 1 (App.cycleFocus 1 connected)) in
   let a0 := App.cycleFocus (-1) (App.cycleFocus 1 connected) in
   (App.focusedPanel a3 = App.focusedPanel connected ∧
    App.focus_flags a3 = (App.focusedPanel connected =? App.PanelContacts,
                          App.focusedPanel connected =? App.PanelMessages,
                          App.focusedPanel connected =? App.PanelInput)) ∧
   (App.focusedPanel a0 = App.focusedPanel connected ∧
    App.focus_flags a0 = (App.focusedPanel connected =? App.PanelContacts,
                          App.focusedPanel connected =? App.PanelMessages,
                          App.focusedPanel connected =? App.PanelInput))).
Proof.
  split; [left; reflexivity|].
  apply (cycleFocus_cyclic connected). left. reflexivity.
Defined.

Lemma leader_then_unmapped_key_witness :
  let a := chord_pending in
  let k2 := tea.letter "x" in
  let k3 := tea.letter "m" in
  (App.leaderKeyPressed a = true ∧ App.unmapped a k2 ∧
   App.matchesLeaderKey a k2 = false ∧ App.cycles a k2 = false ∧
   App.cycles a k3 = false) ∧
  (let a2 := (App.Update a (KeyMsg k2)).1 in
   let a3 := (App.Update a2 (KeyMsg k3)).1 in
   (App.leaderKeyPressed a2 = true ↔
    App.unmapped a k2 ∧ App.matchesLeaderKey a k2 = true) ∧
   App.Update a (KeyMsg k2) =
     App.Update (App.set_leaderKeyPressed false a) (KeyMsg k2) ∧
   App.leaderKeyPressed a2 = false ∧
   App.focusedPanel a2 = App.focusedPanel a ∧
   App.focusedPanel a3 = App.focusedPanel a).
Proof.
  intros a k2 k3.
  assert (App.unmapped a k2) as Hun by (repeat split; discriminate).
  split; [repeat split; try reflexivity; apply Hun|].
  destruct (leader_then_unmapped_key a k2 k3 eq_refl) as [Hiff Hrest].
  destruct (Hrest Hun) as [Hplain Hfocus].
  destruct (Hfocus eq_refl eq_refl) as (Hl2 & Hf2 & Hf3).
  split; [exact Hiff|]. split; [exact Hplain|]. split; [exact Hl2|].
  split; [exact Hf2|exact (Hf3 eq_refl)].
Defined.

(** ** The further properties at concrete inputs *)

Lemma contacts_update_keeps_selection_witness :
  let m := demo_list in
  let msg := ch "j" in
  (1 ≤ Contacts.visibleItemCount m ∧ Contacts.selection_ok m) ∧
  (Contacts.selection_ok (Contacts.Update m msg) ∧
   Contacts.conversations (Contacts.Update m msg) = Contacts.conversations m ∧
   Contacts.visibleItemCount (Contacts.Update m msg) = Contacts.visibleItemCount m).
Proof.
  intros m msg.
  assert (1 ≤ Contacts.visibleItemCount m) as Hv by (vm_compute; discriminate).
  assert (Contacts.selection_ok m) as Hok.
  { split; [split; vm_compute; discriminate|].
    split; [vm_compute; reflexivity|left; vm_compute; reflexivity]. }
  split; [done|]. apply (contacts_update_keeps_selection m msg Hv Hok).
Defined.

Lemma messages_update_keeps_selection_witness :
  let m := demo_messages in
  let msg := ch "k" in
  (1 ≤ Messages.visibleItemCount m ∧ 1 ≤ Messages.count m ∧
   Messages.selection_ok m) ∧
  (Messages.selection_ok (Messages.Update m msg) ∧
   Messages.messages (Messages.Update m msg) = Messages.messages m ∧
   Messages.visibleItemCount (Messages.Update m msg) = Messages.visibleItemCount m).
Proof.
  intros m msg.
  assert (1 ≤ Messages.visibleItemCount m) as Hv by (vm_compute; discriminate).
  assert (1 ≤ Messages.count m) as Hc by (vm_compute; discriminate).
  assert (Messages.selection_ok m) as Hok.
  { split; [split; vm_compute; discriminate|].
    split; [vm_compute; reflexivity|left; vm_compute; reflexivity]. }
  split; [done|]. apply (messages_update_keeps_selection m msg Hv Hc Hok).
Defined.

Lemma page_down_on_empty_list_witness :
  let m := empty_messages in
  let k := tea.press tea.KeyPgDown in
  (Messages.focused m = true ∧ Messages.messages m = [] ∧
   0 ≤ Messages.selected m ∧ 0 ≤ Messages.visibleItemCount m ∧
   tea.String_ k ∈ Messages.keyMap_PageDown) ∧
  (Messages.selected (Messages.Update m (KeyMsg k)) = -1 ∧
   Messages.SelectedMessage (Messages.Update m (KeyMsg k)) = None).
Proof.
  intros m k.
  assert (0 ≤ Messages.selected m) as Hs by (vm_compute; discriminate).
  assert (0 ≤ Messages.visibleItemCount m) as Hv by (vm_compute; discriminate).
  assert (tea.String_ k ∈ Messages.keyMap_PageDown) as Hk by (vm_compute; constructor).
  split; [done|].
  apply (page_down_on_empty_list m k eq_refl eq_refl Hs Hv Hk).
Defined.

Lemma SetConversations_keeps_selection_in_list_witness :
  let m := Contacts.set_selection 1 0 demo_list in
  let convs := [conv_new] in
  0 ≤ Contacts.selected m ∧
  (let m' := Contacts.SetConversations convs m in
   Contacts.conversations m' = convs ∧
   0 ≤ Contacts.selected m' ∧
   (Contacts.selected m' < Z.of_nat (length convs) ∨
    (convs = [] ∧ Contacts.selected m' = 0)) ∧
   (Contacts.selected m < Z.of_nat (length convs) →
    Contacts.selected m' = Contacts.selected m) ∧
   (Z.of_nat (length convs) ≤ Contacts.selected m →
    Contacts.selected m' = Z.max 0 (Z.of_nat (length convs) - 1) ∧
    (Contacts.searchQuery m = "" →
     Contacts.SelectedConversation m' = last convs)) ∧
   (convs ≠ [] → Contacts.searchQuery m = "" →
    is_Some (Contacts.SelectedConversation m'))).
Proof.
  intros m convs.
  assert (0 ≤ Contacts.selected m) as Hs by (vm_compute; discriminate).
  split; [done|].
  apply (SetConversations_keeps_selection_in_list m convs Hs).
Defined.

Lemma search_input_resets_selection_witness :
  let m := demo_search in
  let k := tea.letter "j" in
  (Contacts.focused m = true ∧ Contacts.searchMode m = true) ∧
  (let m' := Contacts.Update m (KeyMsg k) in
   Contacts.conversations m' = Contacts.conversations m ∧
   (Contacts.searchQuery m' ≠ Contacts.searchQuery m →
    Contacts.selected m' = 0 ∧ Contacts.offset m' = 0) ∧
   ((Contacts.selected m' = Contacts.selected m ∧
     Contacts.offset m' = Contacts.offset m) ∨
    (Contacts.selected m' = 0 ∧ Contacts.offset m' = 0)) ∧
   (tea.Type_ k = tea.KeyRunes →
    Contacts.searchQuery m' =
      Contacts.searchQuery m +:+ GoStr.of_runes (tea.Runes k) ∧
    Contacts.searchMode m' = true)).
Proof.
  intros m k. split; [done|].
  apply (search_input_resets_selection m k eq_refl eq_refl).
Defined.

Lemma search_results_best_first_witness :
  let m := demo_search in
  Contacts.searchQuery m ≠ "" ∧
  (let score c :=
     Contacts.fuzzyMatch (ToLower (Contacts.searchQuery m))
       (ToLower (store.Name c)) in
   Contacts.getFilteredConversations m ≡ₚ
     filter (λ c, 0 < score c) (Contacts.conversations m) ∧
   ∀ i j ci cj, (i < j)%nat →
     Contacts.getFilteredConversations m !! i = Some ci →
     Contacts.getFilteredConversations m !! j = Some cj →
     score cj ≤ score ci).
Proof.
  intros m.
  assert (Contacts.searchQuery m ≠ "") as Hq by discriminate.
  split; [done|]. apply (search_results_best_first m Hq).
Defined.

Lemma demo_store_keyed : store.keyed demo_store.
Proof.
  apply map_Forall_lookup.
  apply (bool_decide_unpack
           (map_Forall (λ id c, store.ID c = id) (store.conversations demo_store))).
  vm_compute. exact I.
Qed.

Lemma cache_stays_keyed_witness :
  let s := demo_store in
  store.keyed s ∧
  ((∀ convs, store.keyed (store.SetConversations s convs)) ∧
   (∀ conv, store.keyed (store.UpdateConversation s conv)) ∧
   (∀ id msgs, store.keyed (store.SetMessages s id msgs)) ∧
   (∀ msg, store.keyed (store.AddMessage s msg)) ∧
   (∀ id, store.keyed (store.MarkConversationRead s id))).
Proof.
  intros s. split; [exact demo_store_keyed|].
  apply (cache_stays_keyed s demo_store_keyed).
Defined.

Lemma GetConversations_distinct_ids_witness :
  let s := demo_store in
  let iter := store.cached demo_store in
  (store.keyed s ∧ iter ≡ₚ store.cached s) ∧
  NoDup (store.ID <$> store.GetConversations_from iter).
Proof.
  intros s iter. split; [split; [exact demo_store_keyed|reflexivity]|].
  apply (GetConversations_distinct_ids s iter demo_store_keyed). reflexivity.
Defined.

Lemma demo_store_older_than_msg_late :
  ∀ id c', store.GetConversation demo_store id = Some c' →
           store.LatestTimestamp c' < store.Timestamp msg_late.
Proof.
  apply map_Forall_lookup.
  apply (bool_decide_unpack
           (map_Forall (λ (_ : string) c,
                          store.LatestTimestamp c < store.Timestamp msg_late)
              (store.conversations demo_store))).
  vm_compute. exact I.
Qed.

Lemma new_message_moves_conversation_to_top_witness :
  let s := demo_store in
  let msg := msg_late in
  let c := conv_old in
  let iter := store.cached (store.AddMessage s msg) in
  (store.GetConversation s (store.ConversationID msg) = Some c ∧
   (∀ id c', store.GetConversation s id = Some c' →
             store.LatestTimestamp c' < store.Timestamp msg) ∧
   iter ≡ₚ store.cached (store.AddMessage s msg)) ∧
  (head (store.GetConversations_from iter) = Some (store.touch msg c) ∧
   store.LatestMessage (store.touch msg c) = store.Content msg ∧
   (store.IsFromMe msg = false → store.Unread (store.touch msg c) = true)).
Proof.
  intros s msg c iter.
  assert (store.GetConversation s (store.ConversationID msg) = Some c) as Hc
    by (vm_compute; reflexivity).
  split; [split; [done|split; [exact demo_store_older_than_msg_late|reflexivity]]|].
  apply (new_message_moves_conversation_to_top s msg c iter Hc
           demo_store_older_than_msg_late).
  reflexivity.
Defined.

Lemma unread_until_marked_read_witness :
  let s := demo_store in
  let msg := msg_late in
  let c := conv_old in
  (store.GetConversation s (store.ConversationID msg) = Some c ∧
   store.IsFromMe msg = false) ∧
  (let s1 := store.AddMessage s msg in
   let s2 := store.MarkConversationRead s1 (store.ConversationID msg) in
   (store.Unread <$> store.GetConversation s1 (store.ConversationID msg)) = Some true ∧
   store.GetConversation s2 (store.ConversationID msg) =
     Some (store.read (store.touch msg c)) ∧
   store.Unread (store.read (store.touch msg c)) = false ∧
   store.LatestMessage (store.read (store.touch msg c)) = store.Content msg ∧
   (∀ id, store.GetMessages s2 id = store.GetMessages s1 id) ∧
   (∀ id, id ≠ store.ConversationID msg →
          store.GetConversation s2 id = store.GetConversation s id) ∧
   store.MarkConversationRead s2 (store.ConversationID msg) = s2).
Proof.
  intros s msg c.
  assert (store.GetConversation s (store.ConversationID msg) = Some c) as Hc
    by (vm_compute; reflexivity).
  split; [done|]. apply (unread_until_marked_read s msg c Hc eq_refl).
Defined.

Lemma normal_mode_keeps_cursor_in_text_witness :
  let m := normal_editor "hello world" in
  let msg := ch "x" in
  (Input.mode m = Input.ModeNormal ∧ Input.cursor_ok m) ∧
  Input.cursor_ok (Input.Update m msg).1.
Proof.
  intros m msg.
  assert (Input.cursor_ok m) as Hok
    by (unfold Input.cursor_ok; split; vm_compute; discriminate).
  split; [done|].
  apply (normal_mode_keeps_cursor_in_text m msg eq_refl Hok).
Defined.

Lemma operator_waits_for_one_key_witness :
  let m := Input.type_keys (normal_editor "hello world") [tea.letter "d"] in
  let k := tea.letter "z" in
  (Input.focused m = true ∧ Input.mode m = Input.ModeNormal ∧
   Input.pendingAction m ≠ Input.PendingNone) ∧
  (Input.pendingAction (Input.Update m (KeyMsg k)).1 = Input.PendingNone ∧
   (Input.Update m (KeyMsg k)).2 = [] ∧
   ((Input.pendingAction m = Input.PendingDelete ∨
     Input.pendingAction m = Input.PendingChange) →
    tea.String_ k ∉ ["w"; "e"; "$"; "0"; "d"; "c"] →
    (Input.Update m (KeyMsg k)).1 = Input.set_pendingAction Input.PendingNone m)).
Proof.
  intros m k.
  assert (Input.pendingAction m ≠ Input.PendingNone) as Hp
    by (vm_compute; discriminate).
  split; [done|].
  apply (operator_waits_for_one_key m k eq_refl eq_refl Hp).
Defined.

Lemma esc_then_i_is_identity_witness :
  let m := editor "hello" in
  let kesc := tea.press tea.KeyEscape in
  let ki := tea.letter "i" in
  (Input.focused m = true ∧ Input.mode m = Input.ModeInsert ∧
   Input.pendingAction m = Input.PendingNone ∧
   textinput.focus (Input.textInput m) = true ∧
   tea.Type_ kesc = tea.KeyEscape ∧ tea.String_ ki = "i") ∧
  (let m1 := (Input.Update m (KeyMsg kesc)).1 in
   Input.mode m1 = Input.ModeNormal ∧
   textinput.value (Input.textInput m1) = textinput.value (Input.textInput m) ∧
   textinput.Position (Input.textInput m1) = textinput.Position (Input.textInput m) ∧
   (Input.Update m1 (KeyMsg ki)).1 = m).
Proof.
  intros m kesc ki. split; [done|].
  apply (esc_then_i_is_identity m kesc ki eq_refl eq_refl eq_refl eq_refl
           eq_refl eq_refl).
Defined.

Lemma line_ends_are_reached_witness :
  let m := wide_editor in
  let k := tea.letter "$" in
  (Input.focused m = true ∧ Input.mode m = Input.ModeNormal ∧
   Input.pendingAction m = Input.PendingNone) ∧
  (let m' := (Input.Update m (KeyMsg k)).1 in
   (tea.String_ k = "$" ∨ tea.String_ k = "A" →
    textinput.Position (Input.textInput m') = textinput.runes_len (Input.textInput m)) ∧
   (tea.String_ k = "0" ∨ tea.String_ k = "I" →
    textinput.Position (Input.textInput m') = 0) ∧
   (tea.String_ k ∈ ["$"; "A"; "0"; "I"] →
    textinput.value (Input.textInput m') = textinput.value (Input.textInput m) ∧
    Input.mode m' = (if bool_decide (tea.String_ k ∈ ["A"; "I"])
                     then Input.ModeInsert else Input.ModeNormal))).
Proof.
  intros m k. split; [done|].
  apply (line_ends_are_reached m k eq_refl eq_refl eq_refl).
Defined.

Lemma deletions_cut_the_text_witness :
  let m := Input.type_keys (normal_editor "hello world") [tea.letter "w"] in
  let rs := [104; 101; 108; 108; 111; 32; 119; 111; 114; 108; 100] in
  let p := 6%nat in
  (textinput.value (Input.textInput m) = rs ∧
   textinput.Position (Input.textInput m) = Z.of_nat p ∧
   (p ≤ length rs)%nat ∧ Forall GoStr.single_byte rs ∧
   (textinput.CharLimit (Input.textInput m) ≤ 0 ∨
    Z.of_nat (length rs) ≤ textinput.CharLimit (Input.textInput m)) ∧
   (∀ l, l ∈ [take p rs ++ drop (S p) rs; take p rs; drop p rs] →
         textinput.Sanitize (runes_of_string (GoStr.of_runes l)) = l)) ∧
  (let x := Input.textInput (Input.deleteCharAtCursor m) in
   let D := Input.textInput (Input.deleteToEndOfLine m) in
   let d0 := Input.textInput (Input.deleteToBeginningOfLine m) in
   (textinput.value x = take p rs ++ drop (S p) rs ∧
    textinput.Position x = Z.of_nat p) ∧
   (textinput.value D = take p rs ∧ textinput.Position D = Z.of_nat p) ∧
   (textinput.value d0 = drop p rs ∧ textinput.Position d0 = 0)).
Proof.
  intros m rs p.
  assert ((p ≤ length rs)%nat) as Hp by (vm_compute; lia).
  assert (Forall GoStr.single_byte rs) as Hsb.
  { repeat (constructor; [unfold GoStr.single_byte; lia|]). constructor. }
  assert (textinput.CharLimit (Input.textInput m) ≤ 0 ∨
          Z.of_nat (length rs) ≤ textinput.CharLimit (Input.textInput m)) as Hlim
    by (right; vm_compute; discriminate).
  assert (∀ l, l ∈ [take p rs ++ drop (S p) rs; take p rs; drop p rs] →
               textinput.Sanitize (runes_of_string (GoStr.of_runes l)) = l) as Hlib.
  { intros l Hl. rewrite !elem_of_cons in Hl.
    destruct Hl as [-> | [-> | [-> | Hl]]];
      [reflexivity|reflexivity|reflexivity|by apply elem_of_nil in Hl]. }
  split; [done|].
  apply (deletions_cut_the_text m rs p eq_refl eq_refl Hp Hsb Hlim Hlib).
Defined.

Lemma focus_stays_consistent_witness :
  let a := connected in
  let msg := tab in
  (App.focus_consistent a ∧
   (msg = connectedMsg → App.focusedPanel a = App.PanelContacts)) ∧
  App.focus_consistent (App.Update a msg).1.
Proof.
  intros a msg.
  assert (App.focus_consistent a) as Hc by (split; [by left|reflexivity]).
  assert (msg = connectedMsg → App.focusedPanel a = App.PanelContacts) as Hm
    by discriminate.
  split; [done|]. apply (focus_stays_consistent a msg Hc Hm).
Defined.

Lemma leader_chord_focuses_panel_witness :
  let a := connected in
  let k1 := tea.press tea.KeyCtrlAt in
  let k2 := tea.letter "m" in
  (App.leaderKeyPressed a = false ∧ App.matchesLeaderKey a k1 = true ∧
   tea.String_ k2 ≠ "esc" ∧ tea.String_ k2 ≠ "r" ∧
   tea.String_ k2 ≠ config.Quit (config.Global (config.Keybinds (App.cfg a)))) ∧
  (let nav := config.Navigation (config.Keybinds (App.cfg a)) in
   let a2 := App.run a [KeyMsg k1; KeyMsg k2] in
   (tea.String_ k2 = config.Conversations nav →
    App.focusedPanel a2 = App.PanelContacts ∧
    App.focus_flags a2 = (true, false, false) ∧
    App.leaderKeyPressed a2 = false) ∧
   (tea.String_ k2 ≠ config.Conversations nav →
    tea.String_ k2 = config.Messages nav →
    App.focusedPanel a2 = App.PanelMessages ∧
    App.focus_flags a2 = (false, true, false) ∧
    App.leaderKeyPressed a2 = false) ∧
   (tea.String_ k2 ≠ config.Conversations nav →
    tea.String_ k2 ≠ config.Messages nav →
    tea.String_ k2 = config.Input nav →
    App.focusedPanel a2 = App.PanelInput ∧
    App.focus_flags a2 = (false, false, true) ∧
    App.leaderKeyPressed a2 = false ∧
    Input.mode (App.input a2) = Input.ModeInsert)).
Proof.
  intros a k1 k2.
  assert (tea.String_ k2 ≠ "esc") as H1 by discriminate.
  assert (tea.String_ k2 ≠ "r") as H2 by discriminate.
  assert (tea.String_ k2 ≠
          config.Quit (config.Global (config.Keybinds (App.cfg a)))) as H3
    by discriminate.
  split; [done|].
  apply (leader_chord_focuses_panel a k1 k2 eq_refl eq_refl H1 H2 H3).
Defined.

Lemma quit_key_spares_a_draft_witness :
  let a := drafting in
  let k := tea.letter "q" in
  (App.leaderKeyPressed a = false ∧ App.matchesLeaderKey a k = false ∧
   key.Matches k (App.Quit (App.keyMap a)) = true) ∧
  ((App.focusedPanel a = App.PanelInput → Input.Value (App.input a) ≠ "" →
    App.Update a (KeyMsg k) =
      (App.set_input (λ _, (Input.Update (App.input a) (KeyMsg k)).1) a,
       (Input.Update (App.input a) (KeyMsg k)).2) ∧
    (CmdQuit ∉ (App.Update a (KeyMsg k)).2) ∧
    App.cancelled (App.Update a (KeyMsg k)).1 = App.cancelled a) ∧
   (App.focusedPanel a ≠ App.PanelInput ∨ Input.Value (App.input a) = "" →
    App.Update a (KeyMsg k) = (App.cancel a, [CmdQuit]))).
Proof.
  intros a k. split; [done|].
  apply (quit_key_spares_a_draft a k eq_refl eq_refl eq_refl).
Defined.

Lemma contacts_focus_reloads_selection_witness :
  let a := listed in
  let msg := messagesLoadedMsg "c1" [msg_hi] in
  let conv := conv_old in
  (App.focusedPanel a = App.PanelContacts ∧
   Contacts.SelectedConversation (App.contacts a) = Some conv ∧
   match msg with
   | KeyMsg _ | OpenEditorMsg _ | EditorResultMsg _ None
   | conversationsLoadedMsg _ => False
   | _ => True
   end) ∧
  (last (App.Update a msg).2 = Some (CmdLoadMessages (store.ID conv)) ∧
   ∀ id msgs, last (App.Update a (messagesLoadedMsg id msgs)).2 =
              Some (CmdLoadMessages (store.ID conv))).
Proof.
  intros a msg conv.
  assert (Contacts.SelectedConversation (App.contacts a) = Some conv) as Hs
    by (vm_compute; reflexivity).
  split; [done|].
  apply (contacts_focus_reloads_selection a msg conv eq_refl Hs I).
Defined.

Lemma enter_selects_conversation_witness :
  let a := listed in
  let k := tea.press tea.KeyEnter in
  let conv := conv_old in
  (App.state a = App.StateConnected ∧ App.focusedPanel a = App.PanelContacts ∧
   App.leaderKeyPressed a = false ∧ App.matchesLeaderKey a k = false ∧
   key.Matches k (App.Quit (App.keyMap a)) = false ∧ App.cycles a k = false ∧
   tea.String_ k = "enter" ∧
   Contacts.SelectedConversation (App.contacts a) = Some conv) ∧
  (let a' := (App.Update a (KeyMsg k)).1 in
   App.activeConversationID a' = store.ID conv ∧
   App.statusMsg a' = "Selected: " +:+ store.Name conv ∧
   head (App.Update a (KeyMsg k)).2 = Some (CmdLoadMessages (store.ID conv)) ∧
   App.focusedPanel a' = App.PanelContacts).
Proof.
  intros a k conv.
  assert (Contacts.SelectedConversation (App.contacts a) = Some conv) as Hs
    by (vm_compute; reflexivity).
  split; [done|].
  apply (enter_selects_conversation a k conv eq_refl eq_refl eq_refl eq_refl
           eq_refl eq_refl eq_refl Hs).
Defined.

Lemma edited_message_is_sent_witness :
  let a := chatting in
  let content := "hello" in
  let k := tea.press tea.KeyEnter in
  (TrimSpace content = content ∧ content ≠ "" ∧
   tea.Type_ k = tea.KeyEnter ∧
   App.leaderKeyPressed a = false ∧ App.matchesLeaderKey a k = false ∧
   key.Matches k (App.Quit (App.keyMap a)) = false ∧ App.cycles a k = false) ∧
  (let a1 := (App.Update a (EditorResultMsg content None)).1 in
   let a2 := (App.Update a1 (KeyMsg k)).1 in
   App.focusedPanel a1 = App.PanelInput ∧
   Input.draftContent (App.input a1) = content ∧
   (App.Update a1 (KeyMsg k)).2 = [CmdMsg (SendMessageMsg content)] ∧
   Input.sending (App.input a2) = true ∧
   (App.activeConversationID a ≠ "" →
    head (App.Update a2 (SendMessageMsg content)).2 =
      Some (CmdSendMessage (App.activeConversationID a) content))).
Proof.
  intros a content k.
  assert (TrimSpace content = content) as Htrim by (vm_compute; reflexivity).
  assert (content ≠ "") as Hne by discriminate.
  split; [done|].
  apply (edited_message_is_sent a content k Htrim Hne eq_refl eq_refl eq_refl
           eq_refl eq_refl).
Defined.

(** ** Where the code departs from the specification *)

(** C1 as stated fails.  With the default configuration and a chord
    pending, [/] is not mapped by the chord, yet the focused
    conversation list handles it as a normal key and enters search
    mode.  The leader key itself is not mapped either: pressing it
    leaves the chord pending, and the navigation key [m] that follows
    moves the focus from the conversation list to the messages. *)
Lemma leader_chord_key_is_reprocessed :
  let a := chord_pending in
  App.leaderKeyPressed a = true ∧
  (App.unmapped a (tea.letter "/") ∧
   Contacts.searchMode (App.contacts a) = false ∧
   Contacts.searchMode (App.contacts (App.run a [ch "/"])) = true) ∧
  (App.unmapped a (tea.press tea.KeyCtrlAt) ∧
   App.leaderKeyPressed (App.run a [ctrl_space]) = true ∧
   App.focusedPanel a = App.PanelContacts ∧
   App.focusedPanel (App.run a [ctrl_space; ch "m"]) = App.PanelMessages).
Proof.
  intros a.
  split; [reflexivity|]. split.
  - split; [repeat split; discriminate|]. split; reflexivity.
  - split; [repeat split; discriminate|]. repeat split; reflexivity.
Qed.

(** C2 as stated fails.  On "hello world", [fo] twice puts the cursor
    on the second [o] (offset 7), from where [,] would go back to the
    first one (offset 4).  A failed [fz] in between leaves the cursor
    at 7 but overwrites the remembered character, so that [,] then
    looks for [z] and the cursor stays at 7.  Besides, the search
    counts bytes where the cursor counts runes: on "éa", [fa] finds
    [a] at byte 2 and puts the cursor at offset 2, the end of the
    buffer, although [a] is the rune at offset 1. *)
Lemma failed_find_overwrites_memory :
  let m := Input.type_keys (normal_editor "hello world")
             [tea.letter "f"; tea.letter "o"; tea.letter "f"; tea.letter "o"] in
  let mz := Input.type_keys m [tea.letter "f"; tea.letter "z"] in
  let mw := Input.type_keys wide_editor [tea.letter "f"; tea.letter "a"] in
  (textinput.Position (Input.textInput m) = 7 ∧
   Input.lastFindChar m = "o"%char ∧ Input.lastFindDir m = 1 ∧
   textinput.Position (Input.textInput (Input.type_keys m [tea.letter ","])) = 4) ∧
  (Input.no_occurrence_after (Input.Value m) "z" 7 ∧
   textinput.Position (Input.textInput mz) = 7 ∧
   Input.lastFindChar mz = "z"%char ∧
   textinput.Position (Input.textInput (Input.type_keys mz [tea.letter ","])) = 7) ∧
  (textinput.value (Input.textInput wide_editor) !! 1%nat = Some 97 ∧
   GoStr.byte_at (Input.Value wide_editor) 2 = Some "a"%char ∧
   textinput.Position (Input.textInput mw) = 2 ∧
   textinput.runes_len (Input.textInput mw) = 2).
Proof.
  intros m mz mw. split; [repeat split; reflexivity|].
  split; [|repeat split; reflexivity].
  split; [|repeat split; reflexivity].
  intros j Hj Hget.
  change (Input.Value m) with "hello world" in Hget.
  apply byte_at_Some_lt in Hget as Hlt.
  change (GoStr.len "hello world") with 11 in Hlt.
  assert (j = 8 ∨ j = 9 ∨ j = 10) as [-> | [-> | ->]] by lia; discriminate.
Qed.

(** C3 as stated fails.  A focused editor in Normal mode with a
    multi-line draft and [d] pending takes Enter as the argument of
    [d]: nothing is submitted and the draft stays.  An editor that is
    not focused ignores Enter.  A draft with surrounding whitespace is
    submitted trimmed, not as it is. *)
Lemma enter_does_not_always_submit_the_draft :
  let draft := "line one" +:+ LF +:+ "line two" in
  let m := Input.SetValue draft (editor "") in
  let pending := Input.type_keys m [tea.press tea.KeyEscape; tea.letter "d"] in
  let unfocused := Input.SetFocused false m in
  let padded := Input.SetValue (" hi" +:+ LF) (editor "") in
  (Input.focused pending = true ∧ Input.draftContent pending = draft ∧
   Input.Update pending enter =
     (Input.set_pendingAction Input.PendingNone pending, [])) ∧
  (Input.draftContent unfocused = draft ∧
   Input.Update unfocused enter = (unfocused, [])) ∧
  (Input.draftContent padded = " hi" +:+ LF ∧
   (Input.Update padded enter).2 = [CmdMsg (SendMessageMsg "hi")]).
Proof.
  intros draft m pending unfocused padded. repeat split; reflexivity.
Qed.

(** C4 as stated fails.  On the empty buffer, [f] with the argument
    [x] finds nothing and leaves buffer and cursor alone, but it is not
    a no-op: it has written its argument and its direction into the
    find memory, which held nothing before. *)
Lemma find_on_empty_buffer_is_not_a_noop :
  let m := normal_editor "" in
  let m' := Input.type_keys m (Input.keys_of (Input.Find_f (tea.letter "x"))) in
  (Input.mode m = Input.ModeNormal ∧ Input.pendingAction m = Input.PendingNone ∧
   Input.Value m = "" ∧ textinput.Position (Input.textInput m) = 0) ∧
  (Input.lastFindChar m = Ascii.zero ∧ Input.lastFindDir m = 0) ∧
  (Input.lastFindChar m' = "x"%char ∧ Input.lastFindDir m' = 1) ∧
  m' ≠ m.
Proof.
  intros m m'. repeat split; try reflexivity.
  intros Heq. apply (f_equal Input.lastFindDir) in Heq. discriminate Heq.
Qed.


(** C9 as stated fails.  The search compares bytes, not characters.
    The query is the one character U+3042, the name the two characters
    U+3044 U+3082; lowercasing changes neither.  The character of the
    query does not occur in the name, yet its three bytes E3 81 82
    occur, in order, among the six bytes E3 81 84 E3 82 82 of the name:
    the score is 65 and the conversation is listed. *)
Lemma search_matches_bytes_not_characters :
  let rq := [12354] in
  let rn := [12356; 12418] in
  let conv := {| store.ID := "c3"; store.Name := GoStr.of_runes rn;
                 store.LatestMessage := ""; store.LatestTimestamp := 0;
                 store.Unread := false; store.IsGroup := false;
                 store.Participants := []; store.AvatarURL := "" |} in
  let m := Contacts.set_search true (GoStr.of_runes rq)
             (Contacts.SetConversations [conv] Contacts.NewContactsModel) in
  (Contacts.searchQuery m ≠ "" ∧
   ToLower (Contacts.searchQuery m) = GoStr.of_runes rq ∧
   ToLower (store.Name conv) = GoStr.of_runes rn) ∧
  ¬ rq `sublist_of` rn ∧
  Contacts.fuzzyMatch (ToLower (Contacts.searchQuery m))
    (ToLower (store.Name conv)) = 65 ∧
  conv ∈ Contacts.getFilteredConversations m.
Proof.
  intros rq rn conv m.
  split; [split; [discriminate|split; vm_compute; reflexivity]|].
  split; [|split; [vm_compute; reflexivity|]].
  - intros Hs. inversion Hs as [| |x l1 l2 Hs']; subst.
    inversion Hs' as [| |x l1 l2 Hs'']; subst. inversion Hs''.
  - change (Contacts.getFilteredConversations m) with [conv]. apply list_elem_of_here.
Qed.
